(** * NTPI dumper (Go version): a shallow embedding of the two-stage decoder

    The development follows the package layout of the Go sources:
    - [pkg/structures]: fixed-layout little-endian headers and the key registry;
    - [pkg/crypto]: AES-CBC with tolerant PKCS#7 stripping, the KeyMap accessor
      and the NTENCODE block decrypter;
    - [pkg/parser]: the Stage-1 region walk;
    - [pkg/extractor]: the Stage-2 block engine and the segmenter.

    Go's [int] is the 64-bit signed integer of the amd64 builds; [uint64] is
    unsigned 64-bit.  Both are carried by [Z] with the wrap-around written out.
    A run-time panic (slice bounds, division by zero) is a result of its own.
    The block cipher, the LZMA2 decoder and SHA-256 come from libraries outside
    the repository and are interfaces here. *)

From Stdlib Require Import ZArith Lia Bool.
From Stdlib.Strings Require Import Byte Ascii.
From stdpp Require Import gmap strings list pretty.

Open Scope Z_scope.

(** ** Machine integers and bytes *)

Definition int_wrap (z : Z) : Z := (z + 2 ^ 63) mod 2 ^ 64 - 2 ^ 63.
Definition uint64_wrap (z : Z) : Z := z mod 2 ^ 64.

Definition int_add (a b : Z) : Z := int_wrap (a + b).
Definition int_sub (a b : Z) : Z := int_wrap (a - b).
Definition int_mul (a b : Z) : Z := int_wrap (a * b).

Definition byte_to_Z (b : byte) : Z := Z.of_N (Byte.to_N b).

Definition byte_of_Z (z : Z) : byte :=
  match Byte.of_N (Z.to_N (z mod 256)) with
  | Some b => b
  | None => x00
  end.

Definition byte_xor (a b : byte) : byte :=
  byte_of_Z (Z.lxor (byte_to_Z a) (byte_to_Z b)).

Global Instance byte_eq_decision : EqDecision byte := Byte.byte_eq_dec.

Definition len (s : list byte) : Z := Z.of_nat (length s).

Definition zeros (n : nat) : list byte := replicate n x00.

(** Little-endian unsigned reading, as [binary.Read] with
    [binary.LittleEndian] does for every fixed-width field. *)
Fixpoint le_uint (bs : list byte) : Z :=
  match bs with
  | [] => 0
  | b :: rest => byte_to_Z b + 256 * le_uint rest
  end.

Definition field (data : list byte) (off width : nat) : list byte :=
  take width (drop off data).

Definition le_field (data : list byte) (off width : nat) : Z :=
  le_uint (field data off width).

(** ** Results, errors and panics *)

(** [fmt.Errorf] values: the fixed text of the format string, and the wrapped
    cause where the format ends in [%w] or [%v]. *)
Inductive msg : Type :=
| Msg (text : string)
| MsgWrap (text : string) (cause : msg).

Inductive result (A : Type) : Type :=
| Ok (a : A)
| Err (e : msg)
| Panic
| OutOfFuel.

Arguments Ok {A} a.
Arguments Err {A} e.
Arguments Panic {A}.
Arguments OutOfFuel {A}.

Definition bind {A B : Type} (r : result A) (k : A -> result B) : result B :=
  match r with
  | Ok a => k a
  | Err e => Err e
  | Panic => Panic
  | OutOfFuel => OutOfFuel
  end.

(** [fmt.Errorf("text: %w", err)] on the error branch of a call. *)
Definition wrapf {A : Type} (text : string) (r : result A) : result A :=
  match r with
  | Err e => Err (MsgWrap text e)
  | other => other
  end.

Declare Scope result_scope.
Delimit Scope result_scope with result.
Notation "x <- r ;; k" := (bind r (fun x => k))
  (at level 100, r at next level, right associativity) : result_scope.
Open Scope result_scope.

Definition is_ok {A : Type} (r : result A) : bool :=
  match r with Ok _ => true | _ => false end.

(** The bytes a computation produced, when it produced any. *)
Definition produced {A : Type} (r : result A) : option A :=
  match r with Ok a => Some a | _ => None end.

(** A loop that is given fuel ends with a result of its own. *)
Definition terminates {A : Type} (r : result A) : Prop := r <> OutOfFuel.

(** ** Slice expressions *)

(** [s[lo:hi]] with the upper bound checked against the length: the
    run-time panics unless [0 <= lo <= hi]; every use below stands behind a
    test of [hi] against [len(s)] (or has [hi = len(s)]), so the capacity of
    the slice plays no part. *)
Definition slice_expr (s : list byte) (lo hi : Z) : result (list byte) :=
  if (0 <=? lo) && (lo <=? hi) && (hi <=? len s)
  then Ok (take (Z.to_nat (hi - lo)) (drop (Z.to_nat lo) s))
  else Panic.

(** A slice value together with the part of its backing array that lies
    between its length and its capacity.  Re-slicing may reach into that
    part: the upper bound of [s[lo:hi]] is [cap(s)], not [len(s)]. *)
Record go_slice : Type := GoSlice {
  elems : list byte;
  spare : list byte
}.

Definition reslice (s : go_slice) (lo hi : Z) : result (list byte) :=
  slice_expr (elems s ++ spare s) lo hi.

(** [copy(dst[pos:], src)]: overwrites at most [len(dst) - pos] bytes. *)
Definition copy_at (dst : list byte) (pos : nat) (src : list byte) : list byte :=
  let n := Nat.min (length dst - pos) (length src) in
  take pos dst ++ take n src ++ drop (pos + n) dst.

(** [len(s)] and [s[:hi]] on a string, which Go indexes by bytes. *)
Definition slen (s : string) : Z := Z.of_nat (String.length s).

Definition string_to (s : string) (hi : Z) : result string :=
  if (0 <=? hi) && (hi <=? slen s)
  then Ok (String.substring 0 (Z.to_nat hi) s)
  else Panic.

(** ** Interfaces of the external libraries *)

(** [crypto/aes]: the block decryption of a cipher built from a key of 16, 24
    or 32 bytes; blocks are 16 bytes. *)
Class BlockCipher : Type := {
  block_decrypt : list byte -> list byte -> list byte;
  block_decrypt_length : forall key blk, length (block_decrypt key blk) = 16%nat
}.

(** The raw LZMA2 stream decoder ([lzma.NewReader2] drained, or liblzma). *)
Class Lzma2Decoder : Type := {
  lzma2_decode : list byte -> option (list byte)
}.

(** [crypto/sha256.Sum256]. *)
Class Sha256 : Type := {
  Sum256 : list byte -> list byte;
  Sum256_length : forall data, length (Sum256 data) = 32%nat
}.

(** ** Package structures: binary headers *)

Module structures.

Record RegionHeader : Type := {
  RegionType : Z;
  RegionSize : Z
}.

Record NTPIHeader : Type := {
  NTPI_Magic : list byte;
  NTPI_Padding : Z;
  VersionMajor : Z;
  VersionMinor : Z;
  VersionPatch : Z;
  FirstRegion : RegionHeader
}.

Record RegionBlockHeader : Type := {
  ThisHeader : RegionHeader;
  NextHeader : RegionHeader;
  RealSize : Z
}.

Record NTEncodeHeader : Type := {
  Magic : list byte;
  PrimaryType : Z;
  CompressSubtype : Z;
  EncryptSubtype : Z;
  Padding : Z;
  ProcessedSize : Z;
  OriginalSize : Z;
  Key : list byte;
  IV : list byte;
  KeySize : Z;
  IVSize : Z
}.

Record NTDecompressHeader : Type := {
  D_Magic : list byte;
  D_PrimaryType : Z;
  DecompressSubtype : Z;
  D_Padding : Z;
  D_ProcessedSize : Z;
  D_OriginalSize : Z;
  Padding2 : list byte
}.

Definition magic_NTPI : list byte := [x4e; x54; x50; x49].
Definition magic_NTENCODE : list byte := [x4e; x54; x45; x4e; x43; x4f; x44; x45].

Definition NTPIHeader_Size : Z := 4 + 4 + 8 + 8 + 8 + 16.

Definition read_RegionHeader (data : list byte) (off : nat) : RegionHeader :=
  {| RegionType := le_field data off 8;
     RegionSize := le_field data (off + 8) 8 |}.

Definition bytes_eqb (a b : list byte) : bool :=
  bool_decide (a = b).

Definition ParseNTPIHeader (data : list byte) : result NTPIHeader :=
  if len data <? 48 then Err (Msg "data too small for NTPI header")
  else
    let header :=
      {| NTPI_Magic := field data 0 4;
         NTPI_Padding := le_field data 4 4;
         VersionMajor := le_field data 8 8;
         VersionMinor := le_field data 16 8;
         VersionPatch := le_field data 24 8;
         FirstRegion := read_RegionHeader data 32 |} in
    if negb (bytes_eqb (NTPI_Magic header) magic_NTPI)
    then Err (Msg "invalid NTPI magic")
    else Ok header.

Definition ParseRegionHeader (data : list byte) : result RegionHeader :=
  if len data <? 16 then Err (Msg "data too small for region header")
  else Ok (read_RegionHeader data 0).

Definition ParseRegionBlockHeader (data : list byte) : result RegionBlockHeader :=
  if len data <? 40 then Err (Msg "data too small for region block header")
  else Ok {| ThisHeader := read_RegionHeader data 0;
             NextHeader := read_RegionHeader data 16;
             RealSize := le_field data 32 8 |}.

Definition ParseNTEncodeHeader (data : list byte) : result NTEncodeHeader :=
  if len data <? 112 then Err (Msg "data too small for NTEncode header")
  else
    let header :=
      {| Magic := field data 0 8;
         PrimaryType := le_field data 8 4;
         CompressSubtype := le_field data 12 4;
         EncryptSubtype := le_field data 16 4;
         Padding := le_field data 20 4;
         ProcessedSize := le_field data 24 8;
         OriginalSize := le_field data 32 8;
         Key := field data 40 32;
         IV := field data 72 32;
         KeySize := le_field data 104 4;
         IVSize := le_field data 108 4 |} in
    if negb (bytes_eqb (Magic header) magic_NTENCODE)
    then Err (Msg "invalid NTEncode magic")
    else Ok header.

Definition GetIV (h : NTEncodeHeader) : list byte := take 16 (IV h).

Definition ParseNTDecompressHeader (data : list byte) : result NTDecompressHeader :=
  if len data <? 112 then Err (Msg "data too small for NTDecompress header")
  else
    let header :=
      {| D_Magic := field data 0 8;
         D_PrimaryType := le_field data 8 4;
         DecompressSubtype := le_field data 12 4;
         D_Padding := le_field data 16 8;
         D_ProcessedSize := le_field data 24 8;
         D_OriginalSize := le_field data 32 8;
         Padding2 := field data 40 72 |} in
    if negb (bytes_eqb (D_Magic header) magic_NTENCODE)
    then Err (Msg "invalid NTDecompress magic")
    else Ok header.

(** [fmt.Sprintf("%d", n)] for an unsigned value. *)
Definition fmt_d (n : Z) : string := pretty (Z.to_N n).

Definition RegionName (regionType : Z) : string :=
  if regionType =? 1 then "Metadata"
  else if regionType =? 2 then "Patch"
  else if regionType =? 3 then "RawProgram"
  else if regionType =? 4 then "KeyMap"
  else if regionType =? 5 then "FileIndex"
  else if regionType =? 6 then "Region6"
  else "Unknown" +:+ fmt_d regionType.

(** *** Key registry *)

Record AESKeyDict : Type := {
  Version : string;
  Keys : gmap string string;
  IVs : gmap string string
}.

Definition AESDict_V1_3_0 : AESKeyDict :=
  {| Version := "1.3.0";
     Keys := list_to_map
       [ ("key_1", "08ed9260dec3807aac3ec00e765186cf4b9c677601ba844f8ec3e8c2fe1e11cb");
         ("key_2", "7cec0ee7e63a703197afa8e09ce40f9b10a5fded6e5f04cb4ba7a435ed600288");
         ("key_3", "76fa1a8d6663aae8b964470c384508f7f974d21af2535cd3549c7c51ed68b0e6");
         ("key_4", "1c37c2a0b579512481e8529532909c7c1be72f9bb5e1a4610328a5e2b67c10f4");
         ("key_5", "4ae22e3ae6ff0b65d06fa18df4f99ae59e6a90cb92ca03de65b64fc0fac958ce") ];
     IVs := list_to_map
       [ ("iv_1", "0797205f6b02c0232cd2798795ba588d");
         ("iv_2", "01c5aaae7c4001592ea6a2310364a9a1");
         ("iv_3", "de930fcc2c37009400e21dfa9f7d1363");
         ("iv_4", "ab15d90ce88a83680a4074d5bb96d94c");
         ("iv_5", "eaaa17604ad7dae5773639c217978da5") ] |}.

Definition VersionKeyMap : gmap string AESKeyDict :=
  {[ "1.3.0" := AESDict_V1_3_0 ]}.

Definition DefaultAESDict : AESKeyDict := AESDict_V1_3_0.

(** [key[:len(partialVersion)] == partialVersion], behind the length guard. *)
Definition has_prefix (key partialVersion : string) : bool :=
  (String.length partialVersion <=? String.length key)%nat
  && bool_decide (String.substring 0 (String.length partialVersion) key = partialVersion).

(** The function returns a pointer; [None] is the nil pointer.  The range
    loop visits the entries of the map in an order Go leaves unspecified;
    the registry holds a single entry. *)
Definition GetAESDictForVersion (major minor patch : Z) : option AESKeyDict :=
  let version := fmt_d major +:+ "." +:+ fmt_d minor +:+ "." +:+ fmt_d patch in
  match VersionKeyMap !! version with
  | Some dict => Some dict
  | None =>
      let partialVersion := fmt_d major +:+ "." +:+ fmt_d minor in
      match List.find (fun kd => has_prefix (fst kd) partialVersion)
                      (map_to_list VersionKeyMap) with
      | Some kd => Some (snd kd)
      | None => Some DefaultAESDict
      end
  end.

Definition GetKeyForRegion (d : AESKeyDict) (regionType : Z) : string :=
  let keyName := "key_" +:+ fmt_d regionType in
  match Keys d !! keyName with
  | Some key => key
  | None => ""
  end.

Definition GetIVForRegion (d : AESKeyDict) (regionType : Z) : string :=
  let ivName := "iv_" +:+ fmt_d regionType in
  match IVs d !! ivName with
  | Some iv => iv
  | None => ""
  end.

End structures.

(** ** encoding/hex *)

Module hex.

Definition hexdigits : list ascii :=
  ["0"; "1"; "2"; "3"; "4"; "5"; "6"; "7"; "8"; "9";
   "a"; "b"; "c"; "d"; "e"; "f"]%char.

Definition digit (n : Z) : ascii := nth (Z.to_nat n) hexdigits "0"%char.

Fixpoint EncodeToString (src : list byte) : string :=
  match src with
  | [] => EmptyString
  | b :: rest =>
      String (digit (byte_to_Z b / 16))
        (String (digit (byte_to_Z b mod 16)) (EncodeToString rest))
  end.

Definition fromHexChar (c : ascii) : option Z :=
  let n := Z.of_N (Ascii.N_of_ascii c) in
  if (48 <=? n) && (n <=? 57) then Some (n - 48)
  else if (97 <=? n) && (n <=? 102) then Some (n - 97 + 10)
  else if (65 <=? n) && (n <=? 70) then Some (n - 65 + 10)
  else None.

Fixpoint DecodeString (s : string) : result (list byte) :=
  match s with
  | EmptyString => Ok []
  | String a (String b rest) =>
      match fromHexChar a, fromHexChar b with
      | Some hi, Some lo =>
          bind (DecodeString rest) (fun tl => Ok (byte_of_Z (hi * 16 + lo) :: tl))
      | _, _ => Err (Msg "encoding/hex: invalid byte")
      end
  | String _ EmptyString => Err (Msg "encoding/hex: odd length hex string")
  end.

End hex.

(** [strings.EqualFold] on the strings the program compares: the left
    operand is lower-case hexadecimal, so Unicode simple folding coincides
    with folding the ASCII letters. *)
Definition ascii_lower (c : ascii) : ascii :=
  let n := Ascii.N_of_ascii c in
  if ((65 <=? n) && (n <=? 90))%N then Ascii.ascii_of_N (n + 32) else c.

Fixpoint EqualFold (s t : string) : bool :=
  match s, t with
  | EmptyString, EmptyString => true
  | String a s', String b t' =>
      bool_decide (ascii_lower a = ascii_lower b) && EqualFold s' t'
  | _, _ => false
  end.

Fixpoint lower (s : string) : string :=
  match s with
  | EmptyString => EmptyString
  | String c rest => String (ascii_lower c) (lower rest)
  end.

(** ** Package crypto *)

Module crypto.
Import structures.

Section WithCipher.
Context {cipher : BlockCipher}.

Definition xor_bytes (a b : list byte) : list byte := zip_with byte_xor a b.

(** [cipher.NewCBCDecrypter(block, iv).CryptBlocks(dst, src)] with
    [len(dst) = len(src)]: each 16-byte block is decrypted and xor-ed with
    the preceding ciphertext block, the first one with the IV. *)
Fixpoint cbc_blocks (n : nat) (key prev src : list byte) : list byte :=
  match n with
  | O => []
  | S n' =>
      let c := take 16 src in
      xor_bytes (block_decrypt key c) prev ++ cbc_blocks n' key c (drop 16 src)
  end.

Definition CryptBlocks (key iv src : list byte) : list byte :=
  cbc_blocks (length src / 16) key iv src.

Definition removePKCS7Padding (data : list byte) : list byte :=
  match last data with
  | None => data
  | Some b =>
      let paddingLen := byte_to_Z b in
      if (paddingLen =? 0) || (paddingLen >? 16) || (paddingLen >? len data)
      then data
      else if forallb (fun x => bool_decide (x = byte_of_Z paddingLen))
                      (drop (Z.to_nat (len data - paddingLen)) data)
           then take (Z.to_nat (len data - paddingLen)) data
           else data
  end.

(** A [[]byte] argument that the function compares with [nil] is an option. *)
Definition DecryptAESCBC (encryptedData : list byte) (key iv : option (list byte))
  : result (list byte) :=
  let key := match key with None => zeros 32 | Some k => k end in
  let iv := match iv with None => zeros 16 | Some v => v end in
  if negb ((len key =? 16) || (len key =? 24) || (len key =? 32))
  then Err (Msg "invalid key size")
  else if negb (len iv =? 16)
  then Err (Msg "invalid IV size")
  else if negb (Z.rem (len encryptedData) 16 =? 0)
  then Err (Msg "encrypted data size is not a multiple of AES block size")
  else Ok (removePKCS7Padding (CryptBlocks key iv encryptedData)).

Definition GetKeyIVForRegion (regionType : Z) (keyDict : AESKeyDict)
  : result (list byte * list byte) :=
  let keyHex := GetKeyForRegion keyDict regionType in
  let ivHex := GetIVForRegion keyDict regionType in
  if bool_decide (keyHex = "") || bool_decide (ivHex = "")
  then Err (Msg "key or IV not found for region")
  else
    key <- wrapf "failed to decode key hex" (hex.DecodeString keyHex) ;;
    iv <- wrapf "failed to decode IV hex" (hex.DecodeString ivHex) ;;
    Ok (key, iv).

Definition DecryptRegionData (encryptedData : list byte) (regionType : Z)
    (keyDict : AESKeyDict) : result (list byte) :=
  kv <- GetKeyIVForRegion regionType keyDict ;;
  DecryptAESCBC encryptedData (Some (fst kv)) (Some (snd kv)).

(** [keyIndex * 32] is a product of [int]s and wraps; [%] is Go's truncated
    remainder.  The keymap is the slice [os.ReadFile] returned, whose
    capacity may exceed its length. *)
Definition ExtractKeyFromKeyMap (keymapData : go_slice) (keyIndex : Z)
  : result (list byte) :=
  let n := len (elems keymapData) in
  if n =? 0 then Err (Msg "keymap data is empty")
  else
    let keyOffset := int_mul keyIndex 32 in
    let keyOffset := if keyOffset >=? n then Z.rem keyOffset n else keyOffset in
    if int_add keyOffset 32 >? n then
      firstPart <- reslice keymapData keyOffset n ;;
      let remaining := int_sub 32 (len firstPart) in
      secondPart <- reslice keymapData 0 remaining ;;
      let key := copy_at (zeros 32) 0 firstPart in
      _ <- slice_expr key (len firstPart) (len key) ;;
      Ok (copy_at key (length firstPart) secondPart)
    else
      part <- reslice keymapData keyOffset (int_add keyOffset 32) ;;
      Ok (copy_at (zeros 32) 0 part).

Definition DecryptNTEncodeBlock (region6Data : list byte) (offset : Z)
    (key : option (list byte)) : result (Z * list byte) :=
  if offset >=? len region6Data
  then Err (Msg "offset exceeds data size")
  else
    let headerSize := 112 in
    if int_add offset headerSize >? len region6Data
    then Err (Msg "not enough data for NTEncode header")
    else
      hdr <- slice_expr region6Data offset (int_add offset headerSize) ;;
      header <- wrapf "failed to parse NTEncode header" (ParseNTEncodeHeader hdr) ;;
      let dataOffset := int_add offset headerSize in
      let encryptedSize := int_wrap (OriginalSize header) in
      if int_add dataOffset encryptedSize >? len region6Data
      then Err (Msg "encrypted data exceeds region6 bounds")
      else
        encryptedData <-
          slice_expr region6Data dataOffset (int_add dataOffset encryptedSize) ;;
        let iv := GetIV header in
        decryptedData <-
          wrapf "AES decryption failed" (DecryptAESCBC encryptedData key (Some iv)) ;;
        let nextOffset := int_add dataOffset encryptedSize in
        Ok (nextOffset, decryptedData).

End WithCipher.

(** The bytes [data[len(data)-p:]] all equal [p]. *)
Definition padded_with (data : list byte) (p : byte) : Prop :=
  Forall (fun x => x = p) (drop (Z.to_nat (len data - byte_to_Z p)) data).

End crypto.

(** The wrap rule of the KeyMap accessor in the words of the specification:
    32 bytes of the table repeated twice, from
    [offset = (index * 32) mod len(table)]. *)
Module spec.

Definition key_offset (table : list byte) (index : Z) : Z :=
  (index * 32) mod len table.

Definition extract_key (table : list byte) (index : Z) : list byte :=
  take 32 (drop (Z.to_nat (key_offset table index)) (table ++ table)).

End spec.

(** ** path/filepath, on a platform whose separator is [/] *)

Module filepath.

Fixpoint split_go (s cur : string) : list string :=
  match s with
  | EmptyString => [cur]
  | String c rest =>
      if bool_decide (c = "/"%char)
      then cur :: split_go rest ""
      else split_go rest (cur +:+ String c "")
  end.

Definition split (s : string) : list string := split_go s "".

Definition join_slash (parts : list string) : string :=
  match parts with
  | [] => ""
  | p :: rest => fold_left (fun acc q => acc +:+ "/" +:+ q) rest p
  end.

(** One element of the path, against the elements kept so far (innermost
    first): empty and [.] elements vanish, [..] removes the element before
    it, disappears at the root, and stays at the front of a relative path. *)
Definition clean_step (rooted : bool) (kept : list string) (c : string)
  : list string :=
  if bool_decide (c = "") || bool_decide (c = ".") then kept
  else if bool_decide (c = "..") then
    match kept with
    | top :: below => if bool_decide (top = "..") then c :: kept else below
    | [] => if rooted then [] else [c]
    end
  else c :: kept.

Definition is_rooted (path : string) : bool :=
  match path with
  | String c _ => bool_decide (c = "/"%char)
  | EmptyString => false
  end.

Definition Clean (path : string) : string :=
  if bool_decide (path = "") then "."
  else
    let rooted := is_rooted path in
    let kept := fold_left (clean_step rooted) (split path) [] in
    let body := join_slash (rev kept) in
    if rooted then "/" +:+ body
    else if bool_decide (body = "") then "." else body.

Definition Join (a b : string) : string :=
  if negb (bool_decide (a = "")) then Clean (a +:+ "/" +:+ b)
  else if negb (bool_decide (b = "")) then Clean b
  else "".

Fixpoint has_separator (s : string) : bool :=
  match s with
  | EmptyString => false
  | String c rest => bool_decide (c = "/"%char) || has_separator rest
  end.

(** The path up to and including its last separator. *)
Fixpoint dir_part (path : string) : string :=
  match path with
  | EmptyString => ""
  | String c rest =>
      if bool_decide (c = "/"%char) || has_separator rest
      then String c (dir_part rest)
      else ""
  end.

Definition Dir (path : string) : string := Clean (dir_part path).

Definition IsAbs (path : string) : bool := is_rooted path.

(** [Ext]: the loop [for i := len(path) - 1; i >= 0 && path[i] != '/'; i--]
    returns [path[i:]] at the first dot it meets; [n] is [i + 1]. *)
Fixpoint ext_scan (path : string) (n : nat) : string :=
  match n with
  | O => ""
  | S i =>
      match String.get i path with
      | Some c =>
          if bool_decide (c = "/"%char) then ""
          else if bool_decide (c = "."%char)
               then String.substring i (String.length path - i) path
               else ext_scan path i
      | None => ""
      end
  end.

Definition Ext (path : string) : string := ext_scan path (String.length path).

End filepath.

(** ** The file system and the console *)

(** Files by path, the directories created so far, the paths at which
    [os.MkdirAll] and [os.WriteFile] fail, and the warnings printed (of the
    console output only the warnings are kept; banners, progress bars and
    timings are presentation). *)
Record world : Type := World {
  files : gmap string (list byte);
  dirs : gset string;
  denied : gset string;
  warnings : list string
}.

Definition ReadFile (path : string) (w : world) : option (list byte) :=
  files w !! path.

Definition MkdirAll (path : string) (w : world) : option world :=
  if bool_decide (path ∈ denied w) then None
  else Some {| files := files w; dirs := dirs w ∪ {[ path ]};
               denied := denied w; warnings := warnings w |}.

Definition WriteFile (path : string) (data : list byte) (w : world)
  : option world :=
  if bool_decide (path ∈ denied w) then None
  else Some {| files := <[ path := data ]> (files w); dirs := dirs w;
               denied := denied w; warnings := warnings w |}.

Definition warn (line : string) (w : world) : world :=
  {| files := files w; dirs := dirs w; denied := denied w;
     warnings := warnings w ++ [line] |}.

(** ** Package parser: Stage 1 *)

Module parser.
Import structures.

Record FileInfo : Type := {
  Name : string;
  FileSha256Hash : string;
  PartitionSha256Hash : string;
  KeyIndex : Z;
  IsSparse : string;
  IsEncrypted : string;
  IsCompressed : string;
  PartitionLength : Z;
  OriginalLength : Z;
  Offset : Z;
  Length : Z
}.

Section WithCipher.
Context {cipher : BlockCipher}.

(** The triple [(int, *RegionHeader, error)]: the pair is the first two
    components, [None] the nil pointer. *)
Definition extractRegion (fileData : list byte) (regionHeader : RegionHeader)
    (offset : Z) (outputDir : string) (keyDict : AESKeyDict) (w : world)
  : result (Z * option RegionHeader) * world :=
  let regionName := RegionName (RegionType regionHeader) in
  let regionEnd := int_add offset (int_wrap (RegionSize regionHeader)) in
  if regionEnd >? len fileData
  then (Err (Msg "region data out of bounds"), w)
  else
    match slice_expr fileData offset regionEnd with
    | Ok regionData =>
        if RegionType regionHeader =? 6 then
          let outputFile := filepath.Join outputDir "region6block.bin" in
          match WriteFile outputFile regionData w with
          | None => (Err (Msg "failed to save Region6"), w)
          | Some w' => (Ok (-1, None), w')
          end
        else
          let payload :=
            decryptedData <- wrapf "decryption failed"
              (crypto.DecryptRegionData regionData (RegionType regionHeader) keyDict) ;;
            if len decryptedData <? 40
            then Err (Msg "decrypted data too small for RegionBlockHeader")
            else
              blockHeader <- wrapf "failed to parse region block header"
                (ParseRegionBlockHeader decryptedData) ;;
              let dataOffset := 40 in
              let dataEnd := int_add dataOffset (int_wrap (RealSize blockHeader)) in
              if dataEnd >? len decryptedData
              then Err (Msg "real data size exceeds decrypted buffer")
              else
                actualData <- slice_expr decryptedData dataOffset dataEnd ;;
                Ok (blockHeader, actualData) in
          match payload with
          | Ok (blockHeader, actualData) =>
              let outputFile :=
                if RegionType regionHeader =? 4
                then filepath.Join outputDir (regionName +:+ ".bin")
                else filepath.Join outputDir (regionName +:+ ".xml") in
              match WriteFile outputFile actualData w with
              | None => (Err (Msg "failed to save file"), w)
              | Some w' =>
                  if RegionSize (NextHeader blockHeader) >? 0
                  then
                    let nextOffset :=
                      int_add offset (int_wrap (RegionSize regionHeader)) in
                    (Ok (nextOffset, Some (NextHeader blockHeader)), w')
                  else (Ok (-1, None), w')
              end
          | Err e => (Err e, w)
          | Panic => (Panic, w)
          | OutOfFuel => (OutOfFuel, w)
          end
    | Err e => (Err e, w)
    | Panic => (Panic, w)
    | OutOfFuel => (OutOfFuel, w)
    end.

(** The [for { ... }] loop of [ParseNTPIFile]. *)
Fixpoint region_walk (fuel : nat) (fileData : list byte) (outputDir : string)
    (keyDict : AESKeyDict) (currentRegion : RegionHeader) (currentOffset : Z)
    (w : world) : result unit * world :=
  match fuel with
  | O => (OutOfFuel, w)
  | S fuel' =>
      match extractRegion fileData currentRegion currentOffset outputDir keyDict w with
      | (Ok (nextOffset, nextRegion), w') =>
          match nextRegion with
          | Some region =>
              if nextOffset =? -1 then (Ok tt, w')
              else region_walk fuel' fileData outputDir keyDict region nextOffset w'
          | None => (Ok tt, w')
          end
      | (Err e, w') => (Err (MsgWrap "failed to extract region" e), w')
      | (Panic, w') => (Panic, w')
      | (OutOfFuel, w') => (OutOfFuel, w')
      end
  end.

Definition ParseNTPIFile (filePath outputDir : string) (w : world)
  : result unit * world :=
  match ReadFile filePath w with
  | None => (Err (Msg "failed to read NTPI file"), w)
  | Some fileData =>
      match ParseNTPIHeader fileData with
      | Ok header =>
          let keyDict :=
            GetAESDictForVersion (VersionMajor header) (VersionMinor header)
                                 (VersionPatch header) in
          let '(keyDict, w) :=
            match keyDict with
            | None =>
                (DefaultAESDict,
                 warn "Warning: Unsupported firmware version, using default keys" w)
            | Some d => (d, w)
            end in
          match MkdirAll outputDir w with
          | None => (Err (Msg "failed to create output directory"), w)
          | Some w =>
              region_walk (S (length fileData)) fileData outputDir keyDict
                          (FirstRegion header) NTPIHeader_Size w
          end
      | Err e => (Err (MsgWrap "failed to parse NTPI header" e), w)
      | Panic => (Panic, w)
      | OutOfFuel => (OutOfFuel, w)
      end
  end.

End WithCipher.

(** The name a metadata region is saved under. *)
Definition region_file (regionType : Z) : string :=
  if regionType =? 4 then RegionName regionType +:+ ".bin"
  else RegionName regionType +:+ ".xml".

(** [fuel] iterations of the walk are enough at [offset]: either the offset
    is negative (the next step cannot succeed) or fewer than [fuel] bytes of
    the archive lie ahead. *)
Definition walk_affordable (fileData : list byte) (fuel : nat) (offset : Z)
  : Prop :=
  (1 <= fuel)%nat /\ (offset < 0 \/ len fileData - offset < Z.of_nat fuel).

End parser.

(** ** Package extractor: Stage 2 *)

Module extractor.
Import structures parser.

Record FileTask : Type := {
  FileInfo_ : FileInfo;
  Region6Data : list byte;
  KeyMapData : go_slice;
  OutputDir : string;
  UseSegmented : bool;
  NumSegments : Z;
  ShowProgress : bool
}.

(** [Duration] is wall-clock time and is left out. *)
Record FileResult : Type := {
  FileName : string;
  Success : bool;
  Message : msg
}.

Record Segment : Type := {
  StartOffset : Z;
  EndOffset : Z;
  StartBlockIndex : Z;
  NumBlocks : Z
}.

Record BlockBoundary : Type := {
  B_Offset : Z;
  B_BlockIndex : Z;
  AccumulatedSize : Z
}.

Definition MB : Z := 1024 * 1024.
Definition GB : Z := 1024 * MB.

Definition calculateOptimalSegments (fileSize : Z) : Z :=
  if fileSize <? 500 * MB then 1
  else if fileSize <? 1 * GB then 4
  else if fileSize <? 2 * GB then 8
  else if fileSize <? 4 * GB then 12
  else 16.

(** [truncateFileName], and word for word [truncateFileNameSegment]. *)
Definition truncateFileName (filename : string) (maxLen : Z) : result string :=
  if slen filename <=? maxLen then Ok filename
  else
    let ext := filepath.Ext filename in
    nameWithoutExt <- string_to filename (int_sub (slen filename) (slen ext)) ;;
    if slen ext >=? int_sub maxLen 3 then
      head <- string_to filename (int_sub maxLen 3) ;;
      Ok (head +:+ "...")
    else
      let allowedLen := int_sub (int_sub maxLen (slen ext)) 3 in
      head <- string_to nameWithoutExt allowedLen ;;
      Ok (head +:+ "..." +:+ ext).

Section WithLibraries.
Context {cipher : BlockCipher} {decoder : Lzma2Decoder} {hasher : Sha256}.

(** The header checks are the same in the cgo and in the pure-Go build; the
    two differ in the decoder the stream is handed to. *)
Definition decompressLZMA2 (decryptedData : list byte) : result (list byte) :=
  if len decryptedData <? 112
  then Err (Msg "data too small for NTDecompress header")
  else if negb (bytes_eqb (take 8 decryptedData) magic_NTENCODE)
  then Err (Msg "invalid NTDecompress header magic")
  else
    _ <- wrapf "failed to parse NTDecompress header"
           (ParseNTDecompressHeader (take 112 decryptedData)) ;;
    let dataOffset := 112 in
    if dataOffset >=? len decryptedData
    then Err (Msg "data offset exceeds data range")
    else
      let compressedData := drop 112 decryptedData in
      match lzma2_decode compressedData with
      | Some out => Ok out
      | None => Err (Msg "LZMA2 decompression failed")
      end.

Definition verifyHash (data : list byte) (expectedHash : string) : bool :=
  let hash := Sum256 data in
  let actualHash := hex.EncodeToString hash in
  EqualFold actualHash expectedHash.

(** One iteration of the block loops: key, decrypt, decompress.  The two
    loops word their errors differently: [processFileSequential] adds
    [" at block"] (and the index) to the last two. *)
Definition process_block (task : FileTask) (where_ : string)
    (keyIndex currentOffset : Z) : result (Z * list byte) :=
  key <- wrapf "failed to extract key"
           (crypto.ExtractKeyFromKeyMap (KeyMapData task) keyIndex) ;;
  blk <- wrapf ("decryption failed" +:+ where_)
           (crypto.DecryptNTEncodeBlock (Region6Data task) currentOffset (Some key)) ;;
  decompressedData <- wrapf ("decompression failed" +:+ where_)
                        (decompressLZMA2 (snd blk)) ;;
  Ok (fst blk, decompressedData).

(** The [for currentOffset < endOffset] loop of [processFileSequential]. *)
Fixpoint sequential_loop (fuel : nat) (task : FileTask) (endOffset : Z)
    (currentOffset blockIndex : Z) (fileData : list byte) : result (list byte) :=
  match fuel with
  | O => OutOfFuel
  | S fuel' =>
      if currentOffset <? endOffset then
        let keyIndex := int_add (KeyIndex (FileInfo_ task)) blockIndex in
        step <- process_block task " at block" keyIndex currentOffset ;;
        sequential_loop fuel' task endOffset (fst step) (int_add blockIndex 1)
                        (fileData ++ snd step)
      else Ok fileData
  end.

(** Enough iterations for every run: a block that decrypts moves the cursor
    forward by at least 112 bytes inside [Region6Data]. *)
Definition loop_fuel (task : FileTask) : nat := S (length (Region6Data task)).

Definition failure (file : FileInfo) (m : msg) : FileResult :=
  {| FileName := Name file; Success := false; Message := m |}.

(** The part of a file task after the data are assembled: hash, then write. *)
Definition verify_and_write (file : FileInfo) (outputPath : string)
    (finalData : list byte) (okMessage : string) (w : world)
  : result FileResult * world :=
  if negb (verifyHash finalData (FileSha256Hash file))
  then (Ok (failure file (Msg "hash verification failed")), w)
  else
    match WriteFile outputPath finalData w with
    | None => (Ok (failure file (Msg "failed to write file")), w)
    | Some w' =>
        (Ok {| FileName := Name file; Success := true; Message := Msg okMessage |}, w')
    end.

(** The bytes [processFileSequential] assembles before it hashes them. *)
Definition sequential_data (task : FileTask) : result (list byte) :=
  let file := FileInfo_ task in
  let currentOffset := int_wrap (Offset file) in
  let endOffset := int_add currentOffset (int_wrap (Length file)) in
  sequential_loop (loop_fuel task) task endOffset currentOffset 0 [].

Definition processFileSequential (task : FileTask) (w : world)
  : result FileResult * world :=
  let file := FileInfo_ task in
  let outputPath := filepath.Join (OutputDir task) (Name file) in
  match MkdirAll (filepath.Dir outputPath) w with
  | None => (Ok (failure file (Msg "failed to create directory")), w)
  | Some w =>
      match sequential_data task with
      | Ok finalData => verify_and_write file outputPath finalData "OK" w
      | Err e => (Ok (failure file e), w)
      | Panic => (Panic, w)
      | OutOfFuel => (OutOfFuel, w)
      end
  end.

(** *** The segmenter *)

(** Step 1 of [splitFileIntoSegments]: the boundary scan.  A header that
    does not fit or does not parse ends the scan ([break]). *)
Fixpoint scan_loop (fuel : nat) (region6Data : list byte) (offsetEnd : Z)
    (currentOffset blockIndex accumulatedSize : Z)
    (boundaries : list BlockBoundary) : result (list BlockBoundary * Z) :=
  match fuel with
  | O => OutOfFuel
  | S fuel' =>
      if currentOffset <? offsetEnd then
        if int_add currentOffset 112 >? len region6Data
        then Ok (boundaries, accumulatedSize)
        else
          hdr <- slice_expr region6Data currentOffset (int_add currentOffset 112) ;;
          match ParseNTEncodeHeader hdr with
          | Ok header =>
              let boundaries :=
                boundaries ++ [ {| B_Offset := currentOffset;
                                   B_BlockIndex := blockIndex;
                                   AccumulatedSize := accumulatedSize |} ] in
              let encryptedSize := int_wrap (OriginalSize header) in
              let blockSize := int_add 112 encryptedSize in
              scan_loop fuel' region6Data offsetEnd
                        (int_add currentOffset blockSize)
                        (int_add blockIndex 1)
                        (uint64_wrap (accumulatedSize + ProcessedSize header))
                        boundaries
          | Err _ => Ok (boundaries, accumulatedSize)
          | Panic => Panic
          | OutOfFuel => OutOfFuel
          end
      else Ok (boundaries, accumulatedSize)
  end.

(** [boundaries[i]]: an index out of range panics. *)
Definition index {A : Type} (l : list A) (i : nat) : result A :=
  match l !! i with
  | Some a => Ok a
  | None => Panic
  end.

(** Step 2: the [for i := 0; i < totalBlocks; i++] loop; [todo] counts the
    iterations left. *)
Fixpoint partition_loop (todo : nat) (boundaries : list BlockBoundary)
    (offsetEnd numSegments targetSizePerSegment : Z) (i : nat)
    (segments : list Segment) (segmentStartIdx : nat) (currentSegmentSize : Z)
  : result (list Segment) :=
  match todo with
  | O => Ok segments
  | S todo' =>
      let totalBlocks := length boundaries in
      currentSegmentSize <-
        (if (segmentStartIdx <? length boundaries)%nat then
           bi <- index boundaries i ;;
           bs <- index boundaries segmentStartIdx ;;
           Ok (uint64_wrap (AccumulatedSize bi - AccumulatedSize bs))
         else Ok currentSegmentSize) ;;
      let shouldEndSegment :=
        (Z.of_nat (length segments) <? int_sub numSegments 1)
        && (currentSegmentSize >=? targetSizePerSegment) in
      if shouldEndSegment || (i =? totalBlocks - 1)%nat then
        bs <- index boundaries segmentStartIdx ;;
        let startOffset := B_Offset bs in
        let startBlockIdx := B_BlockIndex bs in
        ends <-
          (if (i =? totalBlocks - 1)%nat then
             Ok (offsetEnd, Z.of_nat totalBlocks - Z.of_nat segmentStartIdx)
           else
             endOffset <-
               (if (i + 1 <? totalBlocks)%nat
                then bn <- index boundaries (i + 1) ;; Ok (B_Offset bn)
                else Ok offsetEnd) ;;
             Ok (endOffset, Z.of_nat i - Z.of_nat segmentStartIdx + 1)) ;;
        let segments :=
          segments ++ [ {| StartOffset := startOffset;
                           EndOffset := fst ends;
                           StartBlockIndex := startBlockIdx;
                           NumBlocks := snd ends |} ] in
        partition_loop todo' boundaries offsetEnd numSegments targetSizePerSegment
                       (i + 1) segments (i + 1) 0
      else
        partition_loop todo' boundaries offsetEnd numSegments targetSizePerSegment
                       (i + 1) segments segmentStartIdx currentSegmentSize
  end.

(** The scan stops only by reaching [offsetEnd] or by a [break]; a header
    whose size field sends the cursor back to an offset already visited makes
    it run forever, which is the result [OutOfFuel]. *)
Definition splitFileIntoSegments (task : FileTask) (numSegments : Z)
  : result (list Segment) :=
  let file := FileInfo_ task in
  let offsetStart := int_wrap (Offset file) in
  let offsetEnd := int_add offsetStart (int_wrap (Length file)) in
  scanned <- scan_loop (loop_fuel task) (Region6Data task) offsetEnd
                       offsetStart 0 0 [] ;;
  let boundaries := fst scanned in
  let accumulatedSize := snd scanned in
  let totalBlocks := length boundaries in
  if (totalBlocks =? 0)%nat then Err (Msg "no valid blocks found")
  else if uint64_wrap numSegments =? 0 then Panic
  else
    let targetSizePerSegment := accumulatedSize / uint64_wrap numSegments in
    partition_loop totalBlocks boundaries offsetEnd numSegments
                   targetSizePerSegment 0 [] 0 0.

(** The loop of [processSegment]. *)
Fixpoint segment_loop (fuel : nat) (task : FileTask) (segment : Segment)
    (currentOffset blockCount : Z) (segmentData : list byte)
  : result (list byte) :=
  match fuel with
  | O => OutOfFuel
  | S fuel' =>
      if (currentOffset <? EndOffset segment) && (blockCount <? NumBlocks segment)
      then
        let keyIndex :=
          int_add (int_add (KeyIndex (FileInfo_ task)) (StartBlockIndex segment))
                  blockCount in
        step <- process_block task "" keyIndex currentOffset ;;
        segment_loop fuel' task segment (fst step) (int_add blockCount 1)
                     (segmentData ++ snd step)
      else Ok segmentData
  end.

Definition processSegment (task : FileTask) (segment : Segment)
  : result (list byte) :=
  segment_loop (loop_fuel task) task segment (StartOffset segment) 0 [].

(** The segments are processed by one goroutine each; every goroutine reads
    the shared inputs only and fills its own slot of [segmentResults], so the
    slots are the results in segment order.  A failure of any segment fails
    the file (the error reported is the first in segment order here; the
    channel delivers an unspecified one). *)
Fixpoint run_segments (task : FileTask) (segments : list Segment)
  : result (list (list byte)) :=
  match segments with
  | [] => Ok []
  | seg :: rest =>
      match processSegment task seg, run_segments task rest with
      | Panic, _ | _, Panic => Panic
      | OutOfFuel, _ | _, OutOfFuel => OutOfFuel
      | Err e, _ => Err (MsgWrap "segment" e)
      | _, Err e => Err e
      | Ok data, Ok others => Ok (data :: others)
      end
  end.

(** The bytes [processLargeFileSegmented] assembles before it hashes them:
    split, process every segment, concatenate in segment order. *)
Definition segmented_data (task : FileTask) (numSegments : Z)
  : result (list byte) :=
  segments <- wrapf "failed to split file"
                (splitFileIntoSegments task numSegments) ;;
  segmentResults <- wrapf "segment processing failed"
                      (run_segments task segments) ;;
  Ok (concat segmentResults).

Definition processLargeFileSegmented (task : FileTask) (w : world)
  : result FileResult * world :=
  let file := FileInfo_ task in
  let outputPath := filepath.Join (OutputDir task) (Name file) in
  match MkdirAll (filepath.Dir outputPath) w with
  | None => (Ok (failure file (Msg "failed to create directory")), w)
  | Some w =>
      match segmented_data task (NumSegments task) with
      | Ok finalData =>
          verify_and_write file outputPath finalData "OK (segmented)" w
      | Err e => (Ok (failure file e), w)
      | Panic => (Panic, w)
      | OutOfFuel => (OutOfFuel, w)
      end
  end.

(** The task list of [ExtractFiles] and the body of [worker]. *)
Definition makeTask (region6Data : list byte) (keyMapData : go_slice)
    (outputDir : string) (file : FileInfo) : FileTask :=
  let numSegments := calculateOptimalSegments (PartitionLength file) in
  {| FileInfo_ := file;
     Region6Data := region6Data;
     KeyMapData := keyMapData;
     OutputDir := outputDir;
     UseSegmented := numSegments >? 1;
     NumSegments := numSegments;
     ShowProgress := true |}.

Definition worker (task : FileTask) (w : world) : result FileResult * world :=
  if UseSegmented task
  then processLargeFileSegmented task w
  else processFileSequential task w.

(** The two paths of [worker] differ in how the bytes are assembled and in
    the text of the success message. *)
Definition output_path (task : FileTask) : string :=
  filepath.Join (OutputDir task) (Name (FileInfo_ task)).

Definition assembled (task : FileTask) : result (list byte) :=
  if UseSegmented task then segmented_data task (NumSegments task)
  else sequential_data task.

Definition ok_message (task : FileTask) : string :=
  if UseSegmented task then "OK (segmented)" else "OK".

(** [fuel] iterations of a block loop are enough at cursor [cur]: either the
    cursor is negative (the next block cannot decrypt) or fewer than [fuel]
    bytes of the buffer lie ahead. *)
Definition affordable (task : FileTask) (fuel : nat) (cur : Z) : Prop :=
  (1 <= fuel)%nat /\ (cur < 0 \/ len (Region6Data task) - cur < Z.of_nat fuel).

End WithLibraries.

(** Replacing the declared partition length of an entry. *)
Definition with_partition_length (file : FileInfo) (n : Z) : FileInfo :=
  {| Name := Name file;
     FileSha256Hash := FileSha256Hash file;
     PartitionSha256Hash := PartitionSha256Hash file;
     KeyIndex := KeyIndex file;
     IsSparse := IsSparse file;
     IsEncrypted := IsEncrypted file;
     IsCompressed := IsCompressed file;
     PartitionLength := n;
     OriginalLength := OriginalLength file;
     Offset := Offset file;
     Length := Length file |}.

(** Replacing the Region 6 buffer of a task. *)
Definition with_region6 (task : FileTask) (region6Data : list byte) : FileTask :=
  {| FileInfo_ := FileInfo_ task;
     Region6Data := region6Data;
     KeyMapData := KeyMapData task;
     OutputDir := OutputDir task;
     UseSegmented := UseSegmented task;
     NumSegments := NumSegments task;
     ShowProgress := ShowProgress task |}.

End extractor.

(** The two buffers hold the same bytes from [lo] up to [hi]. *)
Definition agree (lo hi : Z) (a b : list byte) : Prop :=
  forall i : nat, lo <= Z.of_nat i < hi -> a !! i = b !! i.

(** ** Runs of blocks

    The vocabulary of the segmenter's correctness: the blocks a successful
    sequential run goes through, the boundaries a scan should find for them,
    and the segments that cover them. *)

Module runs.
Import structures crypto parser extractor.

Section WithTask.
Context {cipher : BlockCipher} {decoder : Lzma2Decoder} {hasher : Sha256}.
Variable task : FileTask.
Variable offsetEnd : Z.

(** Block number [k] of the file sits at [cur]: the sequential step there
    succeeds with [chunk] and leads to [next]; the facts the boundary scan
    and the segment loop rely on are recorded with it. *)
Record block_at (cur : Z) (k : nat) (next : Z) (chunk : list byte) : Prop := {
  blk_step : process_block task " at block"
               (int_add (KeyIndex (FileInfo_ task)) (Z.of_nat k)) cur
             = Ok (next, chunk);
  blk_lo : 0 <= cur;
  blk_within : cur < offsetEnd;
  blk_next : cur + 112 <= next <= len (Region6Data task);
  blk_index : Z.of_nat k + 1 < 2 ^ 63;
  blk_hend : int_add cur 112 = cur + 112;
  blk_header : exists hdr header,
      slice_expr (Region6Data task) cur (cur + 112) = Ok hdr
      /\ ParseNTEncodeHeader hdr = Ok header
      /\ int_add cur (int_add 112 (int_wrap (OriginalSize header))) = next
}.

(** The blocks the sequential loop goes through from [cur], numbered from
    [k], with the chunk each one decompresses to. *)
Inductive run_from : Z -> nat -> list (Z * list byte) -> Prop :=
| run_done cur k : offsetEnd <= cur -> run_from cur k []
| run_step cur k next chunk rest :
    block_at cur k next chunk ->
    run_from next (S k) rest ->
    run_from cur k ((cur, chunk) :: rest).

Definition chunks (tr : list (Z * list byte)) : list byte := concat (map snd tr).

(** The sequential steps succeed on the blocks [tr], from [cur] and block
    number [k] on, and lead the cursor to [stop]. *)
Inductive run_to (stop : Z) : Z -> nat -> list (Z * list byte) -> Prop :=
| run_to_done k : run_to stop stop k []
| run_to_step cur k next chunk rest :
    process_block task " at block"
      (int_add (KeyIndex (FileInfo_ task)) (Z.of_nat k)) cur
    = Ok (next, chunk) ->
    run_to stop next (S k) rest ->
    run_to stop cur k ((cur, chunk) :: rest).

(** No block header can be read at [cur]: 112 bytes from there do not fit in
    [Region6Data], or they do not parse. *)
Definition header_fails (cur : Z) : Prop :=
  len (Region6Data task) < int_add cur 112
  \/ exists hdr e,
       slice_expr (Region6Data task) cur (int_add cur 112) = Ok hdr
       /\ ParseNTEncodeHeader hdr = Err e.

(** The boundary list [bl] records the blocks of the run [tr], numbered
    from [k]. *)
Fixpoint bounds_ok (k : nat) (tr : list (Z * list byte))
    (bl : list BlockBoundary) : Prop :=
  match tr, bl with
  | [], [] => True
  | t :: tr', b :: bl' =>
      B_Offset b = t.1 /\ B_BlockIndex b = Z.of_nat k /\ bounds_ok (S k) tr' bl'
  | _, _ => False
  end.

Definition no_boundary : BlockBoundary :=
  {| B_Offset := 0; B_BlockIndex := 0; AccumulatedSize := 0 |}.

(** The segment made of blocks [s .. e] of the boundary list. *)
Definition seg_of (bl : list BlockBoundary) (s e : nat) : Segment :=
  {| StartOffset := B_Offset (default no_boundary (bl !! s));
     EndOffset := if (e + 1 <? length bl)%nat
                  then B_Offset (default no_boundary (bl !! (e + 1)%nat))
                  else offsetEnd;
     StartBlockIndex := B_BlockIndex (default no_boundary (bl !! s));
     NumBlocks := Z.of_nat e - Z.of_nat s + 1 |}.

(** Consecutive segments that cover the blocks from [s] to the last one. *)
Inductive cover (bl : list BlockBoundary) : nat -> list Segment -> Prop :=
| cover_nil : cover bl (length bl) []
| cover_cons s e rest :
    (s <= e < length bl)%nat ->
    cover bl (S e) rest ->
    cover bl s (seg_of bl s e :: rest).

End WithTask.
End runs.

(** ** Reference instances of the library interfaces

    The theorems below hold for every block cipher, decoder and hash
    function.  The instances here make the model executable on concrete
    archives: AES as in FIPS 197, SHA-256 as in FIPS 180-4 (both checked
    against the standards' test vectors further down), and the LZMA2
    container restricted to streams of stored (uncompressed) chunks. *)

Module reference.

Definition bytesZ (l : list byte) : list Z := map byte_to_Z l.
Definition Zbytes (l : list Z) : list byte := map byte_of_Z l.

(** *** AES *)

Definition xtime (a : Z) : Z :=
  let b := 2 * a in if b >=? 256 then Z.lxor (b - 256) 27 else b.

Fixpoint gmul_go (n : nat) (a b : Z) : Z :=
  match n with
  | O => 0
  | S n' => Z.lxor (if Z.odd b then a else 0) (gmul_go n' (xtime a) (b / 2))
  end.

Definition gmul (a b : Z) : Z := gmul_go 8 a b.

Definition ginv (a : Z) : Z :=
  hd 0 (filter (fun x => gmul a x =? 1) (map Z.of_nat (seq 1 255))).

Definition rotl8 (x : Z) (n : Z) : Z :=
  Z.land (Z.lor (Z.shiftl x n) (Z.shiftr x (8 - n))) 255.

Definition sbox_of (a : Z) : Z :=
  let b := ginv a in
  Z.lxor b (Z.lxor (rotl8 b 1) (Z.lxor (rotl8 b 2)
    (Z.lxor (rotl8 b 3) (Z.lxor (rotl8 b 4) 99)))).

Definition sbox_table : list Z :=
  Eval vm_compute in map sbox_of (map Z.of_nat (seq 0 256)).

Fixpoint position (y : Z) (l : list Z) : Z :=
  match l with
  | [] => 0
  | x :: rest => if x =? y then 0 else 1 + position y rest
  end.

Definition inv_sbox_table : list Z :=
  Eval vm_compute in
    map (fun y => position y sbox_table) (map Z.of_nat (seq 0 256)).

Definition sbox (a : Z) : Z := nth (Z.to_nat a) sbox_table 0.
Definition inv_sbox (a : Z) : Z := nth (Z.to_nat a) inv_sbox_table 0.

Definition xor_list (a b : list Z) : list Z := zip_with Z.lxor a b.

Definition rot_word (w : list Z) : list Z := drop 1 w ++ take 1 w.

Definition rcon (i : nat) : list Z := [Nat.iter (i - 1) xtime 1; 0; 0; 0].

Fixpoint words (n : nat) (l : list Z) : list (list Z) :=
  match n with
  | O => []
  | S n' => take 4 l :: words n' (drop 4 l)
  end.

Fixpoint expand (n Nk i : nat) (ws : list (list Z)) : list (list Z) :=
  match n with
  | O => ws
  | S n' =>
      let temp := nth (i - 1) ws [] in
      let temp :=
        if (i mod Nk =? 0)%nat
        then xor_list (map sbox (rot_word temp)) (rcon (i / Nk))
        else if (6 <? Nk)%nat && (i mod Nk =? 4)%nat then map sbox temp
        else temp in
      expand n' Nk (S i) (ws ++ [xor_list (nth (i - Nk) ws []) temp])
  end.

Definition rounds (key : list Z) : nat := length key / 4 + 6.

Definition key_schedule (key : list Z) : list (list Z) :=
  let Nk := (length key / 4)%nat in
  expand (4 * (rounds key + 1) - Nk) Nk Nk (words Nk key).

Definition round_key (sched : list (list Z)) (r : nat) : list Z :=
  concat (take 4 (drop (4 * r) sched)).

(** The state holds the input bytes in order: byte [4c + r] is row [r] of
    column [c]. *)
Definition at_ (st : list Z) (r c : nat) : Z := nth (4 * (c mod 4) + r) st 0.

Definition build (f : nat -> nat -> Z) : list Z :=
  map (fun i => f (i mod 4)%nat (i / 4)%nat) (seq 0 16).

Definition shift_rows (st : list Z) : list Z :=
  build (fun r c => at_ st r (c + r)).

Definition inv_shift_rows (st : list Z) : list Z :=
  build (fun r c => at_ st r (c + 4 - r)).

Definition mix (k0 k1 k2 k3 : Z) (st : list Z) : list Z :=
  build (fun r c =>
    Z.lxor (gmul (nth r [k0; k3; k2; k1] 0) (at_ st 0 c))
   (Z.lxor (gmul (nth r [k1; k0; k3; k2] 0) (at_ st 1 c))
   (Z.lxor (gmul (nth r [k2; k1; k0; k3] 0) (at_ st 2 c))
           (gmul (nth r [k3; k2; k1; k0] 0) (at_ st 3 c))))).

Definition mix_columns : list Z -> list Z := mix 2 3 1 1.
Definition inv_mix_columns : list Z -> list Z := mix 14 11 13 9.

Fixpoint enc_rounds (n : nat) (sched : list (list Z)) (r : nat) (st : list Z)
  : list Z :=
  match n with
  | O => st
  | S n' =>
      enc_rounds n' sched (S r)
        (xor_list (mix_columns (shift_rows (map sbox st))) (round_key sched r))
  end.

Definition aes_encrypt (key blk : list Z) : list Z :=
  let sched := key_schedule key in
  let Nr := rounds key in
  let st := xor_list blk (round_key sched 0) in
  let st := enc_rounds (Nr - 1) sched 1 st in
  xor_list (shift_rows (map sbox st)) (round_key sched Nr).

Fixpoint dec_rounds (n : nat) (sched : list (list Z)) (st : list Z) : list Z :=
  match n with
  | O => st
  | S n' =>
      dec_rounds n' sched
        (inv_mix_columns
           (xor_list (map inv_sbox (inv_shift_rows st)) (round_key sched (S n'))))
  end.

Definition aes_decrypt (key blk : list Z) : list Z :=
  let sched := key_schedule key in
  let Nr := rounds key in
  let st := xor_list blk (round_key sched Nr) in
  let st := dec_rounds (Nr - 1) sched st in
  xor_list (map inv_sbox (inv_shift_rows st)) (round_key sched 0).

Definition block16 (st : list Z) : list byte :=
  map (fun i => byte_of_Z (nth i st 0)) (seq 0 16).

Definition aes_block_decrypt (key blk : list byte) : list byte :=
  block16 (aes_decrypt (bytesZ key) (bytesZ blk)).

Definition aes_block_encrypt (key blk : list byte) : list byte :=
  block16 (aes_encrypt (bytesZ key) (bytesZ blk)).

(** CBC encryption, the inverse of [crypto.CryptBlocks]; it builds the
    example archives. *)
Fixpoint cbc_encrypt_blocks (n : nat) (key prev src : list byte) : list byte :=
  match n with
  | O => []
  | S n' =>
      let c := aes_block_encrypt key (zip_with byte_xor (take 16 src) prev) in
      c ++ cbc_encrypt_blocks n' key c (drop 16 src)
  end.

Definition cbc_encrypt (key iv src : list byte) : list byte :=
  cbc_encrypt_blocks (length src / 16) key iv src.

(** *** SHA-256 *)

Definition w32 (x : Z) : Z := x mod 2 ^ 32.

Definition rotr (n x : Z) : Z :=
  w32 (Z.lor (Z.shiftr x n) (Z.shiftl x (32 - n))).

Definition is_prime (n : nat) : bool :=
  forallb (fun d => negb (n mod d =? 0)%nat) (seq 2 (n - 2)).

Definition primes64 : list Z :=
  Eval vm_compute in map Z.of_nat (take 64 (filter is_prime (seq 2 400))).

(** The integer cube root, by bisection on the bits below [2^bits]. *)
Fixpoint icbrt_go (bits : nat) (n acc : Z) : Z :=
  match bits with
  | O => acc
  | S b =>
      let cand := acc + 2 ^ Z.of_nat b in
      icbrt_go b n (if cand * cand * cand <=? n then cand else acc)
  end.

(** The first 32 bits of the fractional parts of the cube roots (round
    constants) and of the square roots (initial state) of the primes. *)
Definition K256 : list Z :=
  Eval vm_compute in map (fun p => w32 (icbrt_go 40 (p * 2 ^ 96) 0)) primes64.

Definition H256 : list Z :=
  Eval vm_compute in map (fun p => w32 (Z.sqrt (p * 2 ^ 64))) (take 8 primes64).

Definition be_uint (l : list Z) : Z := fold_left (fun acc b => acc * 256 + b) l 0.

Definition be_bytes (width : nat) (x : Z) : list Z :=
  map (fun i => (x / 256 ^ Z.of_nat (width - 1 - i)) mod 256) (seq 0 width).

Definition sha_pad (msg : list Z) : list Z :=
  let n := Z.of_nat (length msg) in
  msg ++ [128] ++ replicate (Z.to_nat ((55 - n) mod 64)) 0 ++ be_bytes 8 (8 * n).

Fixpoint schedule (n : nat) (w : list Z) : list Z :=
  match n with
  | O => w
  | S n' =>
      let t := length w in
      let at' := fun k => nth (t - k) w 0 in
      let s0 := Z.lxor (rotr 7 (at' 15%nat))
                  (Z.lxor (rotr 18 (at' 15%nat)) (Z.shiftr (at' 15%nat) 3)) in
      let s1 := Z.lxor (rotr 17 (at' 2%nat))
                  (Z.lxor (rotr 19 (at' 2%nat)) (Z.shiftr (at' 2%nat) 10)) in
      schedule n' (w ++ [w32 (s1 + at' 7%nat + s0 + at' 16%nat)])
  end.

Definition state : Type := Z * Z * Z * Z * Z * Z * Z * Z.

Definition sha_round (st : state) (kw : Z * Z) : state :=
  let '(a, b, c, d, e, f, g, h) := st in
  let S1 := Z.lxor (rotr 6 e) (Z.lxor (rotr 11 e) (rotr 25 e)) in
  let ch := Z.lxor (Z.land e f) (Z.land (Z.lxor e (2 ^ 32 - 1)) g) in
  let t1 := h + S1 + ch + fst kw + snd kw in
  let S0 := Z.lxor (rotr 2 a) (Z.lxor (rotr 13 a) (rotr 22 a)) in
  let maj := Z.lxor (Z.land a b) (Z.lxor (Z.land a c) (Z.land b c)) in
  (w32 (t1 + S0 + maj), a, b, c, w32 (d + t1), e, f, g).

Definition compress (st : state) (block : list Z) : state :=
  let w := schedule 48 (map be_uint (words 16 block)) in
  let '(a, b, c, d, e, f, g, h) := fold_left sha_round (zip K256 w) st in
  let '(a0, b0, c0, d0, e0, f0, g0, h0) := st in
  (w32 (a0 + a), w32 (b0 + b), w32 (c0 + c), w32 (d0 + d),
   w32 (e0 + e), w32 (f0 + f), w32 (g0 + g), w32 (h0 + h)).

Fixpoint sha_blocks (n : nat) (st : state) (data : list Z) : state :=
  match n with
  | O => st
  | S n' => sha_blocks n' (compress st (take 64 data)) (drop 64 data)
  end.

Definition initial_state : state :=
  let h := fun i => nth i H256 0 in
  (h 0%nat, h 1%nat, h 2%nat, h 3%nat, h 4%nat, h 5%nat, h 6%nat, h 7%nat).

Definition sha256 (data : list byte) : list byte :=
  let padded := sha_pad (bytesZ data) in
  let '(a, b, c, d, e, f, g, h) :=
    sha_blocks (length padded / 64) initial_state padded in
  Zbytes (be_bytes 4 a ++ be_bytes 4 b ++ be_bytes 4 c ++ be_bytes 4 d
          ++ be_bytes 4 e ++ be_bytes 4 f ++ be_bytes 4 g ++ be_bytes 4 h).

(** *** LZMA2, stored chunks only

    A raw LZMA2 stream is a sequence of chunks closed by the control byte
    [0x00].  Control bytes [0x01] and [0x02] open a stored chunk: two bytes
    hold its size minus one, big-endian, and the data follow verbatim.  The
    compressed chunks (control bytes from [0x80]) are not decoded here: such
    a stream is reported as a failure. *)
Fixpoint stored_chunks (fuel : nat) (s : list byte) : option (list byte) :=
  match fuel with
  | O => None
  | S fuel' =>
      match s with
      | ctrl :: rest =>
          if byte_to_Z ctrl =? 0 then Some []
          else if (byte_to_Z ctrl =? 1) || (byte_to_Z ctrl =? 2) then
            match rest with
            | hi :: lo :: body =>
                let size := Z.to_nat (byte_to_Z hi * 256 + byte_to_Z lo + 1) in
                if (length body <? size)%nat then None
                else
                  match stored_chunks fuel' (drop size body) with
                  | Some out => Some (take size body ++ out)
                  | None => None
                  end
            | _ => None
            end
          else None
      | [] => None
      end
  end.

Definition lzma2_stored (s : list byte) : option (list byte) :=
  stored_chunks (S (length s)) s.

#[export] Instance aes : BlockCipher :=
  {| block_decrypt := aes_block_decrypt;
     block_decrypt_length := fun _ _ => eq_refl |}.

#[export] Instance stored : Lzma2Decoder := {| lzma2_decode := lzma2_stored |}.

#[export] Instance sha : Sha256 :=
  {| Sum256 := sha256;
     Sum256_length := fun data =>
       match sha_blocks (length (sha_pad (bytesZ data)) / 64) initial_state
                        (sha_pad (bytesZ data)) as st
         return length (let '(a, b, c, d, e, f, g, h) := st in
                        Zbytes (be_bytes 4 a ++ be_bytes 4 b ++ be_bytes 4 c
                                ++ be_bytes 4 d ++ be_bytes 4 e ++ be_bytes 4 f
                                ++ be_bytes 4 g ++ be_bytes 4 h)) = 32%nat
       with
       | (a, b, c, d, e, f, g, h) => eq_refl
       end |}.

End reference.

(** ** A small archive, built with the reference instances *)

Module fixture.
Import structures parser extractor reference.

Definition le_bytes (width : nat) (x : Z) : list byte :=
  map (fun i => byte_of_Z (x / 256 ^ Z.of_nat i)) (seq 0 width).

Definition unhex (s : string) : list byte :=
  match hex.DecodeString s with
  | Ok l => l
  | _ => []
  end.

(** PKCS#7 padding to the next multiple of 16. *)
Definition pkcs7 (data : list byte) : list byte :=
  let p := 16 - Z.of_nat (length data) mod 16 in
  data ++ replicate (Z.to_nat p) (byte_of_Z p).

(** A stored-chunk LZMA2 stream holding [chunk] (at most 65536 bytes). *)
Definition lzma2_store (chunk : list byte) : list byte :=
  [x01] ++ rev (le_bytes 2 (Z.of_nat (length chunk) - 1)) ++ chunk ++ [x00].

Definition decompress_header (chunk stream : list byte) : list byte :=
  magic_NTENCODE ++ le_bytes 4 1 ++ le_bytes 4 1 ++ le_bytes 8 0
  ++ le_bytes 8 (Z.of_nat (length chunk)) ++ le_bytes 8 (Z.of_nat (length stream))
  ++ zeros 72.

Definition encode_header (chunk ciphertext iv : list byte) : list byte :=
  magic_NTENCODE ++ le_bytes 4 1 ++ le_bytes 4 1 ++ le_bytes 4 1 ++ le_bytes 4 0
  ++ le_bytes 8 (Z.of_nat (length chunk))
  ++ le_bytes 8 (Z.of_nat (length ciphertext))
  ++ zeros 32 ++ iv ++ zeros 16 ++ le_bytes 4 32 ++ le_bytes 4 16.

(** One block of region 6: [chunk] stored, headed, padded, encrypted. *)
Definition block (key iv chunk : list byte) : list byte :=
  let stream := lzma2_store chunk in
  let plain := pkcs7 (decompress_header chunk stream ++ stream) in
  let ciphertext := cbc_encrypt key iv plain in
  encode_header chunk ciphertext iv ++ ciphertext.

(** An 80-byte key table: not a multiple of 32, so index 2 wraps. *)
Definition keymap : list byte := map (fun i => byte_of_Z (Z.of_nat i)) (seq 0 80).

Definition keymap_slice : go_slice := GoSlice keymap (zeros 432).

Definition key_at (index : Z) : list byte :=
  match crypto.ExtractKeyFromKeyMap keymap_slice index with
  | Ok k => k
  | _ => []
  end.

Definition iv_of (n : Z) : list byte := replicate 16 (byte_of_Z n).

Definition chunk0 : list byte := [x61; x62; x6c; x30].
Definition chunk1 : list byte := [x61; x62; x6c; x31; x21].
Definition chunk2 : list byte := [x61; x62; x6c; x32].

Definition region6 : list byte :=
  Eval vm_compute in
    block (key_at 1) (iv_of 17) chunk0
    ++ block (key_at 2) (iv_of 34) chunk1
    ++ block (key_at 3) (iv_of 51) chunk2.

Definition image : list byte := chunk0 ++ chunk1 ++ chunk2.

Definition image_hash : string :=
  Eval vm_compute in hex.EncodeToString (sha256 image).

Definition entry : FileInfo :=
  {| Name := "images/abl.img";
     FileSha256Hash := image_hash;
     PartitionSha256Hash := "";
     KeyIndex := 1;
     IsSparse := "false";
     IsEncrypted := "true";
     IsCompressed := "true";
     PartitionLength := 13;
     OriginalLength := 13;
     Offset := 0;
     Length := 720 |}.

Definition task : FileTask := makeTask region6 keymap_slice "out" entry.

(** The region that carries the key table, as Stage 1 finds it. *)
Definition region4 : list byte :=
  Eval vm_compute in
    cbc_encrypt
      (unhex (GetKeyForRegion AESDict_V1_3_0 4))
      (unhex (GetIVForRegion AESDict_V1_3_0 4))
      (pkcs7 (le_bytes 8 4 ++ le_bytes 8 128 ++ le_bytes 8 6 ++ le_bytes 8 720
              ++ le_bytes 8 80 ++ keymap)).

Definition archive : list byte :=
  magic_NTPI ++ le_bytes 4 0 ++ le_bytes 8 1 ++ le_bytes 8 3 ++ le_bytes 8 0
  ++ le_bytes 8 4 ++ le_bytes 8 128 ++ region4 ++ region6.

Definition empty_world : world :=
  {| files := ∅; dirs := ∅; denied := ∅; warnings := [] |}.

Definition disk : world :=
  {| files := {[ "fw.ntpi" := archive ]}; dirs := ∅; denied := ∅; warnings := [] |}.

Definition key4 : list byte := unhex (GetKeyForRegion AESDict_V1_3_0 4).
Definition iv4 : list byte := unhex (GetIVForRegion AESDict_V1_3_0 4).


Definition with_hash (file : FileInfo) (hash : string) : FileInfo :=
  {| Name := Name file;
     FileSha256Hash := hash;
     PartitionSha256Hash := PartitionSha256Hash file;
     KeyIndex := KeyIndex file;
     IsSparse := IsSparse file;
     IsEncrypted := IsEncrypted file;
     IsCompressed := IsCompressed file;
     PartitionLength := PartitionLength file;
     OriginalLength := OriginalLength file;
     Offset := Offset file;
     Length := Length file |}.

Definition with_length (file : FileInfo) (n : Z) : FileInfo :=
  {| Name := Name file;
     FileSha256Hash := FileSha256Hash file;
     PartitionSha256Hash := PartitionSha256Hash file;
     KeyIndex := KeyIndex file;
     IsSparse := IsSparse file;
     IsEncrypted := IsEncrypted file;
     IsCompressed := IsCompressed file;
     PartitionLength := PartitionLength file;
     OriginalLength := OriginalLength file;
     Offset := Offset file;
     Length := n |}.

(** The entry with a hash that is not the image's. *)
Definition tampered_task : FileTask :=
  makeTask region6 keymap_slice "out"
    (with_hash entry "0000000000000000000000000000000000000000000000000000000000000000").

(** An entry that owns no byte of region 6. *)
Definition empty_entry : FileInfo :=
  with_hash (with_length entry 0)
    "e3b0c44298fc1c149afbf4c8996fb92427ae41e4649b934ca495991b7852b855".

Definition empty_task : FileTask := makeTask region6 keymap_slice "out" empty_entry.

(** Region 6 with its second block overwritten by zeros, and the entry that
    owns the first two blocks. *)
Definition region6_cut : list byte := take 240 region6 ++ zeros 240.

Definition cut_task : FileTask :=
  makeTask region6_cut keymap_slice "out" (with_length entry 480).

Definition zero_length_entry : FileInfo := with_partition_length entry 0.



Definition region4_header : RegionHeader := {| RegionType := 4; RegionSize := 128 |}.
Definition region6_header : RegionHeader := {| RegionType := 6; RegionSize := 720 |}.

Definition temp_world : world :=
  {| files := files disk; dirs := {[ ".temp" ]}; denied := ∅; warnings := [] |}.

Definition keymap_saved : world :=
  {| files := <[ ".temp/KeyMap.bin" := keymap ]> (files disk);
     dirs := {[ ".temp" ]}; denied := ∅; warnings := [] |}.

Definition block0_plain : list byte :=
  match crypto.DecryptNTEncodeBlock region6 0 (Some (key_at 1)) with
  | Ok (_, pt) => pt
  | _ => []
  end.

(** Block headers that declare sizes of their own choosing. *)
Definition raw_header (processed original : Z) : list byte :=
  magic_NTENCODE ++ le_bytes 4 1 ++ le_bytes 4 1 ++ le_bytes 4 1 ++ le_bytes 4 0
  ++ le_bytes 8 processed ++ le_bytes 8 original
  ++ zeros 32 ++ iv_of 17 ++ zeros 16 ++ le_bytes 4 32 ++ le_bytes 4 16.

(** A block of zero bytes: [112 + int(original_size) = 0]. *)
Definition stuck_region6 : list byte := raw_header 4 (2 ^ 64 - 112).

Definition stuck_task : FileTask :=
  makeTask stuck_region6 keymap_slice "out" (with_length entry 112).

(** A block whose size does not fit a positive [int]. *)
Definition huge_region6 : list byte := raw_header 4 (2 ^ 63).

(** A block whose ciphertext is five bytes long. *)
Definition odd_region6 : list byte := raw_header 4 5 ++ zeros 5.

Definition odd_task : FileTask :=
  makeTask odd_region6 keymap_slice "out" (with_length entry 117).

Definition with_key_index (file : FileInfo) (keyIndex : Z) : FileInfo :=
  {| Name := Name file;
     FileSha256Hash := FileSha256Hash file;
     PartitionSha256Hash := PartitionSha256Hash file;
     KeyIndex := keyIndex;
     IsSparse := IsSparse file;
     IsEncrypted := IsEncrypted file;
     IsCompressed := IsCompressed file;
     PartitionLength := PartitionLength file;
     OriginalLength := OriginalLength file;
     Offset := Offset file;
     Length := Length file |}.

Definition negative_task : FileTask :=
  makeTask region6 keymap_slice "out" (with_key_index entry (-1)).

Definition keyless_task : FileTask :=
  makeTask region6 (GoSlice [] []) "out" entry.

Definition hashless_task : FileTask :=
  makeTask region6 keymap_slice "out" (with_hash entry "").

(** The entry with every field Stage 2 has no use for changed. *)
Definition unflagged_entry : FileInfo :=
  {| Name := Name entry;
     FileSha256Hash := FileSha256Hash entry;
     PartitionSha256Hash := "00";
     KeyIndex := KeyIndex entry;
     IsSparse := "true";
     IsEncrypted := "false";
     IsCompressed := "false";
     PartitionLength := PartitionLength entry;
     OriginalLength := 0;
     Offset := Offset entry;
     Length := Length entry |}.

(** Region 6 followed by the blocks of another file, and with its first
    16 bytes (which belong to no block of the second entry) overwritten. *)
Definition second_entry : FileInfo :=
  {| Name := "images/tail.img";
     FileSha256Hash := "";
     PartitionSha256Hash := "";
     KeyIndex := 3;
     IsSparse := "false";
     IsEncrypted := "true";
     IsCompressed := "true";
     PartitionLength := 4;
     OriginalLength := 4;
     Offset := 480;
     Length := 240 |}.

Definition second_task : FileTask := makeTask region6 keymap_slice "out" second_entry.

Definition region6_patched : list byte := zeros 16 ++ drop 16 region6 ++ zeros 7.

(** Region 6 with the key field of its first block header (bytes 40..71)
    overwritten. *)
Definition region6_rekeyed : list byte :=
  take 40 region6 ++ replicate 32 xff ++ drop 72 region6.

(** An archive made of one region of type 1 that carries four bytes. *)
Definition metadata : list byte := [x3c; x61; x2f; x3e].

Definition region1 : list byte :=
  Eval vm_compute in
    cbc_encrypt
      (unhex (GetKeyForRegion AESDict_V1_3_0 1))
      (unhex (GetIVForRegion AESDict_V1_3_0 1))
      (pkcs7 (le_bytes 8 1 ++ le_bytes 8 48 ++ le_bytes 8 0 ++ le_bytes 8 0
              ++ le_bytes 8 4 ++ metadata)).

Definition metadata_archive : list byte :=
  magic_NTPI ++ le_bytes 4 0 ++ le_bytes 8 1 ++ le_bytes 8 3 ++ le_bytes 8 0
  ++ le_bytes 8 1 ++ le_bytes 8 48 ++ region1.

Definition region1_header : RegionHeader := {| RegionType := 1; RegionSize := 48 |}.

Definition metadata_saved : world :=
  {| files := <[ ".temp/Metadata.xml" := metadata ]> (files disk);
     dirs := {[ ".temp" ]}; denied := ∅; warnings := [] |}.

(** The example archive cut off inside region 6. *)
Definition truncated_archive : list byte := take 500 archive.

Definition truncated_disk : world :=
  {| files := {[ "fw.ntpi" := truncated_archive ]}; dirs := ∅; denied := ∅;
     warnings := [] |}.

(** A file header whose first region declares a size of [2^63] bytes. *)
Definition crash_archive : list byte :=
  magic_NTPI ++ le_bytes 4 0 ++ le_bytes 8 1 ++ le_bytes 8 3 ++ le_bytes 8 0
  ++ le_bytes 8 4 ++ le_bytes 8 (2 ^ 63).

Definition crash_disk : world :=
  {| files := {[ "fw.ntpi" := crash_archive ]}; dirs := ∅; denied := ∅;
     warnings := [] |}.

End fixture.

(** * Facts about the model *)

(** ** Machine arithmetic *)

Lemma int_wrap_range z : - 2 ^ 63 <= int_wrap z < 2 ^ 63.
Proof.
  unfold int_wrap.
  pose proof (Z.mod_pos_bound (z + 2 ^ 63) (2 ^ 64)). lia.
Qed.

Lemma int_wrap_small z : - 2 ^ 63 <= z < 2 ^ 63 -> int_wrap z = z.
Proof. unfold int_wrap. intros. rewrite Z.mod_small; lia. Qed.

Lemma int_wrap_cases z :
  0 <= z < 2 ^ 64 -> int_wrap z = z \/ (2 ^ 63 <= z /\ int_wrap z = z - 2 ^ 64).
Proof.
  intros Hz. unfold int_wrap.
  destruct (Z_lt_ge_dec z (2 ^ 63)).
  - left. rewrite Z.mod_small; lia.
  - right. split; [lia|].
    replace (z + 2 ^ 63) with ((z - 2 ^ 63) + 1 * 2 ^ 64) by lia.
    rewrite Z_mod_plus_full, Z.mod_small; lia.
Qed.

Lemma int_add_cases a b :
  - 2 ^ 63 <= a < 2 ^ 63 -> - 2 ^ 63 <= b < 2 ^ 63 ->
  (- 2 ^ 63 <= a + b < 2 ^ 63 /\ int_add a b = a + b)
  \/ (2 ^ 63 <= a + b /\ int_add a b = a + b - 2 ^ 64)
  \/ (a + b < - 2 ^ 63 /\ int_add a b = a + b + 2 ^ 64).
Proof.
  intros Ha Hb. unfold int_add, int_wrap.
  destruct (Z_lt_ge_dec (a + b) (- 2 ^ 63)).
  - right; right. split; [lia|].
    replace (a + b + 2 ^ 63) with ((a + b + 2 ^ 63 + 2 ^ 64) + (-1) * 2 ^ 64) by lia.
    rewrite Z_mod_plus_full, Z.mod_small; lia.
  - destruct (Z_lt_ge_dec (a + b) (2 ^ 63)).
    + left. split; [lia|]. rewrite Z.mod_small; lia.
    + right; left. split; [lia|].
      replace (a + b + 2 ^ 63) with ((a + b - 2 ^ 63) + 1 * 2 ^ 64) by lia.
      rewrite Z_mod_plus_full, Z.mod_small; lia.
Qed.

Lemma byte_to_Z_range b : 0 <= byte_to_Z b < 256.
Proof.
  unfold byte_to_Z. pose proof (Byte.to_N_bounded b). lia.
Qed.

Lemma byte_of_to_Z b : byte_of_Z (byte_to_Z b) = b.
Proof.
  unfold byte_of_Z. pose proof (byte_to_Z_range b).
  rewrite Z.mod_small by lia. unfold byte_to_Z.
  rewrite N2Z.id, Byte.of_to_N. reflexivity.
Qed.

Lemma len_nonneg s : 0 <= len s.
Proof. unfold len. lia. Qed.

Lemma le_uint_bound bs : 0 <= le_uint bs < 256 ^ len bs.
Proof.
  unfold len. induction bs as [|b bs IH]; simpl le_uint.
  - simpl. lia.
  - pose proof (byte_to_Z_range b).
    rewrite length_cons, Nat2Z.inj_succ, Z.pow_succ_r by lia. lia.
Qed.

Lemma le_field_u64 data off : 0 <= le_field data off 8 < 2 ^ 64.
Proof.
  unfold le_field, field.
  pose proof (le_uint_bound (take 8 (drop off data))) as Hb.
  assert (len (take 8 (drop off data)) <= 8) as Hl.
  { unfold len. rewrite length_take. lia. }
  assert (256 ^ len (take 8 (drop off data)) <= 256 ^ 8) as Hp.
  { apply Z.pow_le_mono_r; [lia|exact Hl]. }
  change (2 ^ 64) with (256 ^ 8). lia.
Qed.

(** ** AES-CBC unit *)

Section CryptoFacts.
Context {cipher : BlockCipher}.
Import crypto.

Lemma xor_bytes_length a b :
  length a = 16%nat -> length b = 16%nat -> length (xor_bytes a b) = 16%nat.
Proof. intros Ha Hb. unfold xor_bytes. rewrite length_zip_with. lia. Qed.

Lemma cbc_blocks_length n key prev src :
  length prev = 16%nat -> (16 * n <= length src)%nat ->
  length (cbc_blocks n key prev src) = (16 * n)%nat.
Proof.
  revert prev src. induction n as [|n IH]; intros prev src Hp Hs; simpl.
  - reflexivity.
  - rewrite length_app, xor_bytes_length by (auto using block_decrypt_length).
    rewrite IH.
    + lia.
    + rewrite length_take. lia.
    + rewrite length_drop. lia.
Qed.

Lemma rem16_length (ct : list byte) :
  Z.rem (len ct) 16 = 0 -> (16 * (length ct / 16))%nat = length ct.
Proof.
  unfold len. intros Hr.
  rewrite Z.rem_mod_nonneg in Hr by lia.
  assert (length ct mod 16 = 0)%nat as Hm.
  { apply Nat2Z.inj. rewrite Nat2Z.inj_mod. exact Hr. }
  pose proof (Nat.div_mod_eq (length ct) 16). lia.
Qed.

Lemma CryptBlocks_length key iv ct :
  len iv = 16 -> Z.rem (len ct) 16 = 0 ->
  length (CryptBlocks key iv ct) = length ct.
Proof.
  intros Hiv Hct. unfold CryptBlocks.
  rewrite cbc_blocks_length.
  - apply rem16_length, Hct.
  - unfold len in Hiv. lia.
  - rewrite rem16_length by exact Hct. lia.
Qed.

Lemma removePKCS7Padding_strip data p :
  last data = Some p ->
  1 <= byte_to_Z p <= 16 -> byte_to_Z p <= len data -> padded_with data p ->
  removePKCS7Padding data = take (Z.to_nat (len data - byte_to_Z p)) data.
Proof.
  intros Hl Hp Hlen Hall. unfold removePKCS7Padding. rewrite Hl.
  destruct (byte_to_Z p =? 0) eqn:E1; [lia|].
  destruct (byte_to_Z p >? 16) eqn:E2; [lia|].
  destruct (byte_to_Z p >? len data) eqn:E3; [lia|]. simpl.
  rewrite byte_of_to_Z.
  destruct (forallb _ _) eqn:E4; [reflexivity|].
  exfalso. apply (f_equal Is_true) in E4.
  assert (Is_true (forallb (fun x : byte => bool_decide (x = p))
            (drop (Z.to_nat (len data - byte_to_Z p)) data))) as Ht.
  { apply forallb_True. eapply Forall_impl; [exact Hall|].
    intros x ->. apply bool_decide_pack. reflexivity. }
  rewrite E4 in Ht. exact Ht.
Qed.

Lemma removePKCS7Padding_keep data p :
  last data = Some p ->
  byte_to_Z p > 16 \/ byte_to_Z p = 0 \/ byte_to_Z p > len data
    \/ ~ padded_with data p ->
  removePKCS7Padding data = data.
Proof.
  intros Hl Hc. unfold removePKCS7Padding. rewrite Hl.
  destruct (byte_to_Z p =? 0) eqn:E1; [reflexivity|].
  destruct (byte_to_Z p >? 16) eqn:E2; [reflexivity|].
  destruct (byte_to_Z p >? len data) eqn:E3; [reflexivity|]. simpl.
  rewrite byte_of_to_Z.
  destruct (forallb _ _) eqn:E4; [|reflexivity].
  exfalso. destruct Hc as [?|[?|[?|Hn]]]; try lia.
  apply Hn. unfold padded_with.
  assert (Is_true (forallb (fun x : byte => bool_decide (x = p))
            (drop (Z.to_nat (len data - byte_to_Z p)) data))) as Ht.
  { rewrite E4. exact I. }
  apply forallb_True in Ht. eapply Forall_impl; [exact Ht|].
  intros x Hx. apply bool_decide_unpack in Hx. exact Hx.
Qed.

Lemma removePKCS7Padding_nil : removePKCS7Padding [] = [].
Proof. reflexivity. Qed.

Lemma DecryptAESCBC_sized ct key iv :
  len key = 16 \/ len key = 24 \/ len key = 32 ->
  len iv = 16 -> Z.rem (len ct) 16 = 0 ->
  DecryptAESCBC ct (Some key) (Some iv)
  = Ok (removePKCS7Padding (CryptBlocks key iv ct)).
Proof.
  intros Hk Hiv Hct. unfold DecryptAESCBC.
  rewrite Hiv, Hct. simpl.
  destruct Hk as [-> | [-> | ->]]; reflexivity.
Qed.

Lemma last_len_pos (data : list byte) p : last data = Some p -> 0 < len data.
Proof. destruct data; [discriminate|]. unfold len. simpl. lia. Qed.

(** C3 -- PKCS#7 tolerance of [DecryptAESCBC]: for a ciphertext whose length
    is a multiple of 16 (and a key and IV of valid sizes) the call succeeds;
    when the last byte [p] of the raw CBC output satisfies [1 <= p <= 16] and
    the last [p] bytes all equal [p], exactly those [p] bytes are stripped;
    when [p > 16], [p = 0], or the last [p] bytes are not all [p], the raw
    output is returned unchanged.  No case is an error. *)
Theorem C3_pkcs7_tolerance (ct key iv : list byte) :
  Z.rem (len ct) 16 = 0 ->
  len key = 16 \/ len key = 24 \/ len key = 32 ->
  len iv = 16 ->
  let raw := CryptBlocks key iv ct in
  length raw = length ct
  /\ (forall p, last raw = Some p ->
        1 <= byte_to_Z p <= 16 -> padded_with raw p ->
        DecryptAESCBC ct (Some key) (Some iv)
        = Ok (take (Z.to_nat (len raw - byte_to_Z p)) raw))
  /\ (forall p, last raw = Some p ->
        byte_to_Z p > 16 \/ byte_to_Z p = 0 \/ ~ padded_with raw p ->
        DecryptAESCBC ct (Some key) (Some iv) = Ok raw)
  /\ (raw = [] -> DecryptAESCBC ct (Some key) (Some iv) = Ok raw).
Proof.
  intros Hct Hk Hiv raw.
  pose proof (CryptBlocks_length key iv ct Hiv Hct) as Hlen. fold raw in Hlen.
  rewrite (DecryptAESCBC_sized ct key iv Hk Hiv Hct). fold raw.
  split; [exact Hlen|]. split; [|split].
  - intros p Hl Hp Hall. f_equal.
    apply removePKCS7Padding_strip; try assumption.
    (* a non-empty multiple of 16 holds at least 16 bytes *)
    pose proof (last_len_pos raw p Hl) as Hpos.
    pose proof (rem16_length ct Hct) as Hm.
    unfold len in *. rewrite Hlen in *. lia.
  - intros p Hl Hc. f_equal.
    apply (removePKCS7Padding_keep raw p Hl). tauto.
  - intros ->. reflexivity.
Qed.

(** C10 -- nil key and IV: a nil key is replaced by 32 zero bytes and a nil
    IV by 16 zero bytes, so the size checks pass; for a ciphertext whose
    length is a multiple of 16, [DecryptAESCBC ct nil nil] succeeds with the
    CBC decryption under the all-zero 256-bit key and all-zero IV, followed by
    the tolerant padding strip.  An empty non-nil key is a size error. *)
Theorem C10_nil_key_iv (ct : list byte) :
  Z.rem (len ct) 16 = 0 ->
  (forall iv, DecryptAESCBC ct None iv = DecryptAESCBC ct (Some (zeros 32)) iv)
  /\ (forall key, DecryptAESCBC ct key None = DecryptAESCBC ct key (Some (zeros 16)))
  /\ DecryptAESCBC ct None None
     = Ok (removePKCS7Padding (CryptBlocks (zeros 32) (zeros 16) ct))
  /\ length (CryptBlocks (zeros 32) (zeros 16) ct) = length ct
  /\ DecryptAESCBC ct (Some []) (Some []) = Err (Msg "invalid key size").
Proof.
  intros Hct. split; [reflexivity|]. split; [reflexivity|]. split; [|split].
  - change (DecryptAESCBC ct None None)
      with (DecryptAESCBC ct (Some (zeros 32)) (Some (zeros 16))).
    apply DecryptAESCBC_sized; auto.
  - apply CryptBlocks_length; auto.
  - reflexivity.
Qed.

End CryptoFacts.

(** ** KeyMap accessor *)

Section KeyMapFacts.
Import crypto spec.

Lemma slice_expr_ok (s : list byte) lo hi :
  0 <= lo -> lo <= hi -> hi <= len s ->
  slice_expr s lo hi = Ok (take (Z.to_nat (hi - lo)) (drop (Z.to_nat lo) s)).
Proof.
  intros H0 H1 H2. unfold slice_expr.
  rewrite (proj2 (Z.leb_le _ _) H0), (proj2 (Z.leb_le _ _) H1),
    (proj2 (Z.leb_le _ _) H2). reflexivity.
Qed.

Lemma slice_expr_inv (s : list byte) lo hi r :
  slice_expr s lo hi = Ok r ->
  0 <= lo /\ lo <= hi /\ hi <= len s
  /\ r = take (Z.to_nat (hi - lo)) (drop (Z.to_nat lo) s)
  /\ len r = hi - lo.
Proof.
  unfold slice_expr. intros Hs.
  destruct (0 <=? lo) eqn:E0; [|discriminate].
  destruct (lo <=? hi) eqn:E1; [|discriminate].
  destruct (hi <=? len s) eqn:E2; [|discriminate].
  simpl in Hs. injection Hs as <-.
  apply Z.leb_le in E0, E1, E2. unfold len in *.
  repeat split; try lia.
  rewrite length_take, length_drop. lia.
Qed.

Lemma len_app (a b : list byte) : len (a ++ b) = len a + len b.
Proof. unfold len. rewrite length_app. lia. Qed.

Lemma copy_at_0_short (part : list byte) n :
  (length part <= n)%nat ->
  copy_at (zeros n) 0 part = part ++ zeros (n - length part).
Proof.
  intros Hn. unfold copy_at, zeros. rewrite length_replicate. simpl.
  replace (Nat.min (n - 0) (length part)) with (length part) by lia.
  rewrite firstn_all. f_equal.
  rewrite drop_replicate. reflexivity.
Qed.

Lemma copy_at_tail (a b : list byte) n :
  (length a + length b = n)%nat ->
  copy_at (a ++ zeros (n - length a)) (length a) b = a ++ b.
Proof.
  intros Hn. unfold copy_at, zeros.
  rewrite length_app, length_replicate.
  replace (Nat.min (length a + (n - length a) - length a) (length b))
    with (length b) by lia.
  rewrite take_app_length, firstn_all. f_equal.
  rewrite drop_ge; [apply app_nil_r|].
  rewrite length_app, length_replicate. lia.
Qed.

Lemma key_offset_range table index :
  0 < len table -> 0 <= key_offset table index < len table.
Proof. intros. unfold key_offset. apply Z.mod_pos_bound. lia. Qed.

Lemma key_offset_le table index :
  0 < len table -> 0 <= index -> key_offset table index <= index * 32.
Proof. intros. unfold key_offset. apply Z.mod_le; lia. Qed.

(** The offset the code computes is the offset of the wrap rule. *)
Lemma code_offset table index :
  0 < len table -> 0 <= index -> index * 32 + 32 < 2 ^ 63 ->
  (let keyOffset := int_mul index 32 in
   if keyOffset >=? len table then Z.rem keyOffset (len table) else keyOffset)
  = key_offset table index.
Proof.
  intros Hn Hi Hb. cbv zeta. unfold int_mul, key_offset.
  rewrite int_wrap_small by lia.
  destruct (index * 32 >=? len table) eqn:E.
  - apply Z.rem_mod_nonneg; lia.
  - symmetry. apply Z.mod_small. lia.
Qed.

Lemma ExtractKey_empty spare index :
  ExtractKeyFromKeyMap (GoSlice [] spare) index = Err (Msg "keymap data is empty").
Proof. reflexivity. Qed.

Lemma ExtractKey_direct km index :
  let table := elems km in
  let offset := key_offset table index in
  0 <= index -> index * 32 + 32 < 2 ^ 63 ->
  offset + 32 <= len table ->
  ExtractKeyFromKeyMap km index = Ok (take 32 (drop (Z.to_nat offset) table)).
Proof.
  intros table offset Hi Hb Hfit.
  assert (0 < len table) as Hn.
  { destruct (Z.eq_dec (len table) 0) as [E|E]; [|pose proof (len_nonneg table); lia].
    unfold offset, key_offset in Hfit. rewrite E, Z.mod_0_r in Hfit. lia. }
  pose proof (key_offset_range table index Hn) as Ho. fold offset in Ho.
  pose proof (key_offset_le table index Hn Hi) as Hole. fold offset in Hole.
  unfold ExtractKeyFromKeyMap. fold table.
  destruct (len table =? 0) eqn:E0; [lia|].
  pose proof (code_offset table index Hn Hi Hb) as Hc. cbv zeta in Hc.
  rewrite Hc. fold offset.
  unfold int_add. rewrite int_wrap_small by lia.
  destruct (offset + 32 >? len table) eqn:E1; [lia|].
  unfold reslice. fold table.
  rewrite slice_expr_ok by (rewrite ?len_app; pose proof (len_nonneg (spare km)); lia).
  simpl bind.
  replace (Z.to_nat (offset + 32 - offset)) with 32%nat by lia.
  assert (take 32 (drop (Z.to_nat offset) (table ++ spare km))
          = take 32 (drop (Z.to_nat offset) table)) as ->.
  { rewrite drop_app_le by (unfold len in *; lia).
    rewrite take_app_le; [reflexivity|].
    rewrite length_drop. unfold len in *. lia. }
  f_equal. rewrite copy_at_0_short.
  - rewrite length_take, length_drop.
    replace (32 - _)%nat with 0%nat by (unfold len in *; lia).
    apply app_nil_r.
  - rewrite length_take. lia.
Qed.

Lemma ExtractKey_wrapped km index :
  let table := elems km in
  let offset := key_offset table index in
  0 <= index -> index * 32 + 32 < 2 ^ 63 ->
  len table < offset + 32 -> offset + 32 <= 2 * len table ->
  ExtractKeyFromKeyMap km index
  = Ok (drop (Z.to_nat offset) table
        ++ take (Z.to_nat (32 - (len table - offset))) table).
Proof.
  intros table offset Hi Hb Hwrap Hfit.
  assert (0 < len table) as Hn.
  { pose proof (len_nonneg table).
    destruct (Z.eq_dec (len table) 0) as [E|E]; [|lia].
    unfold offset, key_offset in Hfit. rewrite E, Z.mod_0_r in Hfit. lia. }
  pose proof (key_offset_range table index Hn) as Ho. fold offset in Ho.
  pose proof (key_offset_le table index Hn Hi) as Hole. fold offset in Hole.
  unfold ExtractKeyFromKeyMap. fold table.
  destruct (len table =? 0) eqn:E0; [lia|].
  pose proof (code_offset table index Hn Hi Hb) as Hc. cbv zeta in Hc.
  rewrite Hc. fold offset.
  unfold int_add. rewrite int_wrap_small by lia.
  destruct (offset + 32 >? len table) eqn:E1; [|lia].
  unfold reslice. fold table.
  pose proof (len_nonneg (spare km)) as Hsp.
  rewrite slice_expr_ok by (rewrite ?len_app; lia).
  simpl bind.
  assert (take (Z.to_nat (len table - offset))
            (drop (Z.to_nat offset) (table ++ spare km))
          = drop (Z.to_nat offset) table) as ->.
  { rewrite drop_app_le by (unfold len in *; lia).
    rewrite take_app_le by (rewrite length_drop; unfold len in *; lia).
    apply take_ge. rewrite length_drop. unfold len in *. lia. }
  set (firstPart := drop (Z.to_nat offset) table).
  assert (len firstPart = len table - offset) as Hfp.
  { unfold firstPart, len. rewrite length_drop. unfold len in *. lia. }
  unfold int_sub. rewrite int_wrap_small by lia. rewrite Hfp.
  rewrite slice_expr_ok by (rewrite ?len_app; lia).
  simpl bind. rewrite Z.sub_0_r. change (Z.to_nat 0) with 0%nat.
  rewrite drop_0.
  set (secondPart := take (Z.to_nat (32 - (len table - offset))) table).
  assert (take (Z.to_nat (32 - (len table - offset))) (table ++ spare km)
          = secondPart) as ->.
  { apply take_app_le. unfold len in *. lia. }
  assert (length firstPart + length secondPart = 32)%nat as Hsum.
  { unfold secondPart. rewrite length_take. unfold len in *. lia. }
  rewrite copy_at_0_short by lia.
  rewrite slice_expr_ok.
  - simpl bind. f_equal. apply copy_at_tail. exact Hsum.
  - lia.
  - unfold len. rewrite length_app. unfold zeros. rewrite length_replicate.
    unfold len in Hfp. lia.
  - lia.
Qed.

Lemma extract_key_direct_eq table index :
  0 < len table -> key_offset table index + 32 <= len table ->
  extract_key table index
  = take 32 (drop (Z.to_nat (key_offset table index)) table).
Proof.
  intros Hn Hfit. pose proof (key_offset_range table index Hn).
  unfold extract_key.
  rewrite drop_app_le by (unfold len in *; lia).
  apply take_app_le. rewrite length_drop. unfold len in *. lia.
Qed.

Lemma extract_key_wrapped_eq table index :
  0 < len table -> len table < key_offset table index + 32 ->
  key_offset table index + 32 <= 2 * len table ->
  extract_key table index
  = drop (Z.to_nat (key_offset table index)) table
    ++ take (Z.to_nat (32 - (len table - key_offset table index))) table.
Proof.
  intros Hn Hwrap Hfit. pose proof (key_offset_range table index Hn).
  unfold extract_key.
  rewrite drop_app_le by (unfold len in *; lia).
  rewrite take_app_ge by (rewrite length_drop; unfold len in *; lia).
  f_equal. rewrite length_drop. f_equal. unfold len in *. lia.
Qed.

(** C2 (amended) -- KeyMap wrap rule: for every table and every index
    [>= 0] whose byte offset does not overflow [int], when the table repeated
    twice holds 32 bytes from [offset = (index * 32) mod len(table)] (always
    so for a table of at least 32 bytes), the accessor returns the 32-byte
    key [(table ++ table)[offset .. offset + 32]]: the direct slice when
    [offset + 32 <= len(table)], and otherwise [table[offset..]] followed by
    [table[.. 32 - (len(table) - offset)]].  An empty table is an error. *)
Theorem C2_keymap_wrap (km : go_slice) (index : Z) :
  let table := elems km in
  let offset := key_offset table index in
  0 <= index -> index * 32 + 32 < 2 ^ 63 ->
  offset + 32 <= 2 * len table ->
  ExtractKeyFromKeyMap km index = Ok (extract_key table index)
  /\ length (extract_key table index) = 32%nat
  /\ (offset + 32 <= len table ->
      extract_key table index = take 32 (drop (Z.to_nat offset) table))
  /\ (len table < offset + 32 ->
      extract_key table index
      = drop (Z.to_nat offset) table
        ++ take (Z.to_nat (32 - (len table - offset))) table)
  /\ (forall spare i,
        ExtractKeyFromKeyMap (GoSlice [] spare) i = Err (Msg "keymap data is empty")).
Proof.
  intros table offset Hi Hb Hfit.
  assert (0 < len table) as Hn.
  { pose proof (len_nonneg table).
    destruct (Z.eq_dec (len table) 0) as [E|E]; [|lia].
    unfold offset, key_offset in Hfit. rewrite E, Z.mod_0_r in Hfit. lia. }
  pose proof (key_offset_range table index Hn) as Ho. fold offset in Ho.
  assert (length (extract_key table index) = 32%nat) as Hlen.
  { unfold extract_key. fold offset.
    rewrite length_take, length_drop, length_app. unfold len in *. lia. }
  split; [|split; [exact Hlen|split; [|split]]].
  - destruct (Z_le_gt_dec (offset + 32) (len table)) as [Hd|Hw].
    + rewrite extract_key_direct_eq by assumption.
      apply ExtractKey_direct; assumption.
    + rewrite extract_key_wrapped_eq by (fold offset; lia).
      apply ExtractKey_wrapped; fold table; fold offset; try assumption; lia.
  - intros Hd. apply extract_key_direct_eq; assumption.
  - intros Hw. apply extract_key_wrapped_eq; fold offset; assumption.
  - intros. apply ExtractKey_empty.
Qed.

End KeyMapFacts.

(** ** Block decrypter and the block loops *)

Ltac zbool :=
  repeat match goal with
  | H : (_ <? _) = true |- _ => apply Z.ltb_lt in H
  | H : (_ <? _) = false |- _ => apply Z.ltb_ge in H
  | H : (_ <=? _) = true |- _ => apply Z.leb_le in H
  | H : (_ <=? _) = false |- _ => apply Z.leb_gt in H
  | H : (_ >? _) = _ |- _ => rewrite Z.gtb_ltb in H
  | H : (_ >=? _) = _ |- _ => rewrite Z.geb_leb in H
  | H : (_ =? _) = true |- _ => apply Z.eqb_eq in H
  | H : (_ =? _) = false |- _ => apply Z.eqb_neq in H
  end.

Lemma bind_ok_inv {A B} (r : result A) (k : A -> result B) b :
  bind r k = Ok b -> exists a, r = Ok a /\ k a = Ok b.
Proof. destruct r; simpl; try discriminate. eauto. Qed.

Lemma wrapf_ok_inv {A} text (r : result A) a :
  wrapf text r = Ok a -> r = Ok a.
Proof. destruct r; simpl; congruence. Qed.

Lemma wrapf_ok {A} text (a : A) : wrapf text (Ok a) = Ok a.
Proof. reflexivity. Qed.

Lemma wrapf_not_fuel {A} text (r : result A) :
  r <> OutOfFuel -> wrapf text r <> OutOfFuel.
Proof. destruct r; simpl; congruence. Qed.

Lemma terminates_ok {A} (a : A) : terminates (Ok a).
Proof. discriminate. Qed.

Lemma terminates_err {A} e : terminates (@Err A e).
Proof. discriminate. Qed.

Lemma terminates_panic {A} : terminates (@Panic A).
Proof. discriminate. Qed.

Lemma terminates_wrapf {A} text (r : result A) :
  terminates r -> terminates (wrapf text r).
Proof. destruct r; simpl; unfold terminates; congruence. Qed.

Lemma terminates_bind {A B} (r : result A) (k : A -> result B) :
  terminates r -> (forall a, terminates (k a)) -> terminates (bind r k).
Proof.
  unfold terminates. destruct r; simpl; intros Hr Hk; solve [apply Hk | congruence].
Qed.

Ltac no_fuel :=
  repeat first
    [ progress intros
    | apply terminates_ok
    | apply terminates_err
    | apply terminates_panic
    | apply terminates_wrapf
    | apply terminates_bind
    | match goal with
      | |- terminates (if ?b then _ else _) => destruct b
      | |- terminates (match ?x with _ => _ end) => destruct x
      end
    | progress cbv zeta ].

Section BlockFacts.
Context {cipher : BlockCipher} {decoder : Lzma2Decoder} {hasher : Sha256}.
Import structures crypto extractor.

Lemma ParseNTEncodeHeader_ok_len data h :
  ParseNTEncodeHeader data = Ok h -> 112 <= len data.
Proof.
  unfold ParseNTEncodeHeader.
  destruct (len data <? 112) eqn:E; [discriminate|]. lia.
Qed.

Lemma ParseNTEncodeHeader_size data h :
  ParseNTEncodeHeader data = Ok h -> 0 <= OriginalSize h < 2 ^ 64.
Proof.
  unfold ParseNTEncodeHeader.
  destruct (len data <? 112); [discriminate|].
  destruct (negb _); [discriminate|].
  intros [= <-]. simpl. apply le_field_u64.
Qed.

(** What a successful call of [DecryptNTEncodeBlock] tells: the header at
    [offset] parsed, nothing wrapped, and the next offset is past the header
    and the ciphertext, inside the buffer. *)
Lemma DecryptNTEncodeBlock_ok_inv region6Data offset key next pt :
  DecryptNTEncodeBlock region6Data offset key = Ok (next, pt) ->
  exists hdr header,
    slice_expr region6Data offset (offset + 112) = Ok hdr
    /\ ParseNTEncodeHeader hdr = Ok header
    /\ int_add offset 112 = offset + 112
    /\ int_wrap (OriginalSize header) = OriginalSize header
    /\ next = offset + 112 + OriginalSize header
    /\ 0 <= offset /\ offset + 112 <= next /\ next <= len region6Data
    /\ next < 2 ^ 63.
Proof.
  unfold DecryptNTEncodeBlock. intros Hd.
  destruct (offset >=? len region6Data) eqn:E0; [discriminate|].
  destruct (int_add offset 112 >? len region6Data) eqn:E1; [discriminate|].
  apply bind_ok_inv in Hd as (hdr & Hs & Hd).
  apply bind_ok_inv in Hd as (header & Hp & Hd).
  apply wrapf_ok_inv in Hp.
  destruct (int_add (int_add offset 112) (int_wrap (OriginalSize header))
              >? len region6Data) eqn:E2; [discriminate|].
  apply bind_ok_inv in Hd as (enc & Hs2 & Hd).
  apply bind_ok_inv in Hd as (dec & _ & Hd).
  injection Hd as <- <-. zbool.
  apply slice_expr_inv in Hs as (Ho & Hlo & Hhi & -> & Hl1).
  apply slice_expr_inv in Hs2 as (_ & Hlo2 & Hhi2 & _ & _).
  pose proof (ParseNTEncodeHeader_ok_len _ _ Hp) as Hl.
  pose proof (ParseNTEncodeHeader_size _ _ Hp) as Hsz.
  rewrite Hl1 in Hl. clear Hl1.
  (* the header slice holds 112 bytes, so [offset + 112] did not wrap *)
  assert (offset < 2 ^ 63) as Hob.
  { pose proof (int_wrap_range (offset + 112)) as Hr0. unfold int_add in *.
    clear - Hlo Hr0. lia. }
  assert (int_add offset 112 = offset + 112) as Ha.
  { destruct (int_add_cases offset 112) as [?|[?|?]]; lia. }
  assert (offset + 112 < 2 ^ 63) as Hob2.
  { pose proof (int_wrap_range (offset + 112)) as Hr0.
    unfold int_add in Ha. rewrite Ha in Hr0. lia. }
  rewrite Ha in *.
  set (enc_size := int_wrap (OriginalSize header)) in *.
  pose proof (int_wrap_range (OriginalSize header)) as Hr. fold enc_size in Hr.
  pose proof (int_wrap_range (offset + 112 + enc_size)) as Hr2.
  change (int_wrap (offset + 112 + enc_size))
    with (int_add (offset + 112) enc_size) in Hr2.
  (* the ciphertext slice is well-formed, so the size is not negative and
     the sum did not wrap *)
  assert (int_add (offset + 112) enc_size = offset + 112 + enc_size) as Hb.
  { destruct (int_add_cases (offset + 112) enc_size) as [?|[?|?]]; lia. }
  rewrite Hb in *.
  assert (enc_size = OriginalSize header) as He.
  { destruct (int_wrap_cases (OriginalSize header) Hsz) as [?|[? ?]];
      unfold enc_size in *; lia. }
  exists (take (Z.to_nat (offset + 112 - offset)) (drop (Z.to_nat offset) region6Data)), header.
  rewrite slice_expr_ok by lia.
  repeat split; try assumption; try lia.
Qed.

Lemma process_block_ok_inv task where_ keyIndex cur next chunk :
  process_block task where_ keyIndex cur = Ok (next, chunk) ->
  0 <= cur /\ cur + 112 <= next /\ next <= len (Region6Data task) /\ next < 2 ^ 63.
Proof.
  unfold process_block. intros Hp.
  apply bind_ok_inv in Hp as (key & _ & Hp).
  apply bind_ok_inv in Hp as ([nx pt] & Hd & Hp).
  apply bind_ok_inv in Hp as (dec & _ & Hp).
  injection Hp as <- <-. apply wrapf_ok_inv in Hd.
  apply DecryptNTEncodeBlock_ok_inv in Hd as (? & ? & ? & ? & ? & ? & ? & ? & ? & ? & ?).
  simpl. lia.
Qed.

(** The wording of the errors does not change a successful step. *)
Lemma process_block_where task w1 w2 keyIndex cur r :
  process_block task w1 keyIndex cur = Ok r ->
  process_block task w2 keyIndex cur = Ok r.
Proof.
  unfold process_block. intros Hp.
  apply bind_ok_inv in Hp as (key & Hk & Hp). rewrite Hk. simpl.
  apply bind_ok_inv in Hp as (blk & Hd & Hp).
  apply wrapf_ok_inv in Hd. rewrite Hd. simpl.
  apply bind_ok_inv in Hp as (dec & Hz & Hp).
  apply wrapf_ok_inv in Hz. rewrite Hz. simpl. exact Hp.
Qed.

Lemma affordable_start task cur : affordable task (loop_fuel task) cur.
Proof. unfold affordable, loop_fuel, len. split; lia. Qed.

Lemma affordable_step task where_ fuel keyIndex cur next chunk :
  affordable task (S fuel) cur ->
  process_block task where_ keyIndex cur = Ok (next, chunk) ->
  affordable task fuel next.
Proof.
  intros [_ Ha] Hp. apply process_block_ok_inv in Hp.
  unfold affordable. lia.
Qed.

(** *** No library call and no straight-line function runs out of fuel *)

Lemma slice_expr_terminates s lo hi : terminates (slice_expr s lo hi).
Proof. unfold slice_expr. no_fuel. Qed.

Lemma ParseNTEncodeHeader_terminates d : terminates (ParseNTEncodeHeader d).
Proof. unfold ParseNTEncodeHeader. no_fuel. Qed.

Lemma ParseNTDecompressHeader_terminates d : terminates (ParseNTDecompressHeader d).
Proof. unfold ParseNTDecompressHeader. no_fuel. Qed.

Lemma DecryptAESCBC_terminates ct key iv : terminates (DecryptAESCBC ct key iv).
Proof. unfold DecryptAESCBC. no_fuel. Qed.

Lemma ExtractKeyFromKeyMap_terminates km i : terminates (ExtractKeyFromKeyMap km i).
Proof.
  unfold ExtractKeyFromKeyMap, reslice.
  no_fuel; apply slice_expr_terminates.
Qed.

Lemma DecryptNTEncodeBlock_terminates r6 off key :
  terminates (DecryptNTEncodeBlock r6 off key).
Proof.
  unfold DecryptNTEncodeBlock.
  no_fuel; auto using slice_expr_terminates, ParseNTEncodeHeader_terminates,
    DecryptAESCBC_terminates.
Qed.

Lemma decompressLZMA2_terminates d : terminates (decompressLZMA2 d).
Proof.
  unfold decompressLZMA2.
  no_fuel; auto using ParseNTDecompressHeader_terminates.
Qed.

Lemma process_block_terminates task where_ keyIndex cur :
  terminates (process_block task where_ keyIndex cur).
Proof.
  unfold process_block.
  no_fuel; auto using ExtractKeyFromKeyMap_terminates,
    DecryptNTEncodeBlock_terminates, decompressLZMA2_terminates.
Qed.

Lemma sequential_loop_fuel task endOffset fuel cur idx acc :
  affordable task fuel cur ->
  terminates (sequential_loop fuel task endOffset cur idx acc).
Proof.
  revert cur idx acc. induction fuel as [|fuel IH]; intros cur idx acc Ha.
  - destruct Ha; lia.
  - simpl. destruct (cur <? endOffset); [|discriminate].
    pose proof (process_block_terminates task " at block"
                  (int_add (parser.KeyIndex (FileInfo_ task)) idx) cur) as Ht.
    destruct (process_block task " at block" _ cur) as [[next chunk]| | |] eqn:Hp;
      simpl; try discriminate.
    + apply IH. eapply affordable_step; eassumption.
    + exfalso. apply Ht. reflexivity.
Qed.

Lemma segment_loop_fuel task segment fuel cur count acc :
  affordable task fuel cur ->
  terminates (segment_loop fuel task segment cur count acc).
Proof.
  revert cur count acc. induction fuel as [|fuel IH]; intros cur count acc Ha.
  - destruct Ha; lia.
  - simpl. destruct (_ && _); [|discriminate].
    match goal with |- context [process_block task "" ?ki cur] =>
      pose proof (process_block_terminates task "" ki cur) as Ht;
      destruct (process_block task "" ki cur) as [[next chunk]| | |] eqn:Hp
    end; simpl; try discriminate.
    + apply IH. eapply affordable_step; eassumption.
    + exfalso. apply Ht. reflexivity.
Qed.

(** More fuel than a run needs does not change its result. *)
Lemma sequential_loop_more task endOffset fuel fuel' cur idx acc :
  (fuel <= fuel')%nat ->
  terminates (sequential_loop fuel task endOffset cur idx acc) ->
  sequential_loop fuel' task endOffset cur idx acc
  = sequential_loop fuel task endOffset cur idx acc.
Proof.
  revert fuel' cur idx acc.
  induction fuel as [|fuel IH]; intros fuel' cur idx acc Hle Ht.
  - exfalso. apply Ht. reflexivity.
  - destruct fuel' as [|fuel']; [lia|]. simpl in *.
    destruct (cur <? endOffset); [|reflexivity].
    destruct (process_block task " at block" _ cur) as [[next chunk]| | |];
      simpl in *; try reflexivity.
    apply IH; [lia|exact Ht].
Qed.

Lemma segment_loop_more task segment fuel fuel' cur count acc :
  (fuel <= fuel')%nat ->
  terminates (segment_loop fuel task segment cur count acc) ->
  segment_loop fuel' task segment cur count acc
  = segment_loop fuel task segment cur count acc.
Proof.
  revert fuel' cur count acc.
  induction fuel as [|fuel IH]; intros fuel' cur count acc Hle Ht.
  - exfalso. apply Ht. reflexivity.
  - destruct fuel' as [|fuel']; [lia|]. simpl in *.
    destruct (_ && _); [|reflexivity].
    destruct (process_block task "" _ cur) as [[next chunk]| | |];
      simpl in *; try reflexivity.
    apply IH; [lia|exact Ht].
Qed.

(** C9 -- block-loop termination: a successful [DecryptNTEncodeBlock] at
    [offset] returns the next offset [offset + 112 + header.original_size]
    for the header parsed at [offset], which is at least [offset + 112] (and
    inside the buffer); hence every step of the sequential and of the
    per-segment loop moves the cursor forward, and both loops, run with the
    fuel the model gives them, end with a result from every cursor: they never
    run out of it, and more fuel does not change the result. *)
Theorem C9_block_loops_terminate (task : FileTask) :
  (forall region6Data offset key next pt,
     DecryptNTEncodeBlock region6Data offset key = Ok (next, pt) ->
     exists hdr header,
       slice_expr region6Data offset (offset + 112) = Ok hdr
       /\ ParseNTEncodeHeader hdr = Ok header
       /\ next = offset + 112 + OriginalSize header
       /\ offset + 112 <= next <= len region6Data)
  /\ (forall where_ keyIndex cur next chunk,
        process_block task where_ keyIndex cur = Ok (next, chunk) ->
        cur + 112 <= next)
  /\ (forall endOffset cur idx acc fuel,
        (loop_fuel task <= fuel)%nat ->
        sequential_loop fuel task endOffset cur idx acc <> OutOfFuel
        /\ sequential_loop fuel task endOffset cur idx acc
           = sequential_loop (loop_fuel task) task endOffset cur idx acc)
  /\ (forall segment cur count acc fuel,
        (loop_fuel task <= fuel)%nat ->
        segment_loop fuel task segment cur count acc <> OutOfFuel
        /\ segment_loop fuel task segment cur count acc
           = segment_loop (loop_fuel task) task segment cur count acc)
  /\ sequential_data task <> OutOfFuel
  /\ (forall segment, processSegment task segment <> OutOfFuel).
Proof.
  split; [|split; [|split; [|split; [|split]]]].
  - intros r6 offset key next pt Hd.
    apply DecryptNTEncodeBlock_ok_inv in Hd
      as (hdr & header & ? & ? & ? & ? & ? & ? & ? & ? & ?).
    exists hdr, header. repeat split; assumption.
  - intros where_ keyIndex cur next chunk Hp.
    apply process_block_ok_inv in Hp. lia.
  - intros endOffset cur idx acc fuel Hf.
    pose proof (sequential_loop_fuel task endOffset _ cur idx acc
                  (affordable_start task cur)) as Ht.
    rewrite (sequential_loop_more _ _ _ fuel _ _ _ Hf Ht). split; [exact Ht|reflexivity].
  - intros segment cur count acc fuel Hf.
    pose proof (segment_loop_fuel task segment _ cur count acc
                  (affordable_start task cur)) as Ht.
    rewrite (segment_loop_more _ _ _ fuel _ _ _ Hf Ht). split; [exact Ht|reflexivity].
  - apply sequential_loop_fuel, affordable_start.
  - intros segment. apply segment_loop_fuel, affordable_start.
Qed.

End BlockFacts.

(** ** File tasks: integrity, output paths, partition length *)

Lemma EqualFold_lower s t : EqualFold s t = true <-> lower s = lower t.
Proof.
  revert t. induction s as [|a s IH]; intros [|b t]; simpl; try (split; congruence).
  rewrite andb_true_iff, bool_decide_eq_true, IH.
  split; [intros [-> ->]; reflexivity | intros [= -> ->]; auto].
Qed.

Lemma lower_digit (b : byte) :
  ascii_lower (hex.digit (byte_to_Z b / 16)) = hex.digit (byte_to_Z b / 16)
  /\ ascii_lower (hex.digit (byte_to_Z b mod 16)) = hex.digit (byte_to_Z b mod 16).
Proof. destruct b; split; reflexivity. Qed.

(** The digest is printed in lower case already. *)
Lemma lower_EncodeToString (src : list byte) :
  lower (hex.EncodeToString src) = hex.EncodeToString src.
Proof.
  induction src as [|b src IH]; simpl; [reflexivity|].
  destruct (lower_digit b) as [-> ->]. rewrite IH. reflexivity.
Qed.

Lemma EqualFold_fold_right s t t' :
  lower t = lower t' -> EqualFold s t = EqualFold s t'.
Proof.
  intros Ht.
  destruct (EqualFold s t) eqn:E1, (EqualFold s t') eqn:E2; try reflexivity.
  - apply EqualFold_lower in E1. rewrite Ht in E1.
    apply EqualFold_lower in E1. congruence.
  - apply EqualFold_lower in E2. rewrite <- Ht in E2.
    apply EqualFold_lower in E2. congruence.
Qed.

Section TaskFacts.
Context {cipher : BlockCipher} {decoder : Lzma2Decoder} {hasher : Sha256}.
Import structures parser extractor.

Lemma worker_unfold task w :
  worker task w =
  match MkdirAll (filepath.Dir (output_path task)) w with
  | None => (Ok (failure (FileInfo_ task) (Msg "failed to create directory")), w)
  | Some w1 =>
      match assembled task with
      | Ok finalData =>
          verify_and_write (FileInfo_ task) (output_path task) finalData
                           (ok_message task) w1
      | Err e => (Ok (failure (FileInfo_ task) e), w1)
      | Panic => (Panic, w1)
      | OutOfFuel => (OutOfFuel, w1)
      end
  end.
Proof.
  unfold worker, assembled, ok_message, processLargeFileSegmented,
    processFileSequential, output_path.
  destruct (UseSegmented task); reflexivity.
Qed.

Lemma MkdirAll_files path w w1 : MkdirAll path w = Some w1 -> files w1 = files w.
Proof.
  unfold MkdirAll. destruct (bool_decide _); [discriminate|].
  intros [= <-]. reflexivity.
Qed.

(** C5 -- integrity atomicity: the assembled bytes are hashed with SHA-256
    and the lower-case hex digest is compared with [FileSha256Hash] ignoring
    letter case; whenever the hash does not match, on the sequential and on
    the segmented path alike, the task returns a failure and the files of the
    world are those it started with: nothing is written for the entry. And a
    task that reports success has written exactly hash-verified bytes. *)
Theorem C5_integrity_atomicity (task : FileTask) (w : world) :
  (forall data expected,
     verifyHash data expected = true
     <-> lower expected = hex.EncodeToString (Sum256 data))
  /\ (forall data expected expected',
        lower expected = lower expected' ->
        verifyHash data expected = verifyHash data expected')
  /\ (forall data,
        assembled task = Ok data ->
        verifyHash data (FileSha256Hash (FileInfo_ task)) = false ->
        exists fr w',
          worker task w = (Ok fr, w')
          /\ Success fr = false /\ files w' = files w)
  /\ (forall fr w',
        worker task w = (Ok fr, w') -> Success fr = true ->
        exists data,
          assembled task = Ok data
          /\ verifyHash data (FileSha256Hash (FileInfo_ task)) = true
          /\ files w' = <[ output_path task := data ]> (files w)).
Proof.
  split; [|split; [|split]].
  - intros data e. unfold verifyHash.
    rewrite EqualFold_lower, lower_EncodeToString. split; congruence.
  - intros data e e' He. unfold verifyHash. apply EqualFold_fold_right, He.
  - intros data Hd Hv. rewrite worker_unfold.
    destruct (MkdirAll _ w) as [w1|] eqn:Hm.
    + rewrite Hd. unfold verify_and_write. rewrite Hv. simpl.
      eexists _, _. split; [reflexivity|]. split; [reflexivity|].
      eapply MkdirAll_files, Hm.
    + eexists _, _. split; [reflexivity|]. split; reflexivity.
  - intros fr w' Hw Hs. rewrite worker_unfold in Hw.
    destruct (MkdirAll _ w) as [w1|] eqn:Hm.
    + destruct (assembled task) as [data| | |]; try discriminate.
      * exists data. split; [reflexivity|].
        unfold verify_and_write in Hw.
        destruct (verifyHash data _) eqn:Hv; simpl in Hw.
        -- split; [reflexivity|].
           unfold WriteFile in Hw.
           destruct (bool_decide _); injection Hw as <- <-; simpl in *;
             try discriminate.
           f_equal. eapply MkdirAll_files, Hm.
        -- injection Hw as <- <-. discriminate.
      * injection Hw as <- <-. discriminate.
    + injection Hw as <- <-. discriminate.
Qed.

(** An entry whose directory can be created, whose bytes assemble, whose
    hash matches and whose file can be written is accepted. *)
Lemma worker_accepts (task : FileTask) (w : world) (data : list byte) :
  let path := filepath.Join (OutputDir task) (Name (FileInfo_ task)) in
  filepath.Dir path ∉ denied w ->
  path ∉ denied w ->
  assembled task = Ok data ->
  verifyHash data (FileSha256Hash (FileInfo_ task)) = true ->
  worker task w =
    (Ok {| FileName := Name (FileInfo_ task); Success := true;
           Message := Msg (ok_message task) |},
     {| files := <[ path := data ]> (files w);
        dirs := dirs w ∪ {[ filepath.Dir path ]};
        denied := denied w;
        warnings := warnings w |}).
Proof.
  intros path Hd Hp Ha Hv. rewrite worker_unfold. fold path.
  unfold output_path. fold path.
  unfold MkdirAll. rewrite bool_decide_eq_false_2 by exact Hd.
  rewrite Ha. unfold verify_and_write. rewrite Hv. simpl.
  unfold WriteFile. simpl. rewrite bool_decide_eq_false_2 by exact Hp.
  reflexivity.
Qed.


Lemma sequential_loop_task_ext task task' fuel endOffset cur idx acc :
  Region6Data task = Region6Data task' ->
  KeyMapData task = KeyMapData task' ->
  KeyIndex (FileInfo_ task) = KeyIndex (FileInfo_ task') ->
  sequential_loop fuel task endOffset cur idx acc
  = sequential_loop fuel task' endOffset cur idx acc.
Proof.
  intros Hr Hk Hi. revert cur idx acc.
  induction fuel as [|fuel IH]; intros cur idx acc; simpl; [reflexivity|].
  destruct (cur <? endOffset); [|reflexivity].
  unfold process_block. rewrite Hr, Hk, Hi.
  destruct (wrapf _ (crypto.ExtractKeyFromKeyMap _ _)); simpl; try reflexivity.
  destruct (wrapf _ (crypto.DecryptNTEncodeBlock _ _ _)); simpl; try reflexivity.
  destruct (wrapf _ (decompressLZMA2 _)); simpl; try reflexivity.
  apply IH.
Qed.

(** C8 (amended) -- zero partition length: [PartitionLength] only selects
    the number of segments.  An entry that declares 0 gets one segment and the
    sequential path, and is processed exactly as the same entry declaring any
    other length below 500 MiB: block loop, hash check and output write all
    take place, and nothing rejects it. *)
Theorem C8_zero_partition_length (region6Data : list byte) (keyMapData : go_slice)
    (outputDir : string) (file : FileInfo) (w : world) :
  PartitionLength file = 0 ->
  let task := makeTask region6Data keyMapData outputDir file in
  calculateOptimalSegments (PartitionLength file) = 1
  /\ UseSegmented task = false
  /\ worker task w = processFileSequential task w
  /\ (forall n, n < 500 * MB ->
        worker (makeTask region6Data keyMapData outputDir
                         (with_partition_length file n)) w
        = worker task w)
  /\ (forall data,
        filepath.Dir (output_path task) ∉ denied w ->
        output_path task ∉ denied w ->
        sequential_data task = Ok data ->
        verifyHash data (FileSha256Hash file) = true ->
        exists w', worker task w
                   = (Ok {| FileName := Name file; Success := true;
                            Message := Msg "OK" |}, w')
                   /\ files w' = <[ output_path task := data ]> (files w)).
Proof.
  intros Hz task.
  assert (calculateOptimalSegments (PartitionLength file) = 1) as Hc.
  { rewrite Hz. reflexivity. }
  assert (UseSegmented task = false) as Hu.
  { unfold task, makeTask. simpl. rewrite Hc. reflexivity. }
  split; [exact Hc|]. split; [exact Hu|]. split; [|split].
  - unfold worker. rewrite Hu. reflexivity.
  - intros n Hn.
    set (task' := makeTask region6Data keyMapData outputDir
                           (with_partition_length file n)).
    assert (UseSegmented task' = false) as Hu'.
    { unfold task', makeTask, calculateOptimalSegments. simpl.
      destruct (n <? 500 * MB) eqn:E; [reflexivity|].
      apply Z.ltb_ge in E. lia. }
    unfold worker. rewrite Hu, Hu'. unfold processFileSequential.
    assert (sequential_data task' = sequential_data task) as ->.
    { apply sequential_loop_task_ext; reflexivity. }
    reflexivity.
  - intros data Hd Hp Ha Hv.
    assert (assembled task = Ok data) as Ha'.
    { unfold assembled. rewrite Hu. exact Ha. }
    pose proof (worker_accepts task w data Hd Hp Ha' Hv) as Hw.
    unfold ok_message in Hw. rewrite Hu in Hw.
    eexists. split; [exact Hw|]. reflexivity.
Qed.

End TaskFacts.

(** ** Key registry and the Stage-1 walk *)

Section RegistryFacts.
Import structures.

Lemma GetAESDictForVersion_total major minor patch :
  GetAESDictForVersion major minor patch = Some DefaultAESDict.
Proof.
  unfold GetAESDictForVersion, VersionKeyMap.
  destruct (_ !! _) as [dict|] eqn:E.
  - apply lookup_singleton_Some in E as [_ <-]. reflexivity.
  - rewrite map_to_list_singleton. simpl.
    destruct (has_prefix _ _); reflexivity.
Qed.

End RegistryFacts.

Section WarningFacts.
Context {cipher : BlockCipher}.
Import structures crypto parser.

Lemma WriteFile_warnings path data w w' :
  WriteFile path data w = Some w' -> warnings w' = warnings w.
Proof.
  unfold WriteFile. destruct (bool_decide _); [discriminate|].
  intros [= <-]. reflexivity.
Qed.

Lemma extractRegion_warnings fileData region offset outputDir keyDict w r w' :
  extractRegion fileData region offset outputDir keyDict w = (r, w') ->
  warnings w' = warnings w.
Proof.
  unfold extractRegion.
  destruct (_ >? _); [intros [= <- <-]; reflexivity|].
  destruct (slice_expr _ _ _); try (intros [= <- <-]; reflexivity).
  destruct (RegionType region =? 6).
  - destruct (WriteFile _ _ _) eqn:Hw; intros [= <- <-]; [|reflexivity].
    eapply WriteFile_warnings, Hw.
  - match goal with |- context [match ?p with Ok _ => _ | _ => _ end] =>
      destruct p as [[bh actual]| | |] end;
      try (intros [= <- <-]; reflexivity).
    destruct (WriteFile _ _ _) eqn:Hw; [|intros [= <- <-]; reflexivity].
    destruct (_ >? 0); intros [= <- <-]; eapply WriteFile_warnings, Hw.
Qed.

Lemma region_walk_warnings fuel fileData outputDir keyDict region offset w r w' :
  region_walk fuel fileData outputDir keyDict region offset w = (r, w') ->
  warnings w' = warnings w.
Proof.
  revert region offset w. induction fuel as [|fuel IH]; intros region offset w; simpl.
  - intros [= <- <-]. reflexivity.
  - destruct (extractRegion _ _ _ _ _ _) as [[[nextOffset nextRegion]| | |] w1] eqn:He;
      apply extractRegion_warnings in He.
    + destruct nextRegion as [nr|].
      * destruct (nextOffset =? -1).
        -- intros [= <- <-]. exact He.
        -- intros Hw. apply IH in Hw. congruence.
      * intros [= <- <-]. exact He.
    + intros [= <- <-]. exact He.
    + intros [= <- <-]. exact He.
    + intros [= <- <-]. exact He.
Qed.

(** C7 -- key registry: the lookup ends in the default set, which is the
    1.3.0 set, for every version; it returns a non-nil dictionary and nothing
    else, so no caller can tell a fallback from a match, and the warning
    [ParseNTPIFile] keeps for a nil dictionary is never printed. *)
Theorem C7_registry_never_signals_default :
  (forall major minor patch,
     GetAESDictForVersion major minor patch = Some AESDict_V1_3_0)
  /\ GetAESDictForVersion 9 9 9 = GetAESDictForVersion 1 3 0
  /\ DefaultAESDict = AESDict_V1_3_0
  /\ (forall filePath outputDir w r w',
        ParseNTPIFile filePath outputDir w = (r, w') ->
        warnings w' = warnings w).
Proof.
  split; [exact GetAESDictForVersion_total|].
  split; [rewrite !GetAESDictForVersion_total; reflexivity|].
  split; [reflexivity|].
  intros filePath outputDir w r w'. unfold ParseNTPIFile.
  destruct (ReadFile _ _) as [fileData|]; [|intros [= <- <-]; reflexivity].
  destruct (ParseNTPIHeader fileData) as [header| | |];
    try (intros [= <- <-]; reflexivity).
  rewrite GetAESDictForVersion_total.
  unfold MkdirAll. destruct (bool_decide _); [intros [= <- <-]; reflexivity|].
  intros Hw. apply region_walk_warnings in Hw. exact Hw.
Qed.

End WarningFacts.

(** An end offset computed as [base + int(size)] that is not below [base]
    did not wrap, for an unsigned 64-bit [size]. *)
Lemma end_offset_no_wrap base size :
  0 <= base < 2 ^ 63 -> 0 <= size < 2 ^ 64 ->
  base <= int_add base (int_wrap size) ->
  int_add base (int_wrap size) = base + size /\ base + size < 2 ^ 63.
Proof.
  intros Hb Hs Hle.
  pose proof (int_wrap_range size) as Hr.
  pose proof (int_wrap_range (base + int_wrap size)) as Hr2.
  change (int_wrap (base + int_wrap size)) with (int_add base (int_wrap size)) in Hr2.
  destruct (int_wrap_cases size Hs) as [E|[? E]];
    destruct (int_add_cases base (int_wrap size)) as [[? E2]|[[? E2]|[? E2]]];
    lia.
Qed.

Section WalkFacts.
Context {cipher : BlockCipher}.
Import structures crypto parser.

Lemma removePKCS7Padding_length data :
  (length (removePKCS7Padding data) <= length data)%nat.
Proof.
  unfold removePKCS7Padding. destruct (last data); [|lia].
  destruct (_ || _); [lia|]. destruct (forallb _ _); [|lia].
  rewrite length_take. lia.
Qed.

Lemma DecryptAESCBC_ok_len ct key iv pt :
  DecryptAESCBC ct key iv = Ok pt -> len pt <= len ct.
Proof.
  unfold DecryptAESCBC.
  destruct (negb _); [discriminate|].
  destruct (negb (len _ =? 16)) eqn:Ei; [discriminate|].
  destruct (negb (Z.rem _ _ =? 0)) eqn:Er; [discriminate|].
  intros [= <-].
  apply negb_false_iff, Z.eqb_eq in Ei, Er.
  pose proof (removePKCS7Padding_length
                (CryptBlocks (match key with Some k => k | None => zeros 32 end)
                             (match iv with Some v => v | None => zeros 16 end) ct)) as Hl.
  rewrite CryptBlocks_length in Hl by assumption.
  unfold len. lia.
Qed.

Lemma DecryptRegionData_ok_len ct regionType keyDict pt :
  DecryptRegionData ct regionType keyDict = Ok pt -> len pt <= len ct.
Proof.
  unfold DecryptRegionData. intros Hd.
  apply bind_ok_inv in Hd as (kv & _ & Hd).
  eapply DecryptAESCBC_ok_len, Hd.
Qed.

Lemma ParseRegionBlockHeader_u64 data bh :
  ParseRegionBlockHeader data = Ok bh ->
  0 <= RealSize bh < 2 ^ 64
  /\ 0 <= RegionSize (NextHeader bh) < 2 ^ 64.
Proof.
  unfold ParseRegionBlockHeader. destruct (_ <? _); [discriminate|].
  intros [= <-]. simpl. split; apply le_field_u64.
Qed.

Lemma ParseNTPIHeader_u64 data header :
  ParseNTPIHeader data = Ok header ->
  0 <= RegionSize (FirstRegion header) < 2 ^ 64.
Proof.
  unfold ParseNTPIHeader. destruct (_ <? _); [discriminate|].
  destruct (negb _); [discriminate|].
  intros [= <-]. simpl. apply le_field_u64.
Qed.

(** What one successful call of [extractRegion] did. *)
Lemma extractRegion_ok_inv fileData region offset outputDir keyDict w r w' :
  extractRegion fileData region offset outputDir keyDict w = (Ok r, w') ->
  let regionEnd := int_add offset (int_wrap (RegionSize region)) in
  exists regionData,
    slice_expr fileData offset regionEnd = Ok regionData
    /\ ((RegionType region = 6
         /\ r = (-1, None)
         /\ WriteFile (filepath.Join outputDir "region6block.bin") regionData w
            = Some w')
        \/ (RegionType region <> 6
            /\ exists decrypted bh actual,
                 DecryptRegionData regionData (RegionType region) keyDict = Ok decrypted
                 /\ 40 <= len decrypted
                 /\ ParseRegionBlockHeader decrypted = Ok bh
                 /\ slice_expr decrypted 40 (int_add 40 (int_wrap (RealSize bh)))
                    = Ok actual
                 /\ WriteFile (filepath.Join outputDir (region_file (RegionType region)))
                              actual w = Some w'
                 /\ r = if RegionSize (NextHeader bh) >? 0
                        then (regionEnd, Some (NextHeader bh))
                        else (-1, None))).
Proof.
  intros He regionEnd. unfold extractRegion in He. fold regionEnd in He.
  destruct (regionEnd >? len fileData); [discriminate|].
  destruct (slice_expr fileData offset regionEnd) as [regionData| | |];
    try discriminate.
  exists regionData. split; [reflexivity|].
  destruct (RegionType region =? 6) eqn:E6.
  - left. apply Z.eqb_eq in E6.
    destruct (WriteFile _ _ _) as [w1|]; [|discriminate].
    injection He as <- <-. auto.
  - right. apply Z.eqb_neq in E6. split; [exact E6|].
    destruct (wrapf "decryption failed" _) as [decrypted| | |] eqn:Hd;
      simpl in He; try discriminate.
    apply wrapf_ok_inv in Hd.
    destruct (len decrypted <? 40) eqn:E40; [discriminate|].
    destruct (wrapf "failed to parse region block header" _) as [bh| | |] eqn:Hb;
      simpl in He; try discriminate.
    apply wrapf_ok_inv in Hb.
    destruct (_ >? len decrypted); [discriminate|].
    destruct (slice_expr decrypted 40 _) as [actual| | |] eqn:Hs;
      simpl in He; try discriminate.
    exists decrypted, bh, actual.
    assert (filepath.Join outputDir (region_file (RegionType region))
            = (if RegionType region =? 4
               then filepath.Join outputDir (RegionName (RegionType region) +:+ ".bin")
               else filepath.Join outputDir (RegionName (RegionType region) +:+ ".xml")))
      as Hf.
    { unfold region_file. destruct (RegionType region =? 4); reflexivity. }
    rewrite Hf.
    destruct (WriteFile _ actual w) as [w1|]; [|discriminate].
    apply Z.ltb_ge in E40.
    destruct (RegionSize (NextHeader bh) >? 0); injection He as <- <-;
      repeat split; auto.
Qed.

Lemma DecodeString_terminates s : terminates (hex.DecodeString s).
Proof.
  revert s. fix IH 1. intros [|a [|b rest]]; simpl.
  - discriminate.
  - discriminate.
  - destruct (hex.fromHexChar a); [|discriminate].
    destruct (hex.fromHexChar b); [|discriminate].
    apply terminates_bind; [apply IH|]. discriminate.
Qed.

Lemma GetKeyIVForRegion_terminates regionType keyDict :
  terminates (GetKeyIVForRegion regionType keyDict).
Proof.
  unfold GetKeyIVForRegion. no_fuel; auto using DecodeString_terminates.
Qed.

Lemma extractRegion_terminates fileData region offset outputDir keyDict w :
  terminates (extractRegion fileData region offset outputDir keyDict w).1.
Proof.
  unfold extractRegion.
  destruct (_ >? _); [discriminate|].
  pose proof (slice_expr_terminates fileData offset
                (int_add offset (int_wrap (RegionSize region)))) as Hs.
  destruct (slice_expr _ _ _) as [regionData| | |]; try discriminate.
  2: { exfalso. apply Hs. reflexivity. }
  destruct (_ =? 6).
  - destruct (WriteFile _ _ _); discriminate.
  - match goal with |- context [match ?p with Ok _ => _ | _ => _ end] =>
      assert (terminates p) as Hp; [|destruct p as [[bh actual]| | |]] end.
    + unfold ParseRegionBlockHeader.
      no_fuel; auto using slice_expr_terminates, GetKeyIVForRegion_terminates,
        DecryptAESCBC_terminates.
    + destruct (WriteFile _ _ _); [destruct (_ >? 0)|]; discriminate.
    + discriminate.
    + discriminate.
    + exfalso. apply Hp. reflexivity.
Qed.

(** A successful step on a metadata region consumed at least the 40 bytes of
    its block header, and stayed inside the archive. *)
Lemma extractRegion_advance fileData region offset outputDir keyDict w
    nextOffset nextRegion w' :
  extractRegion fileData region offset outputDir keyDict w
  = (Ok (nextOffset, Some nextRegion), w') ->
  0 <= offset /\ offset + 40 <= nextOffset /\ nextOffset <= len fileData.
Proof.
  intros He. apply extractRegion_ok_inv in He as (regionData & Hs & Hc).
  apply slice_expr_inv in Hs as (H0 & H1 & H2 & _ & Hl).
  destruct Hc as [(_ & Hr & _)|(_ & decrypted & bh & actual & Hd & H40 & _ & _ & _ & Hr)].
  - discriminate.
  - apply DecryptRegionData_ok_len in Hd.
    destruct (_ >? 0); [|discriminate].
    injection Hr as -> _. lia.
Qed.

Lemma region_walk_fuel fuel fileData outputDir keyDict region offset w :
  walk_affordable fileData fuel offset ->
  terminates (region_walk fuel fileData outputDir keyDict region offset w).1.
Proof.
  revert region offset w. induction fuel as [|fuel IH]; intros region offset w [Hf Ha].
  - lia.
  - simpl.
    pose proof (extractRegion_terminates fileData region offset outputDir keyDict w) as Ht.
    destruct (extractRegion _ _ _ _ _ _) as [[[nextOffset [nr|]]| | |] w1] eqn:He;
      simpl in *; try discriminate.
    + destruct (nextOffset =? -1); [discriminate|].
      apply IH. apply extractRegion_advance in He.
      unfold walk_affordable. lia.
    + exfalso. apply Ht. reflexivity.
Qed.

Lemma region_walk_more fuel fuel' fileData outputDir keyDict region offset w :
  (fuel <= fuel')%nat ->
  terminates (region_walk fuel fileData outputDir keyDict region offset w).1 ->
  region_walk fuel' fileData outputDir keyDict region offset w
  = region_walk fuel fileData outputDir keyDict region offset w.
Proof.
  revert fuel' region offset w.
  induction fuel as [|fuel IH]; intros fuel' region offset w Hle Ht.
  - exfalso. apply Ht. reflexivity.
  - destruct fuel' as [|fuel']; [lia|]. simpl in *.
    destruct (extractRegion _ _ _ _ _ _) as [[[nextOffset [nr|]]| | |] w1];
      try reflexivity.
    destruct (nextOffset =? -1); [reflexivity|].
    apply IH; [lia|exact Ht].
Qed.

(** The built-in key set has a 32-byte key and a 16-byte IV for each of the
    region types 1 to 5. *)
Lemma GetKeyIVForRegion_known (regionType : Z) :
  1 <= regionType <= 5 ->
  exists key iv,
    GetKeyIVForRegion regionType DefaultAESDict = Ok (key, iv)
    /\ length key = 32%nat /\ length iv = 16%nat.
Proof.
  intros H.
  assert (regionType = 1 \/ regionType = 2 \/ regionType = 3
          \/ regionType = 4 \/ regionType = 5) as [->|[->|[->|[->| ->]]]] by lia;
    vm_compute; eexists _, _; repeat split.
Qed.

(** C4 (amended) -- envelope region walk.  [ParseNTPIFile] starts the walk
    at offset 48 with the first region of the file header.  A region of
    type 6 that lies inside the archive is saved: the step writes the slice
    [[offset, offset + size)] as [region6block.bin] and the walk ends.  A
    region of another type that lies inside the archive, has a key (16, 24
    or 32 bytes) and a 16-byte IV in the key set -- the built-in set has
    them for the types 1 to 5 -- and a size that is a multiple of 16 is
    decrypted; when the decrypted data, padding removed, hold the 40-byte
    block header and [40 + real_size] bytes, the step writes [payload =
    decrypted[40 .. 40 + real_size]] under the name of the type
    ([Metadata.xml], [Patch.xml], [RawProgram.xml], [KeyMap.bin],
    [FileIndex.xml]), provided the file can be written, and the walk goes on
    with the next header at [offset + size] exactly when
    [next_header.region_size > 0], and ends otherwise.  Every step that
    succeeds has done one of these two things.  A region that reaches beyond
    the end of the archive is not saved: the step fails with [region data
    out of bounds], and the walk with it, and nothing is written.  The walk
    never runs out of the fuel it is given. *)
Theorem C4_region_walk (fileData : list byte) (outputDir : string)
    (keyDict : AESKeyDict) (region : RegionHeader) (offset : Z) (w : world) :
  0 <= RegionSize region < 2 ^ 64 ->
  (* the start *)
  (forall filePath header w1,
     ReadFile filePath w = Some fileData ->
     ParseNTPIHeader fileData = Ok header ->
     MkdirAll outputDir w = Some w1 ->
     ParseNTPIFile filePath outputDir w
     = region_walk (S (length fileData)) fileData outputDir DefaultAESDict
                   (FirstRegion header) 48 w1)
  (* one step *)
  /\ (forall r w',
        extractRegion fileData region offset outputDir keyDict w = (Ok r, w') ->
        let size := RegionSize region in
        let regionData := take (Z.to_nat size) (drop (Z.to_nat offset) fileData) in
        0 <= offset /\ offset + size <= len fileData /\ len regionData = size
        /\ ((RegionType region = 6
             /\ files w' = <[ filepath.Join outputDir "region6block.bin" := regionData ]>
                             (files w)
             /\ forall fuel,
                  region_walk (S fuel) fileData outputDir keyDict region offset w
                  = (Ok tt, w'))
            \/ (RegionType region <> 6
                /\ exists decrypted bh,
                     DecryptRegionData regionData (RegionType region) keyDict
                     = Ok decrypted
                     /\ ParseRegionBlockHeader decrypted = Ok bh
                     /\ 40 + RealSize bh <= len decrypted
                     /\ let payload :=
                          take (Z.to_nat (RealSize bh)) (drop 40 decrypted) in
                        files w'
                        = <[ filepath.Join outputDir (region_file (RegionType region))
                             := payload ]> (files w)
                     /\ forall fuel,
                          region_walk (S fuel) fileData outputDir keyDict region offset w
                          = if RegionSize (NextHeader bh) >? 0
                            then region_walk fuel fileData outputDir keyDict
                                             (NextHeader bh) (offset + size) w'
                            else (Ok tt, w'))))
  (* termination *)
  /\ (forall fuel,
        (S (length fileData) <= fuel)%nat ->
        (region_walk fuel fileData outputDir keyDict region offset w).1 <> OutOfFuel
        /\ region_walk fuel fileData outputDir keyDict region offset w
           = region_walk (S (length fileData)) fileData outputDir keyDict
                         region offset w)
  (* a region of type 6 inside the archive is saved *)
  /\ (RegionType region = 6 ->
      0 <= offset -> offset + RegionSize region <= len fileData ->
      len fileData < 2 ^ 63 ->
      filepath.Join outputDir "region6block.bin" ∉ denied w ->
      extractRegion fileData region offset outputDir keyDict w
      = (Ok (-1, None),
         {| files := <[ filepath.Join outputDir "region6block.bin"
                        := take (Z.to_nat (RegionSize region))
                                (drop (Z.to_nat offset) fileData) ]> (files w);
            dirs := dirs w; denied := denied w; warnings := warnings w |}))
  (* a region of another type inside the archive is decrypted and saved *)
  /\ (forall key iv,
        RegionType region <> 6 ->
        0 <= offset -> offset + RegionSize region <= len fileData ->
        len fileData < 2 ^ 63 ->
        GetKeyIVForRegion (RegionType region) keyDict = Ok (key, iv) ->
        (length key = 16 \/ length key = 24 \/ length key = 32)%nat ->
        length iv = 16%nat ->
        RegionSize region mod 16 = 0 ->
        let regionData :=
          take (Z.to_nat (RegionSize region)) (drop (Z.to_nat offset) fileData) in
        let decrypted := removePKCS7Padding (CryptBlocks key iv regionData) in
        DecryptRegionData regionData (RegionType region) keyDict = Ok decrypted
        /\ (40 <= len decrypted ->
            exists bh,
              ParseRegionBlockHeader decrypted = Ok bh
              /\ (40 + RealSize bh <= len decrypted ->
                  filepath.Join outputDir (region_file (RegionType region))
                    ∉ denied w ->
                  extractRegion fileData region offset outputDir keyDict w
                  = (Ok (if RegionSize (NextHeader bh) >? 0
                         then (offset + RegionSize region, Some (NextHeader bh))
                         else (-1, None)),
                     {| files := <[ filepath.Join outputDir
                                      (region_file (RegionType region))
                                    := take (Z.to_nat (RealSize bh))
                                            (drop 40 decrypted) ]> (files w);
                        dirs := dirs w; denied := denied w;
                        warnings := warnings w |}))))
  (* the built-in key set serves the types 1 to 5 *)
  /\ (1 <= RegionType region <= 5 ->
      exists key iv,
        GetKeyIVForRegion (RegionType region) DefaultAESDict = Ok (key, iv)
        /\ length key = 32%nat /\ length iv = 16%nat)
  (* the names of the files *)
  /\ map region_file [1; 2; 3; 4; 5]
     = ["Metadata.xml"; "Patch.xml"; "RawProgram.xml"; "KeyMap.bin";
        "FileIndex.xml"]
  (* a region that reaches beyond the end of the archive *)
  /\ (0 <= offset -> len fileData < offset + RegionSize region < 2 ^ 63 ->
      extractRegion fileData region offset outputDir keyDict w
      = (Err (Msg "region data out of bounds"), w)
      /\ forall fuel,
           region_walk (S fuel) fileData outputDir keyDict region offset w
           = (Err (MsgWrap "failed to extract region"
                     (Msg "region data out of bounds")), w)).
Proof.
  intros Hsize.
  split; [|split; [|split; [|split; [|split; [|split; [|split; [reflexivity|]]]]]]].
  - intros filePath header w1 Hr Hp Hm. unfold ParseNTPIFile.
    rewrite Hr, Hp, GetAESDictForVersion_total, Hm. reflexivity.
  - intros r w' He size regionData.
    pose proof He as Hinv.
    apply extractRegion_ok_inv in Hinv as (rd & Hs & Hc).
    apply slice_expr_inv in Hs as (H0 & H1 & H2 & Hrd & Hl).
    assert (offset < 2 ^ 63) as Hob.
    { pose proof (int_wrap_range (offset + int_wrap (RegionSize region))).
      unfold int_add in H1. lia. }
    destruct (end_offset_no_wrap offset (RegionSize region)) as [Hend Hlt];
      [lia|exact Hsize|exact H1|].
    rewrite Hend in *. fold size in Hl, H2, Hrd, Hc.
    assert (rd = regionData) as ->.
    { rewrite Hrd. unfold regionData. f_equal. f_equal. lia. }
    split; [exact H0|]. split; [exact H2|]. split; [lia|].
    destruct Hc as [(H6 & -> & Hw)|(H6 & decrypted & bh & actual & Hd & H40 & Hb & Hs & Hw & Hr)].
    + left. split; [exact H6|]. split.
      * unfold WriteFile in Hw. destruct (bool_decide _); [discriminate|].
        injection Hw as <-. reflexivity.
      * intros fuel. simpl. rewrite He. reflexivity.
    + right. split; [exact H6|]. exists decrypted, bh.
      destruct (ParseRegionBlockHeader_u64 _ _ Hb) as [Hreal Hnext].
      apply slice_expr_inv in Hs as (_ & Hs1 & Hs2 & Hact & _).
      destruct (end_offset_no_wrap 40 (RealSize bh)) as [Hend2 _];
        [lia|exact Hreal|exact Hs1|].
      rewrite Hend2 in *.
      split; [exact Hd|]. split; [exact Hb|]. split; [exact Hs2|].
      split.
      * unfold WriteFile in Hw. destruct (bool_decide _); [discriminate|].
        injection Hw as <-. simpl. rewrite Hact. do 3 f_equal. lia.
      * intros fuel. simpl. rewrite He, Hr.
        destruct (RegionSize (NextHeader bh) >? 0); [|reflexivity].
        destruct (offset + size =? -1) eqn:E; [|reflexivity].
        apply Z.eqb_eq in E. lia.
  - intros fuel Hf.
    assert (walk_affordable fileData (S (length fileData)) offset) as Ha.
    { unfold walk_affordable, len. lia. }
    pose proof (region_walk_fuel _ fileData outputDir keyDict region offset w Ha) as Ht.
    rewrite (region_walk_more _ fuel _ _ _ _ _ _ Hf Ht).
    split; [exact Ht|reflexivity].
  - intros H6 H0 Hin Hlen Hw. unfold extractRegion.
    rewrite (int_wrap_small (RegionSize region)) by lia.
    unfold int_add. rewrite int_wrap_small by lia.
    destruct (offset + RegionSize region >? len fileData) eqn:E;
      [rewrite Z.gtb_ltb in E; apply Z.ltb_lt in E; lia|].
    rewrite slice_expr_ok by lia.
    rewrite H6. simpl.
    unfold WriteFile. rewrite bool_decide_eq_false_2 by exact Hw.
    do 4 f_equal. lia.
  - intros key iv H6 H0 Hin Hlen Hk Hkl Hil Hmod regionData decrypted.
    assert (len regionData = RegionSize region) as Hrl.
    { unfold regionData, len. rewrite length_take, length_drop.
      unfold len in Hin. lia. }
    assert (DecryptRegionData regionData (RegionType region) keyDict = Ok decrypted)
      as Hd.
    { unfold DecryptRegionData. rewrite Hk. cbn [bind fst snd].
      unfold DecryptAESCBC.
      assert (((len key =? 16) || (len key =? 24) || (len key =? 32)) = true) as ->.
      { unfold len. destruct Hkl as [->|[->| ->]]; reflexivity. }
      assert ((len iv =? 16) = true) as -> by (unfold len; rewrite Hil; reflexivity).
      rewrite Hrl, Z.rem_mod_nonneg, Hmod by lia. reflexivity. }
    split; [exact Hd|].
    intros H40.
    assert (exists bh, ParseRegionBlockHeader decrypted = Ok bh) as [bh Hb].
    { unfold ParseRegionBlockHeader.
      destruct (len decrypted <? 40) eqn:E40; [zbool; lia|]. eexists. reflexivity. }
    exists bh. split; [exact Hb|].
    intros Hreal Hw.
    destruct (ParseRegionBlockHeader_u64 _ _ Hb) as [Hu _].
    pose proof (DecryptRegionData_ok_len _ _ _ _ Hd) as Hdl.
    assert (int_add offset (int_wrap (RegionSize region))
            = offset + RegionSize region) as Hre.
    { rewrite (int_wrap_small (RegionSize region)) by lia.
      unfold int_add. apply int_wrap_small. lia. }
    assert (int_add 40 (int_wrap (RealSize bh)) = 40 + RealSize bh) as Hend.
    { rewrite (int_wrap_small (RealSize bh)) by lia.
      unfold int_add. apply int_wrap_small. lia. }
    unfold extractRegion. rewrite !Hre.
    destruct (offset + RegionSize region >? len fileData) eqn:E; [zbool; lia|].
    rewrite slice_expr_ok by lia.
    apply Z.eqb_neq in H6. rewrite H6.
    replace (Z.to_nat (offset + RegionSize region - offset))
      with (Z.to_nat (RegionSize region)) by lia.
    fold regionData. rewrite Hd. cbn [wrapf bind].
    destruct (len decrypted <? 40) eqn:E40; [zbool; lia|].
    rewrite Hb. cbn [wrapf bind]. rewrite !Hend.
    destruct (40 + RealSize bh >? len decrypted) eqn:E2; [zbool; lia|].
    rewrite slice_expr_ok by lia. cbn [bind].
    replace (Z.to_nat (40 + RealSize bh - 40)) with (Z.to_nat (RealSize bh)) by lia.
    change (Z.to_nat 40) with 40%nat.
    assert ((if RegionType region =? 4
             then filepath.Join outputDir (RegionName (RegionType region) +:+ ".bin")
             else filepath.Join outputDir (RegionName (RegionType region) +:+ ".xml"))
            = filepath.Join outputDir (region_file (RegionType region))) as ->.
    { unfold region_file. destruct (RegionType region =? 4); reflexivity. }
    unfold WriteFile. rewrite bool_decide_eq_false_2 by exact Hw.
    destruct (RegionSize (NextHeader bh) >? 0); reflexivity.
  - intros Ht. apply GetKeyIVForRegion_known, Ht.
  - intros H0 Hout.
    assert (extractRegion fileData region offset outputDir keyDict w
            = (Err (Msg "region data out of bounds"), w)) as He.
    { unfold extractRegion.
      rewrite (int_wrap_small (RegionSize region)) by lia.
      unfold int_add. rewrite int_wrap_small by lia.
      destruct (offset + RegionSize region >? len fileData) eqn:E; [reflexivity|].
      zbool. lia. }
    split; [exact He|]. intros fuel. cbn [region_walk]. rewrite He. reflexivity.
Qed.

End WalkFacts.

(** ** Segmenter equivalence *)

Lemma int_wrap_idem_add a b : int_wrap (int_wrap a + b) = int_wrap (a + b).
Proof.
  unfold int_wrap. f_equal.
  replace ((a + 2 ^ 63) mod 2 ^ 64 - 2 ^ 63 + b + 2 ^ 63)
    with ((a + 2 ^ 63) mod 2 ^ 64 + b) by lia.
  rewrite Zplus_mod_idemp_l. f_equal. lia.
Qed.

Lemma int_add_assoc a b c : int_add (int_add a b) c = int_add a (b + c).
Proof. unfold int_add. rewrite int_wrap_idem_add. f_equal. lia. Qed.

Section Segmenter.
Context {cipher : BlockCipher} {decoder : Lzma2Decoder} {hasher : Sha256}.
Import structures crypto parser extractor runs.

Variable task : FileTask.
Variable offsetEnd : Z.

Local Abbreviation r6 := (Region6Data task).
Local Abbreviation K := (KeyIndex (FileInfo_ task)).
Local Abbreviation block_at := (runs.block_at task offsetEnd).
Local Abbreviation run_from := (runs.run_from task offsetEnd).
Local Abbreviation seg_of := (runs.seg_of offsetEnd).
Local Abbreviation cover := (runs.cover offsetEnd).

Lemma process_block_block_at cur k next chunk :
  cur < offsetEnd -> cur < 2 ^ 63 -> 112 * Z.of_nat k <= Z.max cur 0 ->
  process_block task " at block" (int_add K (Z.of_nat k)) cur = Ok (next, chunk) ->
  block_at cur k next chunk /\ next < 2 ^ 63 /\ 112 * Z.of_nat (S k) <= Z.max next 0.
Proof.
  intros Hend Hb Hk Hp. pose proof Hp as Hinv.
  unfold process_block in Hinv.
  apply bind_ok_inv in Hinv as (key & _ & Hinv).
  apply bind_ok_inv in Hinv as ([nx pt] & Hd & Hinv).
  apply bind_ok_inv in Hinv as (dec & _ & Hinv).
  injection Hinv as <- <-. apply wrapf_ok_inv in Hd. simpl.
  apply DecryptNTEncodeBlock_ok_inv in Hd
    as (hdr & header & Hs & Hh & Ha & Hw & Hn & H0 & H1 & H2 & H3).
  split; [constructor|]; try assumption; try lia.
  - exists hdr, header. split; [exact Hs|]. split; [exact Hh|].
    rewrite Hw.
    pose proof (ParseNTEncodeHeader_size _ _ Hh) as Hsz.
    unfold int_add.
    rewrite (int_wrap_small (112 + OriginalSize header)) by lia.
    rewrite int_wrap_small by lia. lia.
Qed.

Lemma sequential_loop_run fuel cur k acc data :
  cur < 2 ^ 63 -> 112 * Z.of_nat k <= Z.max cur 0 ->
  sequential_loop fuel task offsetEnd cur (Z.of_nat k) acc = Ok data ->
  exists tr, run_from cur k tr /\ data = acc ++ chunks tr.
Proof.
  revert cur k acc. induction fuel as [|fuel IH]; intros cur k acc Hb Hk; simpl.
  - discriminate.
  - destruct (cur <? offsetEnd) eqn:E.
    + apply Z.ltb_lt in E. intros Hl.
      apply bind_ok_inv in Hl as ([next chunk] & Hp & Hl). simpl in Hl.
      destruct (process_block_block_at cur k next chunk E Hb Hk Hp)
        as (Hblk & Hnb & Hnk).
      assert (int_add (Z.of_nat k) 1 = Z.of_nat (S k)) as Hi.
      { unfold int_add. pose proof (blk_index _ _ _ _ _ _ Hblk).
        rewrite int_wrap_small; lia. }
      rewrite Hi in Hl.
      apply IH in Hl as (tr & Hr & ->); try assumption.
      exists ((cur, chunk) :: tr). split.
      * econstructor; eassumption.
      * unfold chunks. simpl. rewrite app_assoc. reflexivity.
    + apply Z.ltb_ge in E. intros [= <-].
      exists []. split; [constructor; exact E|].
      unfold chunks. simpl. rewrite app_nil_r. reflexivity.
Qed.

(** Offsets along a run grow, stay below [offsetEnd], and the blocks fit in
    the buffer. *)
Lemma run_from_offsets cur k tr :
  run_from cur k tr ->
  Forall (fun t => cur <= t.1 < offsetEnd) tr.
Proof.
  induction 1 as [|cur k next chunk rest Hb _ IH]; constructor.
  - simpl. destruct Hb. lia.
  - eapply Forall_impl; [exact IH|]. intros t Ht. destruct Hb. simpl in *. lia.
Qed.

Lemma run_from_fits cur k tr :
  run_from cur k tr -> tr <> [] ->
  0 <= cur /\ cur + 112 * Z.of_nat (length tr) <= len r6.
Proof.
  induction 1 as [c k0 He|cur k next chunk rest Hb Hr IH]; intros Hne.
  - congruence.
  - destruct Hb. split; [assumption|].
    destruct rest as [|t rest'].
    + simpl. lia.
    + destruct IH as [_ IH]; [discriminate|].
      rewrite length_cons, Nat2Z.inj_succ. lia.
Qed.

Lemma run_from_drop cur k tr s t :
  run_from cur k tr -> tr !! s = Some t ->
  run_from t.1 (k + s) (drop s tr).
Proof.
  intros Hr. revert s. induction Hr as [|cur k next chunk rest Hb Hr IH]; intros s Hs.
  - rewrite lookup_nil in Hs. discriminate.
  - destruct s as [|s]; simpl in *.
    + injection Hs as <-. simpl. rewrite Nat.add_0_r.
      econstructor; eassumption.
    + replace (k + S s)%nat with (S k + s)%nat by lia. apply IH, Hs.
Qed.

Lemma run_from_drop_all cur k tr :
  run_from cur k tr -> exists c, run_from c (k + length tr) [].
Proof.
  induction 1 as [c k0 He|cur k next chunk rest Hb Hr IH].
  - exists c. constructor. exact He.
  - destruct IH as [c Hc]. exists c. simpl.
    replace (k + S (length rest))%nat with (S k + length rest)%nat by lia.
    exact Hc.
Qed.

Lemma run_from_increasing cur k tr i j ti tj :
  run_from cur k tr -> (i < j)%nat ->
  tr !! i = Some ti -> tr !! j = Some tj -> ti.1 < tj.1.
Proof.
  intros Hr Hij Hi Hj.
  pose proof (run_from_drop _ _ _ _ _ Hr Hi) as Hd.
  assert (drop i tr !! (j - i)%nat = Some tj) as Hj'.
  { rewrite lookup_drop. rewrite <- Hj. f_equal. lia. }
  destruct (drop i tr) as [|t0 rest] eqn:E; [rewrite lookup_nil in Hj'; discriminate|].
  inversion Hd as [|? ? next chunk ? Hb Hr']; subst.
  destruct (j - i)%nat as [|d] eqn:Ed; [lia|]. simpl in Hj'.
  apply run_from_offsets in Hr'.
  rewrite Forall_forall in Hr'.
  apply list_elem_of_lookup_2 in Hj'.
  specialize (Hr' _ Hj'). destruct Hb. simpl in *. lia.
Qed.

(** *** The boundary scan finds the blocks of the run *)

Lemma bounds_ok_length k tr bl : bounds_ok k tr bl -> length bl = length tr.
Proof.
  revert k bl. induction tr as [|t tr IH]; intros k [|b bl]; simpl; try tauto.
  intros (_ & _ & Hb). f_equal. eapply IH, Hb.
Qed.

Lemma bounds_ok_lookup k tr bl i t :
  bounds_ok k tr bl -> tr !! i = Some t ->
  exists b, bl !! i = Some b /\ B_Offset b = t.1
            /\ B_BlockIndex b = Z.of_nat (k + i).
Proof.
  revert k bl i. induction tr as [|t0 tr IH]; intros k [|b bl] i; simpl;
    try tauto; try (rewrite lookup_nil; discriminate).
  intros (Ho & Hi & Hb) Hl. destruct i as [|i]; simpl in *.
  - injection Hl as <-. exists b. rewrite Nat.add_0_r. auto.
  - replace (k + S i)%nat with (S k + i)%nat by lia. eapply IH; eassumption.
Qed.

Lemma scan_loop_run cur k tr :
  run_from cur k tr ->
  forall fuel acc bs,
    (length tr < fuel)%nat ->
    exists bl acc',
      scan_loop fuel r6 offsetEnd cur (Z.of_nat k) acc bs = Ok (bs ++ bl, acc')
      /\ bounds_ok k tr bl.
Proof.
  induction 1 as [cur k He|cur k next chunk rest Hb Hr IH]; intros fuel acc bs Hf.
  - destruct fuel as [|fuel]; [simpl in Hf; lia|]. simpl.
    destruct (cur <? offsetEnd) eqn:E; [apply Z.ltb_lt in E; lia|].
    exists [], acc. rewrite app_nil_r. split; [reflexivity|exact I].
  - destruct fuel as [|fuel]; [simpl in Hf; lia|]. simpl in Hf |- *.
    destruct Hb as [_ Hlo Hend Hnext Hidx Hhend (hdr & header & Hs & Hp & Hn)].
    destruct (cur <? offsetEnd) eqn:E; [|apply Z.ltb_ge in E; lia].
    rewrite Hhend.
    destruct (cur + 112 >? len r6) eqn:E2; [rewrite Z.gtb_ltb in E2; apply Z.ltb_lt in E2; lia|].
    rewrite Hs. simpl. rewrite Hp, Hn.
    assert (int_add (Z.of_nat k) 1 = Z.of_nat (S k)) as ->.
    { unfold int_add. rewrite int_wrap_small; lia. }
    edestruct (IH fuel) as (bl & acc' & Hscan & Hbl); [lia|].
    rewrite Hscan. eexists (_ :: bl), acc'.
    rewrite <- app_assoc. split; [reflexivity|].
    simpl. auto.
Qed.

(** *** The partition covers the blocks by consecutive segments *)

Lemma Ok_inj {A} (a b : A) : Ok a = Ok b -> a = b.
Proof. congruence. Qed.

Lemma index_lookup {A} (l : list A) i a : l !! i = Some a -> index l i = Ok a.
Proof. unfold index. intros ->. reflexivity. Qed.

Lemma partition_loop_cover bl numSegments target todo :
  forall i segments s css,
    (i + todo = length bl)%nat ->
    (todo = 0%nat -> s = length bl) ->
    (0 < todo -> s <= i)%nat ->
    exists rest,
      partition_loop todo bl offsetEnd numSegments target i segments s css
      = Ok (segments ++ rest)
      /\ cover bl s rest.
Proof.
  induction todo as [|todo IH]; intros i segments s css Hi Hz Hs.
  - exists []. simpl. rewrite app_nil_r. rewrite Hz by reflexivity.
    split; [reflexivity|constructor].
  - specialize (Hs ltac:(lia)). clear Hz.
    destruct (lookup_lt_is_Some_2 bl i) as [bi Hbi]; [lia|].
    destruct (lookup_lt_is_Some_2 bl s) as [bs Hbs]; [lia|].
    cbn [partition_loop].
    destruct (s <? length bl)%nat eqn:Es; [|apply Nat.ltb_ge in Es; lia].
    rewrite (index_lookup _ _ _ Hbi), (index_lookup _ _ _ Hbs).
    cbn [bind].
    set (css' := uint64_wrap (AccumulatedSize bi - AccumulatedSize bs)).
    destruct ((Z.of_nat (length segments) <? int_sub numSegments 1)
              && (css' >=? target) || (i =? length bl - 1)%nat) eqn:Eend.
    + (* the segment [s .. i] is closed *)
      assert (exists seg,
        (ends <-
           (if (i =? length bl - 1)%nat
            then Ok (offsetEnd, Z.of_nat (length bl) - Z.of_nat s)
            else
              endOffset <-
                (if (i + 1 <? length bl)%nat
                 then bn <- index bl (i + 1) ;; Ok (B_Offset bn)
                 else Ok offsetEnd) ;;
              Ok (endOffset, Z.of_nat i - Z.of_nat s + 1)) ;;
         Ok {| StartOffset := B_Offset bs; EndOffset := ends.1;
               StartBlockIndex := B_BlockIndex bs; NumBlocks := ends.2 |})
        = Ok seg /\ seg = seg_of bl s i) as (seg & Hseg & ->).
      { unfold seg_of. rewrite Hbs. simpl default.
        destruct (i =? length bl - 1)%nat eqn:El.
        - apply Nat.eqb_eq in El. eexists. split; [reflexivity|].
          destruct (i + 1 <? length bl)%nat eqn:E1; [apply Nat.ltb_lt in E1; lia|].
          simpl. f_equal. lia.
        - apply Nat.eqb_neq in El.
          destruct (i + 1 <? length bl)%nat eqn:E1; [|apply Nat.ltb_ge in E1; lia].
          apply Nat.ltb_lt in E1.
          destruct (lookup_lt_is_Some_2 bl (i + 1)) as [bn Hbn]; [lia|].
          rewrite (index_lookup _ _ _ Hbn), Hbn. simpl.
          eexists. split; reflexivity. }
      destruct (IH (i + 1)%nat (segments ++ [seg_of bl s i]) (i + 1)%nat 0)
        as (rest & Hrest & Hcov); [lia|lia|lia|].
      exists (seg_of bl s i :: rest). split.
      * revert Hseg. 
        destruct (if (i =? length bl - 1)%nat then _ else _) as [ends| | |];
          simpl; try discriminate.
        intros Heq. apply Ok_inj in Heq.
        rewrite Heq, Hrest, <- app_assoc. reflexivity.
      * constructor; [lia|]. replace (S i) with (i + 1)%nat by lia. exact Hcov.
    + (* the segment stays open: [i] is not the last block *)
      apply orb_false_iff in Eend as [_ El]. apply Nat.eqb_neq in El.
      destruct (IH (i + 1)%nat segments s css') as (rest & Hrest & Hcov);
        [lia|lia|lia|].
      exists rest. split; [exact Hrest|exact Hcov].
Qed.

(** *** A segment replays its blocks of the run *)

Lemma segment_loop_run seg kk n :
  forall cur j acc tr fuel,
    run_from cur (kk + j) tr ->
    (n <= length tr)%nat -> (n < fuel)%nat ->
    Forall (fun t => t.1 < EndOffset seg) (take n tr) ->
    StartBlockIndex seg = Z.of_nat kk ->
    NumBlocks seg = Z.of_nat (j + n) ->
    segment_loop fuel task seg cur (Z.of_nat j) acc
    = Ok (acc ++ chunks (take n tr)).
Proof.
  induction n as [|n IH]; intros cur j acc tr fuel Hr Hn Hf Hall Hsb Hnb.
  - destruct fuel as [|fuel]; [lia|]. simpl.
    rewrite Hnb, Nat.add_0_r, Z.ltb_irrefl, andb_false_r.
    unfold chunks. simpl. rewrite app_nil_r. reflexivity.
  - destruct fuel as [|fuel]; [lia|].
    inversion Hr as [|? ? next chunk rest Hb Hr']; subst; [simpl in Hn; lia|].
    simpl in Hn, Hall |- *. apply Forall_cons in Hall as [Hc Hall]. simpl in Hc.
    destruct Hb as [Hstep Hlo Hend Hnext Hidx Hhend _].
    destruct (cur <? EndOffset seg) eqn:E1; [|apply Z.ltb_ge in E1; lia].
    destruct (Z.of_nat j <? NumBlocks seg) eqn:E2; [|apply Z.ltb_ge in E2; lia].
    simpl. rewrite Hsb, int_add_assoc.
    replace (Z.of_nat kk + Z.of_nat j) with (Z.of_nat (kk + j)) by lia.
    rewrite (process_block_where _ _ "" _ _ _ Hstep). simpl.
    assert (int_add (Z.of_nat j) 1 = Z.of_nat (S j)) as ->.
    { unfold int_add. rewrite int_wrap_small; lia. }
    rewrite (IH next (S j) (acc ++ chunk) rest fuel); try assumption; try lia.
    + unfold chunks. simpl. rewrite app_assoc. reflexivity.
    + replace (kk + S j)%nat with (S (kk + j)) by lia. exact Hr'.
Qed.

Lemma chunks_app a b : chunks (a ++ b) = chunks a ++ chunks b.
Proof. unfold chunks. rewrite map_app, concat_app. reflexivity. Qed.

End Segmenter.

(** *** A scan that stops at a header it cannot read *)

Section TruncatedScan.
Context {cipher : BlockCipher} {decoder : Lzma2Decoder} {hasher : Sha256}.
Import structures crypto parser extractor runs.

Variable task : FileTask.
Variable offsetEnd : Z.

Local Abbreviation r6 := (Region6Data task).
Local Abbreviation K := (KeyIndex (FileInfo_ task)).

(** The blocks before [stop] are the run of the entry cut at [stop]. *)
Lemma run_to_run_from stop cur k tr :
  run_to task stop cur k tr ->
  cur < 2 ^ 63 -> 112 * Z.of_nat k <= Z.max cur 0 ->
  run_from task stop cur k tr /\ cur <= stop.
Proof.
  induction 1 as [k|cur k next chunk rest Hp _ IH]; intros Hb Hk.
  - split; [constructor; lia | lia].
  - destruct (process_block_block_at task (cur + 1) cur k next chunk)
      as (Hblk & Hnb & Hnk); [lia | exact Hb | exact Hk | exact Hp |].
    destruct (IH Hnb Hnk) as [Hrun Hle].
    destruct Hblk as [Hstep Hlo _ Hnext Hidx Hhend Hhdr].
    split; [|lia].
    econstructor; [|exact Hrun].
    constructor; try assumption; lia.
Qed.

Lemma process_block_header_fails where_ keyIndex cur :
  header_fails task cur ->
  is_ok (process_block task where_ keyIndex cur) = false.
Proof.
  intros Hf. unfold process_block.
  destruct (wrapf "failed to extract key" _) as [key| | |]; try reflexivity.
  cbn [bind]. unfold DecryptNTEncodeBlock.
  destruct (cur >=? len r6); [reflexivity|].
  destruct (int_add cur 112 >? len r6) eqn:E; [reflexivity|].
  destruct Hf as [Hf|(hdr & e & Hs & Hp)]; [zbool; lia|].
  rewrite Hs. cbn [bind]. rewrite Hp. reflexivity.
Qed.

(** The sequential loop fails at [stop]. *)
Lemma sequential_loop_run_to stop cur k tr :
  run_to task stop cur k tr ->
  cur < 2 ^ 63 -> 112 * Z.of_nat k <= Z.max cur 0 ->
  stop < offsetEnd -> header_fails task stop ->
  forall fuel acc,
    is_ok (sequential_loop fuel task offsetEnd cur (Z.of_nat k) acc) = false.
Proof.
  induction 1 as [k|cur k next chunk rest Hp Hr IH];
    intros Hb Hk Hlt Hf fuel acc.
  - destruct fuel as [|fuel]; [reflexivity|]. simpl.
    destruct (stop <? offsetEnd) eqn:E; [|zbool; lia].
    pose proof (process_block_header_fails " at block"
                  (int_add K (Z.of_nat k)) stop Hf) as Hno.
    destruct (process_block task " at block" _ stop); try reflexivity.
    discriminate Hno.
  - destruct fuel as [|fuel]; [reflexivity|]. simpl.
    destruct (process_block_block_at task (cur + 1) cur k next chunk)
      as (Hblk & Hnb & Hnk); [lia | exact Hb | exact Hk | exact Hp |].
    destruct (run_to_run_from _ _ _ _ Hr Hnb Hnk) as [_ Hle].
    destruct Hblk as [_ Hlo _ Hnext Hidx _ _].
    destruct (cur <? offsetEnd) eqn:E; [|zbool; lia].
    rewrite Hp. simpl.
    assert (int_add (Z.of_nat k) 1 = Z.of_nat (S k)) as ->.
    { unfold int_add. rewrite int_wrap_small; lia. }
    apply IH; assumption.
Qed.

(** The boundary scan records the blocks before [stop] and stops there. *)
Lemma scan_loop_run_to stop cur k tr :
  run_to task stop cur k tr ->
  cur < 2 ^ 63 -> 112 * Z.of_nat k <= Z.max cur 0 ->
  stop < offsetEnd -> header_fails task stop ->
  forall fuel acc bs,
    (length tr < fuel)%nat ->
    exists bl acc',
      scan_loop fuel r6 offsetEnd cur (Z.of_nat k) acc bs = Ok (bs ++ bl, acc')
      /\ bounds_ok k tr bl.
Proof.
  induction 1 as [k|cur k next chunk rest Hp Hr IH];
    intros Hb Hk Hlt Hf fuel acc bs Hfuel.
  - destruct fuel as [|fuel]; [simpl in Hfuel; lia|]. simpl.
    destruct (stop <? offsetEnd) eqn:E; [|zbool; lia].
    exists [], acc. rewrite app_nil_r. split; [|exact I].
    destruct (int_add stop 112 >? len r6) eqn:E2; [reflexivity|].
    destruct Hf as [Hf|(hdr & e & Hs & Hp)]; [zbool; lia|].
    rewrite Hs. cbn [bind]. rewrite Hp. reflexivity.
  - destruct fuel as [|fuel]; [simpl in Hfuel; lia|]. simpl in Hfuel |- *.
    destruct (process_block_block_at task (cur + 1) cur k next chunk)
      as (Hblk & Hnb & Hnk); [lia | exact Hb | exact Hk | exact Hp |].
    destruct (run_to_run_from _ _ _ _ Hr Hnb Hnk) as [_ Hle].
    destruct Hblk as [_ Hlo _ Hnext Hidx Hhend (hdr & header & Hs & Hph & Hn)].
    destruct (cur <? offsetEnd) eqn:E; [|apply Z.ltb_ge in E; lia].
    rewrite Hhend.
    destruct (cur + 112 >? len r6) eqn:E2;
      [rewrite Z.gtb_ltb in E2; apply Z.ltb_lt in E2; lia|].
    rewrite Hs. simpl. rewrite Hph, Hn.
    assert (int_add (Z.of_nat k) 1 = Z.of_nat (S k)) as ->.
    { unfold int_add. rewrite int_wrap_small; lia. }
    edestruct (IH Hnb Hnk Hlt Hf fuel) as (bl & acc' & Hscan & Hbl); [lia|].
    rewrite Hscan. eexists (_ :: bl), acc'.
    rewrite <- app_assoc. split; [reflexivity|].
    simpl. auto.
Qed.

(** The segments made for an entry that ends at [offsetEnd] replay the run
    of the entry cut at [stop]: the last segment ends with its last block. *)
Lemma run_segments_cover_to stop cur0 tr bl :
  run_from task stop cur0 0 tr -> stop <= offsetEnd -> bounds_ok 0 tr bl ->
  forall s segs,
    cover offsetEnd bl s segs ->
    exists rs, run_segments task segs = Ok rs /\ concat rs = chunks (drop s tr).
Proof.
  intros Hrun Hstop Hbl.
  pose proof (bounds_ok_length _ _ _ Hbl) as Hlen.
  induction 1 as [|s e rest Hse Hcov IH].
  - exists []. split; [reflexivity|]. rewrite Hlen, drop_all. reflexivity.
  - destruct IH as (rs & Hrs & Hcat).
    destruct (lookup_lt_is_Some_2 tr s) as [ts Hts]; [lia|].
    destruct (bounds_ok_lookup _ _ _ _ _ Hbl Hts) as (b & Hb & Hbo & Hbi).
    pose proof (run_from_drop _ _ _ _ _ _ _ Hrun Hts) as Hdrop.
    assert (tr <> []) as Hne by (intros ->; rewrite lookup_nil in Hts; discriminate).
    pose proof (run_from_fits _ _ _ _ _ Hrun Hne) as [Hc0 Hfit].
    set (n := (e - s + 1)%nat).
    assert (processSegment task (seg_of offsetEnd bl s e)
            = Ok (chunks (take n (drop s tr)))) as Hseg.
    { unfold processSegment.
      change (StartOffset (seg_of offsetEnd bl s e))
        with (B_Offset (default no_boundary (bl !! s))).
      rewrite Hb. simpl default. rewrite Hbo.
      rewrite (segment_loop_run task stop (seg_of offsetEnd bl s e) s n ts.1 0 []
                 (drop s tr)).
      - reflexivity.
      - rewrite Nat.add_0_r. exact Hdrop.
      - rewrite length_drop. lia.
      - unfold loop_fuel. unfold len in Hfit. lia.
      - apply Forall_lookup. intros i x Hx.
        apply lookup_take_Some in Hx as [Hx Hi]. rewrite lookup_drop in Hx.
        unfold seg_of. cbn [EndOffset].
        destruct (e + 1 <? length bl)%nat eqn:E1.
        + apply Nat.ltb_lt in E1.
          destruct (lookup_lt_is_Some_2 tr (e + 1)) as [te Hte]; [lia|].
          destruct (bounds_ok_lookup _ _ _ _ _ Hbl Hte) as (be & Hbe & Hbeo & _).
          rewrite Hbe. simpl default. rewrite Hbeo.
          apply (run_from_increasing task stop cur0 0 tr (s + i) (e + 1) x te Hrun);
            [lia|exact Hx|exact Hte].
        + pose proof (run_from_offsets _ _ _ _ _ Hrun) as Hoff.
          rewrite Forall_lookup in Hoff. specialize (Hoff _ _ Hx). simpl in Hoff. lia.
      - unfold seg_of. cbn [StartBlockIndex]. rewrite Hb. simpl default.
        rewrite Hbi. reflexivity.
      - unfold seg_of. cbn [NumBlocks]. lia. }
    exists (chunks (take n (drop s tr)) :: rs). split.
    + simpl. rewrite Hseg, Hrs. reflexivity.
    + simpl. rewrite Hcat, <- chunks_app. f_equal.
      replace (S e) with (s + n)%nat by lia.
      rewrite <- drop_drop. apply take_drop.
Qed.

End TruncatedScan.

Section Equivalence.
Context {cipher : BlockCipher} {decoder : Lzma2Decoder} {hasher : Sha256}.
Import structures crypto parser extractor.

(** What the segmenter makes of a scan that found the blocks of a run. *)
Lemma segmented_data_run (task : FileTask) (S : Z) (stop : Z)
    (tr : list (Z * list byte)) (bl : list BlockBoundary) (acc : Z) :
  let file := FileInfo_ task in
  let offsetStart := int_wrap (Offset file) in
  let offsetEnd := int_add offsetStart (int_wrap (Length file)) in
  1 <= S < 2 ^ 63 ->
  runs.run_from task stop offsetStart 0 tr -> stop <= offsetEnd ->
  scan_loop (loop_fuel task) (Region6Data task) offsetEnd offsetStart 0 0 []
  = Ok (bl, acc) ->
  runs.bounds_ok 0 tr bl ->
  segmented_data task S
  = match tr with
    | [] => Err (MsgWrap "failed to split file" (Msg "no valid blocks found"))
    | _ :: _ => Ok (runs.chunks tr)
    end.
Proof.
  intros file offsetStart offsetEnd HS Hrun Hstop Hscan Hbl.
  pose proof (bounds_ok_length _ _ _ Hbl) as Hlen.
  unfold segmented_data, splitFileIntoSegments.
  fold file offsetStart offsetEnd. rewrite Hscan. cbn [bind fst snd].
  destruct tr as [|t tr'].
  - destruct bl; [|discriminate Hlen]. reflexivity.
  - set (tr := t :: tr') in *.
    assert (length bl <> 0%nat) as HB by (rewrite Hlen; simpl; lia).
    destruct (partition_loop_cover offsetEnd bl S (acc / uint64_wrap S)
                (length bl) 0%nat [] 0%nat 0)
      as (segs & Hpart & Hcov); [lia|lia|lia|].
    destruct (run_segments_cover_to task offsetEnd stop _ _ _ Hrun Hstop Hbl _ _ Hcov)
      as (rs & Hrs & Hcat).
    destruct (length bl =? 0)%nat eqn:E0; [apply Nat.eqb_eq in E0; lia|].
    assert (uint64_wrap S = S) as HSw.
    { unfold uint64_wrap. apply Z.mod_small. lia. }
    rewrite HSw in *.
    destruct (S =? 0) eqn:ES; [apply Z.eqb_eq in ES; lia|].
    cbn [app] in Hpart.
    rewrite Hpart. cbn [wrapf bind]. rewrite Hrs. cbn [wrapf bind].
    rewrite Hcat, drop_0. reflexivity.
Qed.

(** C1 (amended) -- segmenter equivalence: for every file entry on which the
    sequential per-block loop succeeds over at least one block, and every
    segment count [S >= 1], the segmented processing (boundary scan,
    partition, per-segment decrypt-decompress with key index
    [KeyIndex + StartBlockIndex + j], concatenation in segment order)
    succeeds with exactly the bytes of the sequential loop.  For an entry
    that owns no block the sequential loop yields the empty output and the
    segmenter the error [no valid blocks found].  When the sequential steps
    succeed on the blocks before an offset [stop] inside the entry and no
    block header can be read at [stop] (112 bytes from there do not fit in
    Region 6, or do not parse), the sequential loop fails, while the
    boundary scan stops there with the boundaries of the blocks before
    [stop], and the segmenter yields the bytes of these blocks, or [no valid
    blocks found] when there is none. *)
Theorem C1_segmenter_equivalence (task : FileTask) (S : Z) :
  let file := FileInfo_ task in
  let offsetStart := int_wrap (Offset file) in
  let offsetEnd := int_add offsetStart (int_wrap (Length file)) in
  1 <= S < 2 ^ 63 ->
  (* the sequential loop succeeds over at least one block *)
  (forall data,
     offsetStart < offsetEnd ->
     sequential_data task = Ok data ->
     segmented_data task S = Ok data)
  (* the entry owns no block *)
  /\ (offsetEnd <= offsetStart ->
      sequential_data task = Ok []
      /\ segmented_data task S
         = Err (MsgWrap "failed to split file" (Msg "no valid blocks found")))
  (* no block header can be read at [stop], after the blocks [tr] *)
  /\ (forall stop tr,
        runs.run_to task stop offsetStart 0 tr ->
        stop < offsetEnd ->
        runs.header_fails task stop ->
        (sequential_data task = Panic \/ exists e, sequential_data task = Err e)
        /\ (exists bl acc,
              scan_loop (loop_fuel task) (Region6Data task) offsetEnd
                        offsetStart 0 0 [] = Ok (bl, acc)
              /\ runs.bounds_ok 0 tr bl)
        /\ segmented_data task S
           = match tr with
             | [] => Err (MsgWrap "failed to split file"
                            (Msg "no valid blocks found"))
             | _ :: _ => Ok (runs.chunks tr)
             end).
Proof.
  intros file offsetStart offsetEnd HS.
  pose proof (int_wrap_range (Offset file)) as Hr. fold offsetStart in Hr.
  split; [|split].
  - intros data Hne Hseq.
    unfold sequential_data in Hseq. fold file offsetStart offsetEnd in Hseq.
    destruct (sequential_loop_run task offsetEnd (loop_fuel task) offsetStart
                0%nat [] data)
      as (tr & Hrun & Hdata); [lia|lia|exact Hseq|].
    simpl in Hdata.
    assert (tr <> []) as Hnil.
    { intros ->. inversion Hrun. lia. }
    destruct (run_from_fits _ _ _ _ _ Hrun Hnil) as [H0 Hfit].
    destruct (scan_loop_run task offsetEnd _ _ _ Hrun (loop_fuel task) 0 [])
      as (bl & acc' & Hscan & Hbl).
    { unfold loop_fuel. unfold len in Hfit. lia. }
    rewrite (segmented_data_run task S offsetEnd tr bl acc' HS Hrun
               ltac:(fold file offsetStart offsetEnd; lia) Hscan Hbl).
    destruct tr; [congruence|]. rewrite Hdata. reflexivity.
  - intros Hle. split.
    + unfold sequential_data, loop_fuel. cbn [sequential_loop].
      fold file. fold offsetStart. fold offsetEnd.
      destruct (offsetStart <? offsetEnd) eqn:E; [zbool; lia|]. reflexivity.
    + unfold segmented_data, splitFileIntoSegments, loop_fuel. cbn [scan_loop].
      fold file. fold offsetStart. fold offsetEnd.
      destruct (offsetStart <? offsetEnd) eqn:E; [zbool; lia|]. reflexivity.
  - intros stop tr Hto Hlt Hf. split.
    + pose proof (sequential_loop_run_to task offsetEnd stop _ _ _ Hto
                    ltac:(lia) ltac:(lia) Hlt Hf (loop_fuel task) []) as Hno.
      pose proof (sequential_loop_fuel task offsetEnd (loop_fuel task) offsetStart
                    0 [] (affordable_start task offsetStart)) as Ht.
      unfold sequential_data. fold file offsetStart offsetEnd.
      change (Z.of_nat 0) with 0 in Hno.
      destruct (sequential_loop _ _ _ _ _ _) as [d|e| |].
      * discriminate Hno.
      * right. exists e. reflexivity.
      * left. reflexivity.
      * exfalso. apply Ht. reflexivity.
    + destruct (run_to_run_from task _ _ _ _ Hto ltac:(lia) ltac:(lia))
        as [Hrun Hle].
      assert ((length tr < loop_fuel task)%nat) as Hfuel.
      { destruct tr as [|t tr']; [unfold loop_fuel; simpl; lia|].
        destruct (run_from_fits _ _ _ _ _ Hrun ltac:(discriminate)) as [H0 Hfit].
        unfold loop_fuel. unfold len in Hfit. lia. }
      destruct (scan_loop_run_to task offsetEnd _ _ _ _ Hto ltac:(lia) ltac:(lia)
                  Hlt Hf (loop_fuel task) 0 [] Hfuel)
        as (bl & acc' & Hscan & Hbl).
      split; [exists bl, acc'; split; [exact Hscan | exact Hbl]|].
      apply (segmented_data_run task S stop tr bl acc' HS Hrun
               ltac:(fold file offsetStart offsetEnd; lia) Hscan Hbl).
Qed.

End Equivalence.

(** * Further properties of the code

    Error and edge behaviour, invariants and independence properties read off
    the sources, for the functions above and for those they call. *)

(** ** More on the AES-CBC unit and the KeyMap accessor *)

Section MoreCryptoFacts.
Context {cipher : BlockCipher}.
Import structures crypto.

Lemma byte_to_of_Z z : 0 <= z < 256 -> byte_to_Z (byte_of_Z z) = z.
Proof.
  intros Hz. unfold byte_to_Z, byte_of_Z.
  rewrite Z.mod_small by lia.
  destruct (Byte.of_N (Z.to_N z)) as [b|] eqn:E.
  - apply Byte.to_of_N in E. rewrite E. lia.
  - exfalso. pose proof (Byte.of_N_None_iff (Z.to_N z)) as [H _].
    specialize (H E). lia.
Qed.

Lemma copy_at_length dst pos src :
  (pos <= length dst)%nat -> length (copy_at dst pos src) = length dst.
Proof.
  intros Hp. unfold copy_at.
  rewrite !length_app, !length_take, length_drop. lia.
Qed.

Lemma removePKCS7Padding_stripped (data : list byte) :
  exists stripped : list byte,
    data = removePKCS7Padding data ++ stripped
    /\ len stripped <= 16
    /\ Forall (fun x => byte_to_Z x = len stripped) stripped.
Proof.
  unfold removePKCS7Padding.
  destruct (last data) as [b|] eqn:Hl.
  2:{ exists []. rewrite app_nil_r. repeat split; [unfold len; simpl; lia | constructor]. }
  destruct ((byte_to_Z b =? 0) || (byte_to_Z b >? 16) || (byte_to_Z b >? len data)) eqn:E.
  { exists []. rewrite app_nil_r. repeat split; [unfold len; simpl; lia | constructor]. }
  apply orb_false_elim in E as [E E3]. apply orb_false_elim in E as [E1 E2].
  zbool. pose proof (byte_to_Z_range b) as Hb.
  destruct (forallb _ _) eqn:E4.
  2:{ exists []. rewrite app_nil_r. repeat split; [unfold len; simpl; lia | constructor]. }
  exists (drop (Z.to_nat (len data - byte_to_Z b)) data).
  assert (len (drop (Z.to_nat (len data - byte_to_Z b)) data) = byte_to_Z b) as Hlen.
  { unfold len in *. rewrite length_drop. lia. }
  split; [symmetry; apply take_drop|]. split; [lia|].
  rewrite Hlen. apply Forall_forall. intros x Hx.
  rewrite forallb_forall in E4. apply list_elem_of_In in Hx.
  specialize (E4 x Hx). apply bool_decide_eq_true in E4. subst x.
  rewrite byte_of_to_Z. reflexivity.
Qed.

(** X1 -- PKCS#7 stripping removes padding only: what [removePKCS7Padding]
    takes off is nothing, or [p] bytes of value [p] with [1 <= p <= 16]; the
    result is a prefix of the input. *)
Theorem X1_unpad_prefix (data : list byte) :
  exists stripped : list byte,
    data = removePKCS7Padding data ++ stripped
    /\ len stripped <= 16
    /\ Forall (fun x => byte_to_Z x = len stripped) stripped.
Proof. apply removePKCS7Padding_stripped. Qed.

(** X2 -- unpad after pad: stripping undoes PKCS#7 padding of every length
    from 1 to 16. *)
Theorem X2_unpad_inverts_pad (data : list byte) (p : Z) :
  1 <= p <= 16 ->
  removePKCS7Padding (data ++ replicate (Z.to_nat p) (byte_of_Z p)) = data.
Proof.
  intros Hp.
  set (pad := replicate (Z.to_nat p) (byte_of_Z p)).
  assert (length pad = Z.to_nat p) as Hpad by apply length_replicate.
  assert (byte_to_Z (byte_of_Z p) = p) as Hb by (apply byte_to_of_Z; lia).
  assert (len (data ++ pad) = len data + p) as Hlen.
  { unfold len. rewrite length_app, Hpad. lia. }
  rewrite (removePKCS7Padding_strip _ (byte_of_Z p)).
  - rewrite Hb, Hlen.
    replace (Z.to_nat (len data + p - p)) with (length data) by (unfold len; lia).
    apply take_app_length.
  - unfold pad. destruct (Z.to_nat p) as [|n] eqn:En; [lia|].
    rewrite replicate_S_end, app_assoc. apply last_snoc.
  - lia.
  - rewrite Hb, Hlen. pose proof (len_nonneg data). lia.
  - unfold padded_with. rewrite Hb, Hlen.
    replace (Z.to_nat (len data + p - p)) with (length data) by (unfold len; lia).
    rewrite drop_app_length. apply Forall_replicate. reflexivity.
Qed.

(** X3 -- what the AES-CBC unit accepts: exactly the well-sized inputs (a
    key of 16, 24 or 32 bytes, an IV of 16, a ciphertext of a multiple of 16,
    [nil] counting as zeros of the default size); it tests the key before
    the IV and the IV before the data, and returns a plaintext that is at
    most 16 bytes shorter than the ciphertext and never longer. *)
Theorem X3_aes_cbc_accepts (ct : list byte) (key iv : option (list byte)) :
  let k := default (zeros 32) key in
  let v := default (zeros 16) iv in
  let key_ok := len k = 16 \/ len k = 24 \/ len k = 32 in
  (is_ok (DecryptAESCBC ct key iv) = true
   <-> key_ok /\ len v = 16 /\ len ct mod 16 = 0)
  /\ (~ key_ok -> DecryptAESCBC ct key iv = Err (Msg "invalid key size"))
  /\ (key_ok -> len v <> 16 ->
      DecryptAESCBC ct key iv = Err (Msg "invalid IV size"))
  /\ (key_ok -> len v = 16 -> len ct mod 16 <> 0 ->
      DecryptAESCBC ct key iv
      = Err (Msg "encrypted data size is not a multiple of AES block size"))
  /\ (forall pt, DecryptAESCBC ct key iv = Ok pt ->
        len ct - 16 <= len pt <= len ct).
Proof.
  intros k v key_ok.
  assert (Z.rem (len ct) 16 = len ct mod 16) as Hrem.
  { apply Z.rem_mod_nonneg; [apply len_nonneg | lia]. }
  assert (DecryptAESCBC ct key iv =
          if negb ((len k =? 16) || (len k =? 24) || (len k =? 32))
          then Err (Msg "invalid key size")
          else if negb (len v =? 16) then Err (Msg "invalid IV size")
          else if negb (len ct mod 16 =? 0)
          then Err (Msg "encrypted data size is not a multiple of AES block size")
          else Ok (removePKCS7Padding (CryptBlocks k v ct))) as Hdef.
  { unfold DecryptAESCBC. rewrite Hrem. destruct key, iv; reflexivity. }
  rewrite Hdef. unfold key_ok.
  destruct (len k =? 16) eqn:K1; destruct (len k =? 24) eqn:K2;
    destruct (len k =? 32) eqn:K3; destruct (len v =? 16) eqn:V;
    destruct (len ct mod 16 =? 0) eqn:D; simpl; zbool;
    (split; [split; [intros; try discriminate; lia | intros; try reflexivity; lia] |]);
    (split; [intros; try reflexivity; lia |]);
    (split; [intros; try reflexivity; lia |]);
    (split; [intros; try reflexivity; lia |]);
    intros pt Hpt; try discriminate;
    apply Ok_inj in Hpt; subst pt;
    destruct (removePKCS7Padding_stripped (CryptBlocks k v ct)) as (st & Hst & Hl & _);
    assert (len (CryptBlocks k v ct) = len ct) as Hc
      by (unfold len; f_equal; apply CryptBlocks_length; [exact V | rewrite Hrem; exact D]);
    apply (f_equal len) in Hst; rewrite len_app in Hst;
    pose proof (len_nonneg st); lia.
Qed.

Lemma ExtractKey_length (km : go_slice) (index : Z) (key : list byte) :
  ExtractKeyFromKeyMap km index = Ok key -> length key = 32%nat.
Proof.
  unfold ExtractKeyFromKeyMap.
  destruct (len (elems km) =? 0); [discriminate|].
  set (keyOffset := if _ >=? _ then _ else _).
  destruct (int_add keyOffset 32 >? len (elems km)).
  - intros H.
    apply bind_ok_inv in H as (firstPart & _ & H).
    apply bind_ok_inv in H as (secondPart & _ & H).
    apply bind_ok_inv in H as (chk & Hchk & H).
    apply Ok_inj in H. subst key.
    apply slice_expr_inv in Hchk as (_ & Hle & _).
    assert (length (copy_at (zeros 32) 0 firstPart) = 32%nat) as H32.
    { rewrite copy_at_length; [apply length_replicate | lia]. }
    rewrite copy_at_length; [exact H32|].
    unfold len in Hle. lia.
  - intros H.
    apply bind_ok_inv in H as (part & _ & H).
    apply Ok_inj in H. subst key.
    rewrite copy_at_length; [apply length_replicate | lia].
Qed.

(** X4 -- key length: a key the accessor returns has 32 bytes, whatever the
    table, its spare capacity and the index. *)
Theorem X4_key_has_32_bytes (km : go_slice) (index : Z) (key : list byte) :
  ExtractKeyFromKeyMap km index = Ok key -> length key = 32%nat.
Proof. apply ExtractKey_length. Qed.

(** Two indices whose byte offsets agree modulo the length of the table
    give the same result. *)
Lemma ExtractKey_same_offset (km : go_slice) (index index' : Z) :
  let n := len (elems km) in
  0 <= index -> index * 32 + 32 < 2 ^ 63 ->
  0 <= index' -> index' * 32 + 32 < 2 ^ 63 ->
  (index * 32) mod n = (index' * 32) mod n ->
  ExtractKeyFromKeyMap km index' = ExtractKeyFromKeyMap km index.
Proof.
  intros n Hi Hb Hi' Hb' Hmod.
  unfold ExtractKeyFromKeyMap. fold n.
  destruct (n =? 0) eqn:En; [reflexivity|]. zbool.
  assert (0 < n) as Hn by (pose proof (len_nonneg (elems km)); unfold n in *; lia).
  pose proof (code_offset (elems km) index Hn Hi Hb) as H1.
  pose proof (code_offset (elems km) index' Hn Hi' Hb') as H2.
  cbv zeta in H1, H2. fold n in H1, H2.
  rewrite H1, H2. unfold spec.key_offset. fold n. rewrite Hmod. reflexivity.
Qed.

(** X5 -- the key table is circular: the index may be shifted by any
    multiple of the length of the table, and by any multiple of [len / 32]
    when the table is made of whole keys; the result is the same, errors and
    panics included. *)
Theorem X5_keymap_periodic (km : go_slice) (index k : Z) :
  let n := len (elems km) in
  0 <= index -> 0 <= k -> (index + k * n) * 32 + 32 < 2 ^ 63 ->
  ExtractKeyFromKeyMap km (index + k * n) = ExtractKeyFromKeyMap km index
  /\ (n mod 32 = 0 ->
      ExtractKeyFromKeyMap km (index + k * (n / 32))
      = ExtractKeyFromKeyMap km index).
Proof.
  intros n Hi Hk Hb. pose proof (len_nonneg (elems km)) as Hn. fold n in Hn.
  split.
  - apply ExtractKey_same_offset; try nia.
    fold n. replace ((index + k * n) * 32) with (index * 32 + (32 * k) * n) by ring.
    destruct (Z.eq_dec n 0) as [->|Hne].
    + rewrite !Z.mod_0_r. ring.
    + symmetry. apply Z_mod_plus_full.
  - intros H32.
    assert (n = 32 * (n / 32)) as Hdiv.
    { pose proof (Z.div_mod n 32). lia. }
    assert (0 <= n / 32) as Hq by (apply Z.div_pos; lia).
    apply ExtractKey_same_offset; try nia.
    fold n.
    replace ((index + k * (n / 32)) * 32) with (index * 32 + k * (32 * (n / 32))) by ring.
    rewrite <- Hdiv.
    destruct (Z.eq_dec n 0) as [->|Hne].
    + rewrite !Z.mod_0_r. ring.
    + symmetry. apply Z_mod_plus_full.
Qed.

(** An index below zero makes the accessor panic on every non-empty table:
    the offset is negative and is used as a slice bound. *)
Lemma ExtractKey_negative (km : go_slice) (index : Z) :
  elems km <> [] -> - 2 ^ 58 <= index < 0 ->
  ExtractKeyFromKeyMap km index = Panic.
Proof.
  intros Hne Hi. unfold ExtractKeyFromKeyMap.
  assert (0 < len (elems km)) as Hn.
  { unfold len. destruct (elems km); [congruence | simpl; lia]. }
  destruct (len (elems km) =? 0) eqn:E; [zbool; lia|].
  unfold int_mul. rewrite int_wrap_small by lia.
  destruct (index * 32 >=? len (elems km)) eqn:E1; [zbool; lia|].
  assert (forall hi, reslice km (index * 32) hi = Panic) as Hp.
  { intros hi. unfold reslice, slice_expr.
    destruct (0 <=? index * 32) eqn:E2; [zbool; lia | reflexivity]. }
  destruct (_ >? _); rewrite Hp; reflexivity.
Qed.

End MoreCryptoFacts.

(** ** More on the block decrypter and the block loops *)

Lemma bind_err_inv {A B} (r : result A) (k : A -> result B) e :
  bind r k = Err e -> r = Err e \/ exists a, r = Ok a /\ k a = Err e.
Proof.
  destruct r; simpl; intros H; try discriminate;
    [right; eexists; split; [reflexivity|exact H] | left; congruence].
Qed.

Lemma wrapf_err_inv {A} text (r : result A) e :
  wrapf text r = Err e -> exists cause, r = Err cause /\ e = MsgWrap text cause.
Proof. destruct r; simpl; intros H; try discriminate. injection H as <-. eauto. Qed.

Section MoreBlockFacts.
Context {cipher : BlockCipher} {decoder : Lzma2Decoder} {hasher : Sha256}.
Import structures crypto parser extractor.

Lemma GetIV_length data header :
  ParseNTEncodeHeader data = Ok header -> length (GetIV header) = 16%nat.
Proof.
  unfold ParseNTEncodeHeader.
  destruct (len data <? 112) eqn:E; [discriminate|]. zbool.
  destruct (negb _); [discriminate|].
  intros [= <-]. unfold GetIV, field. simpl.
  rewrite !length_take, length_drop. unfold len in E. lia.
Qed.

(** X6 -- AES failures in the block loops: a step of either loop that fails
    in the AES unit fails for one reason only, the size of the ciphertext;
    the key has 32 bytes and the IV 16, so the two size errors of the unit
    cannot occur. *)
Theorem X6_block_aes_failure (task : FileTask) (where_ : string)
    (keyIndex cur : Z) (e : msg) :
  process_block task where_ keyIndex cur
  = Err (MsgWrap ("decryption failed" +:+ where_)
           (MsgWrap "AES decryption failed" e)) ->
  e = Msg "encrypted data size is not a multiple of AES block size".
Proof.
  unfold process_block. intros H.
  apply bind_err_inv in H as [H|(key & Hk & H)].
  { apply wrapf_err_inv in H as (c & _ & H). simpl in H. discriminate. }
  apply wrapf_ok_inv in Hk. apply ExtractKey_length in Hk.
  apply bind_err_inv in H as [H|(blk & _ & H)].
  2:{ apply bind_err_inv in H as [H|(d & _ & H)]; [|discriminate].
      apply wrapf_err_inv in H as (c & _ & H). simpl in H. discriminate. }
  apply wrapf_err_inv in H as (c & H & Hc).
  injection Hc as Hc. subst c.
  unfold DecryptNTEncodeBlock in H.
  destruct (cur >=? _); [discriminate|].
  destruct (int_add cur 112 >? _); [discriminate|].
  apply bind_err_inv in H as [H|(hdr & _ & H)].
  { unfold slice_expr in H. destruct (_ && _); discriminate. }
  apply bind_err_inv in H as [H|(header & Hh & H)].
  { apply wrapf_err_inv in H as (c & _ & H). discriminate. }
  apply wrapf_ok_inv in Hh. apply GetIV_length in Hh.
  destruct (_ >? _); [discriminate|].
  apply bind_err_inv in H as [H|(enc & _ & H)].
  { unfold slice_expr in H. destruct (_ && _); discriminate. }
  apply bind_err_inv in H as [H|(dec & _ & H)]; [|discriminate].
  apply wrapf_err_inv in H as (c & H & Hc). injection Hc as ->.
  unfold DecryptAESCBC in H.
  replace (len key) with 32 in H by (unfold len; lia).
  replace (len (GetIV header)) with 16 in H by (unfold len; lia).
  simpl in H. destruct (negb _); congruence.
Qed.

(** X7 -- crashes of the block decrypter: a negative offset whose header
    would fit, and a header whose [original_size] is [2^63] or more (a
    negative [int]), make [DecryptNTEncodeBlock] panic on a slice bound
    instead of returning an error. *)
Theorem X7_block_decrypter_panics (region6Data : list byte) (offset : Z)
    (key : option (list byte)) :
  len region6Data < 2 ^ 63 ->
  (- 2 ^ 63 <= offset < 0 -> offset + 112 <= len region6Data ->
   DecryptNTEncodeBlock region6Data offset key = Panic)
  /\ (forall hdr header,
        slice_expr region6Data offset (offset + 112) = Ok hdr ->
        ParseNTEncodeHeader hdr = Ok header ->
        2 ^ 63 <= OriginalSize header ->
        DecryptNTEncodeBlock region6Data offset key = Panic).
Proof.
  intros Hlen. pose proof (len_nonneg region6Data) as Hn. split.
  - intros Ho Hfit. unfold DecryptNTEncodeBlock.
    destruct (offset >=? len region6Data) eqn:E0; [zbool; lia|].
    unfold int_add at 1. rewrite int_wrap_small by lia.
    destruct (offset + 112 >? len region6Data) eqn:E1; [zbool; lia|].
    unfold slice_expr at 1.
    destruct (0 <=? offset) eqn:E2; [zbool; lia|]. reflexivity.
  - intros hdr header Hs Hp Hbig.
    pose proof (ParseNTEncodeHeader_size _ _ Hp) as Hsz.
    pose proof Hs as Hs'.
    apply slice_expr_inv in Hs' as (Ho & _ & Hhi & _ & _).
    unfold DecryptNTEncodeBlock.
    destruct (offset >=? len region6Data) eqn:E0; [zbool; lia|].
    assert (int_add offset 112 = offset + 112) as Ha.
    { unfold int_add. apply int_wrap_small. lia. }
    rewrite Ha.
    destruct (offset + 112 >? len region6Data) eqn:E1; [zbool; lia|].
    rewrite Hs. cbn [bind]. rewrite Hp. cbn [wrapf bind].
    destruct (int_wrap_cases _ Hsz) as [Hw|[_ Hw]];
      [pose proof (int_wrap_range (OriginalSize header)); lia|].
    rewrite Hw.
    assert (int_add (offset + 112) (OriginalSize header - 2 ^ 64)
            = offset + 112 + OriginalSize header - 2 ^ 64) as Hb.
    { unfold int_add.
      replace (offset + 112 + (OriginalSize header - 2 ^ 64))
        with (offset + 112 + OriginalSize header - 2 ^ 64) by ring.
      apply int_wrap_small. lia. }
    rewrite Hb.
    destruct (offset + 112 + OriginalSize header - 2 ^ 64 >? len region6Data) eqn:E2;
      [zbool; lia|].
    unfold slice_expr at 1.
    destruct (0 <=? offset + 112) eqn:E3; [|zbool; lia].
    destruct (offset + 112 <=? offset + 112 + OriginalSize header - 2 ^ 64) eqn:E4;
      [zbool; lia|].
    reflexivity.
Qed.

(** *** The boundary scan on a block of size zero *)

Lemma scan_loop_stuck (region6Data : list byte) (offsetEnd cur : Z) hdr header :
  0 <= cur < offsetEnd -> len region6Data < 2 ^ 63 ->
  slice_expr region6Data cur (cur + 112) = Ok hdr ->
  ParseNTEncodeHeader hdr = Ok header ->
  OriginalSize header = 2 ^ 64 - 112 ->
  forall fuel k acc bs,
    scan_loop fuel region6Data offsetEnd cur k acc bs = OutOfFuel.
Proof.
  intros Hc Hlen Hs Hp Hsz.
  pose proof Hs as Hs'. apply slice_expr_inv in Hs' as (_ & _ & Hhi & _ & _).
  assert (int_add cur 112 = cur + 112) as Ha.
  { unfold int_add. apply int_wrap_small. lia. }
  assert (int_add cur (int_add 112 (int_wrap (OriginalSize header))) = cur) as Hback.
  { rewrite Hsz. change (int_add 112 (int_wrap (2 ^ 64 - 112))) with 0.
    unfold int_add. rewrite Z.add_0_r. apply int_wrap_small. lia. }
  induction fuel as [|fuel IH]; intros k acc bs; [reflexivity|].
  cbn [scan_loop].
  destruct (cur <? offsetEnd) eqn:E0; [|zbool; lia].
  rewrite Ha.
  destruct (cur + 112 >? len region6Data) eqn:E1; [zbool; lia|].
  rewrite Hs. cbn [bind]. rewrite Hp. rewrite Hback. apply IH.
Qed.

(** X8 -- a boundary scan that never ends: a header that declares
    [original_size = 2^64 - 112] gives a block of [112 + int(original_size)
    = 0] bytes, so the scan of [splitFileIntoSegments] stays at its offset
    and records the same boundary again and again; no amount of fuel is
    enough, and the segmented path returns nothing. *)
Theorem X8_scan_never_ends (task : FileTask) hdr header :
  let file := FileInfo_ task in
  let offsetStart := int_wrap (Offset file) in
  let offsetEnd := int_add offsetStart (int_wrap (Length file)) in
  0 <= offsetStart < offsetEnd -> len (Region6Data task) < 2 ^ 63 ->
  slice_expr (Region6Data task) offsetStart (offsetStart + 112) = Ok hdr ->
  ParseNTEncodeHeader hdr = Ok header ->
  OriginalSize header = 2 ^ 64 - 112 ->
  (forall fuel k acc bs,
     scan_loop fuel (Region6Data task) offsetEnd offsetStart k acc bs = OutOfFuel)
  /\ (forall numSegments, splitFileIntoSegments task numSegments = OutOfFuel)
  /\ (forall numSegments, segmented_data task numSegments = OutOfFuel).
Proof.
  intros file offsetStart offsetEnd Hc Hlen Hs Hp Hsz.
  pose proof (scan_loop_stuck _ offsetEnd _ _ _ Hc Hlen Hs Hp Hsz) as Hstuck.
  assert (forall n, splitFileIntoSegments task n = OutOfFuel) as Hsplit.
  { intros n. unfold splitFileIntoSegments.
    fold file. fold offsetStart. fold offsetEnd. rewrite Hstuck. reflexivity. }
  repeat split; [exact Hstuck | exact Hsplit |].
  intros n. unfold segmented_data. rewrite Hsplit. reflexivity.
Qed.

(** *** Entries without blocks, tables without keys, indices below zero *)

(** X9 -- entries without blocks: an entry that owns no byte ([offset +
    length <= offset] as [int]s) is an empty file on the sequential path
    and the error [no valid blocks found] on the segmented one, whatever
    Region 6 and the KeyMap hold. *)
Theorem X9_empty_entry (task : FileTask) (numSegments : Z) :
  let file := FileInfo_ task in
  let offsetStart := int_wrap (Offset file) in
  let offsetEnd := int_add offsetStart (int_wrap (Length file)) in
  offsetEnd <= offsetStart ->
  sequential_data task = Ok []
  /\ splitFileIntoSegments task numSegments = Err (Msg "no valid blocks found")
  /\ segmented_data task numSegments
     = Err (MsgWrap "failed to split file" (Msg "no valid blocks found")).
Proof.
  intros file offsetStart offsetEnd Hle.
  assert (splitFileIntoSegments task numSegments = Err (Msg "no valid blocks found"))
    as Hsplit.
  { unfold splitFileIntoSegments, loop_fuel. cbn [scan_loop].
    fold file. fold offsetStart. fold offsetEnd.
    destruct (offsetStart <? offsetEnd) eqn:E; [zbool; lia|]. reflexivity. }
  repeat split.
  - unfold sequential_data, loop_fuel. cbn [sequential_loop].
    fold file. fold offsetStart. fold offsetEnd.
    destruct (offsetStart <? offsetEnd) eqn:E; [zbool; lia|]. reflexivity.
  - exact Hsplit.
  - unfold segmented_data. rewrite Hsplit. reflexivity.
Qed.

(** X10 -- empty KeyMap: with an empty key table every entry that owns a
    block fails at its first block with [failed to extract key: keymap data
    is empty], and so does every segment that has a block to process. *)
Theorem X10_empty_keymap (task : FileTask) :
  let file := FileInfo_ task in
  let offsetStart := int_wrap (Offset file) in
  let offsetEnd := int_add offsetStart (int_wrap (Length file)) in
  elems (KeyMapData task) = [] ->
  offsetStart < offsetEnd ->
  sequential_data task
  = Err (MsgWrap "failed to extract key" (Msg "keymap data is empty"))
  /\ (forall segment,
        StartOffset segment < EndOffset segment -> 0 < NumBlocks segment ->
        processSegment task segment
        = Err (MsgWrap "failed to extract key" (Msg "keymap data is empty"))).
Proof.
  intros file offsetStart offsetEnd Hkm Hlt.
  assert (forall i, ExtractKeyFromKeyMap (KeyMapData task) i
                    = Err (Msg "keymap data is empty")) as Hk.
  { intros i. unfold ExtractKeyFromKeyMap. rewrite Hkm. reflexivity. }
  split.
  - unfold sequential_data, loop_fuel. cbn [sequential_loop].
    fold file. fold offsetStart. fold offsetEnd.
    destruct (offsetStart <? offsetEnd) eqn:E; [|zbool; lia].
    unfold process_block. rewrite Hk. reflexivity.
  - intros segment Hs Hb. unfold processSegment, loop_fuel. cbn [segment_loop].
    destruct (StartOffset segment <? EndOffset segment) eqn:E1; [|zbool; lia].
    destruct (0 <? NumBlocks segment) eqn:E2; [|zbool; lia].
    cbn [andb]. unfold process_block. rewrite Hk. reflexivity.
Qed.

(** X11 -- negative key index: an entry with a negative [KeyIndex] that owns
    a block makes the accessor panic on its first block (the offset is
    negative and is used as a slice bound), which crashes the worker. *)
Theorem X11_negative_key_index (task : FileTask) (w : world) :
  let file := FileInfo_ task in
  let offsetStart := int_wrap (Offset file) in
  let offsetEnd := int_add offsetStart (int_wrap (Length file)) in
  elems (KeyMapData task) <> [] ->
  - 2 ^ 58 <= KeyIndex file < 0 ->
  offsetStart < offsetEnd ->
  ExtractKeyFromKeyMap (KeyMapData task) (KeyIndex file) = Panic
  /\ sequential_data task = Panic
  /\ (UseSegmented task = false ->
      filepath.Dir (output_path task) ∉ denied w ->
      (worker task w).1 = Panic).
Proof.
  intros file offsetStart offsetEnd Hkm Hk Hlt.
  pose proof (ExtractKey_negative _ _ Hkm Hk) as Hp.
  assert (sequential_data task = Panic) as Hseq.
  { unfold sequential_data, loop_fuel. cbn [sequential_loop].
    fold file. fold offsetStart. fold offsetEnd.
    destruct (offsetStart <? offsetEnd) eqn:E; [|zbool; lia].
    unfold process_block.
    replace (int_add (KeyIndex file) 0) with (KeyIndex file).
    - rewrite Hp. reflexivity.
    - unfold int_add. rewrite Z.add_0_r. symmetry. apply int_wrap_small. lia. }
  repeat split; [exact Hp | exact Hseq |].
  intros Hu Hd. rewrite worker_unfold. unfold MkdirAll.
  rewrite bool_decide_eq_false_2 by exact Hd.
  unfold assembled. rewrite Hu, Hseq. reflexivity.
Qed.

End MoreBlockFacts.

(** ** The segmenter: what every split looks like *)

Section MoreSegmenterFacts.
Import structures crypto parser extractor runs.

(** The scan appends boundaries: the first at the cursor, numbered from
    [k] on, fewer than the fuel. *)
Lemma scan_loop_boundaries (region6Data : list byte) (offsetEnd : Z) :
  forall fuel cur k acc bs bl acc',
    - 2 ^ 63 <= k < 2 ^ 63 ->
    scan_loop fuel region6Data offsetEnd cur k acc bs = Ok (bl, acc') ->
    exists new,
      bl = bs ++ new
      /\ (length new < fuel)%nat
      /\ (forall b, head new = Some b -> B_Offset b = cur)
      /\ (forall i b, new !! i = Some b -> B_BlockIndex b = int_add k (Z.of_nat i)).
Proof.
  induction fuel as [|fuel IH]; intros cur k acc bs bl acc' Hk H; [discriminate|].
  cbn [scan_loop] in H.
  assert (forall bs0 acc0, Ok (bs0, acc0) = Ok (bl, acc') ->
            exists new, bl = bs0 ++ new /\ (length new < S fuel)%nat
              /\ (forall b, head new = Some b -> B_Offset b = cur)
              /\ (forall i b, new !! i = Some b
                              -> B_BlockIndex b = int_add k (Z.of_nat i))) as Hdone.
  { intros bs0 acc0 Heq. apply Ok_inj in Heq. injection Heq as <- <-.
    exists []. rewrite app_nil_r. repeat split; simpl; try lia; intros; discriminate. }
  destruct (cur <? offsetEnd); [|apply Hdone in H; exact H].
  destruct (int_add cur 112 >? len region6Data); [apply Hdone in H; exact H|].
  apply bind_ok_inv in H as (hdr & _ & H).
  destruct (ParseNTEncodeHeader hdr) as [header| | |];
    [|apply Hdone in H; exact H|discriminate|discriminate].
  apply IH in H as (new & -> & Hlen & _ & Hidx).
  2:{ apply int_wrap_range. }
  exists ({| B_Offset := cur; B_BlockIndex := k; AccumulatedSize := acc |} :: new).
  split; [rewrite <- app_assoc; reflexivity|].
  split; [simpl; lia|]. split.
  - intros b [= <-]. reflexivity.
  - intros [|i] b Hb.
    + injection Hb as <-. simpl. unfold int_add. rewrite Z.add_0_r.
      symmetry. apply int_wrap_small. exact Hk.
    + simpl in Hb. rewrite (Hidx _ _ Hb), int_add_assoc. f_equal. lia.
Qed.

(** At most [numSegments - 1] segments are closed before the last block;
    the last block closes one more. *)
Lemma partition_loop_count (bl : list BlockBoundary)
    (offsetEnd numSegments target : Z) :
  forall todo i segments s css out,
    (i + todo = length bl)%nat ->
    partition_loop todo bl offsetEnd numSegments target i segments s css = Ok out ->
    Z.of_nat (length out)
    <= Z.max (Z.of_nat (length segments)) (int_sub numSegments 1)
       + (if todo is O then 0 else 1).
Proof.
  induction todo as [|todo IH]; intros i segments s css out Hi H.
  - apply Ok_inj in H. subst out. lia.
  - cbn [partition_loop] in H.
    apply bind_ok_inv in H as (css' & _ & H).
    destruct ((Z.of_nat (length segments) <? int_sub numSegments 1)
              && (css' >=? target)) eqn:Eshould.
    + cbn [orb] in H.
      apply bind_ok_inv in H as (b & _ & H).
      apply bind_ok_inv in H as (ends & _ & H).
      apply IH in H; [|lia]. rewrite length_app in H. simpl in H.
      apply andb_true_iff in Eshould as [E _]. zbool.
      destruct todo; lia.
    + cbn [orb] in H.
      destruct (i =? length bl - 1)%nat eqn:Elast.
      * apply bind_ok_inv in H as (b & _ & H).
        apply bind_ok_inv in H as (ends & _ & H).
        destruct todo as [|todo].
        -- apply Ok_inj in H. subst out. rewrite length_app. simpl. lia.
        -- apply Nat.eqb_eq in Elast. lia.
      * apply IH in H; [|lia]. destruct todo; lia.
Qed.

(** What a cover is made of. *)
Lemma cover_head offsetEnd bl s segs :
  cover offsetEnd bl s segs -> (s < length bl)%nat ->
  exists e rest,
    segs = seg_of offsetEnd bl s e :: rest /\ (s <= e < length bl)%nat.
Proof. intros Hc Hs. inversion Hc; subst; [lia|]. eauto. Qed.

Lemma cover_blocks offsetEnd bl s segs :
  cover offsetEnd bl s segs ->
  (s <= length bl)%nat
  /\ Forall (fun seg => 1 <= NumBlocks seg) segs
  /\ fold_right Z.add 0 (map NumBlocks segs) = Z.of_nat (length bl) - Z.of_nat s.
Proof.
  induction 1 as [|s e rest He _ (IH1 & IH2 & IH3)].
  - repeat split; [lia | constructor | simpl; lia].
  - repeat split; [lia | constructor; [simpl; lia | exact IH2] |].
    simpl. rewrite IH3. lia.
Qed.

Lemma cover_last offsetEnd bl s segs seg :
  cover offsetEnd bl s segs -> last segs = Some seg -> EndOffset seg = offsetEnd.
Proof.
  induction 1 as [|s e rest He Hc IH]; [discriminate|].
  destruct rest as [|x rest].
  - intros [= <-]. inversion Hc as [Hlen|]; subst. simpl.
    destruct (e + 1 <? length bl)%nat eqn:E; [apply Nat.ltb_lt in E; lia | reflexivity].
  - intros Hl. apply IH. exact Hl.
Qed.

Lemma cover_adjacent offsetEnd bl s segs i a b :
  cover offsetEnd bl s segs -> segs !! i = Some a -> segs !! S i = Some b ->
  exists sa ea eb,
    a = seg_of offsetEnd bl sa ea /\ b = seg_of offsetEnd bl (S ea) eb
    /\ (sa <= ea)%nat /\ (S ea <= eb < length bl)%nat.
Proof.
  intros Hc. revert i. induction Hc as [|s e rest He Hc IH]; intros i Ha Hb;
    [discriminate|].
  destruct i as [|i].
  - injection Ha as <-. simpl in Hb.
    inversion Hc as [|s' e' rest' He' Hc']; subst; [discriminate|].
    injection Hb as <-. exists s, e, e'. repeat split; lia.
  - simpl in Ha, Hb. eapply IH; eassumption.
Qed.

Lemma cover_elem offsetEnd bl s segs seg :
  cover offsetEnd bl s segs -> seg ∈ segs ->
  exists sa ea, seg = seg_of offsetEnd bl sa ea /\ (sa <= ea < length bl)%nat.
Proof.
  induction 1 as [|s e rest He Hc IH]; intros Hin.
  - apply elem_of_nil in Hin. contradiction.
  - apply elem_of_cons in Hin as [->|Hin]; [eauto | apply IH, Hin].
Qed.

(** X12 -- shape of a split: every list of segments [splitFileIntoSegments]
    returns is a partition of the blocks the scan found into consecutive,
    non-empty segments: at least one and at most [numSegments] of them, the
    first starting at the entry's offset with block 0, each one starting
    where the previous one ends (in bytes and in block numbers), the last
    one ending at the entry's end, each one starting at the boundary of its
    first block. *)
Theorem X12_split_partition (task : FileTask) (numSegments : Z)
    (segments : list Segment) :
  let file := FileInfo_ task in
  let offsetStart := int_wrap (Offset file) in
  let offsetEnd := int_add offsetStart (int_wrap (Length file)) in
  1 <= numSegments < 2 ^ 63 ->
  len (Region6Data task) < 2 ^ 63 ->
  splitFileIntoSegments task numSegments = Ok segments ->
  1 <= Z.of_nat (length segments) <= numSegments
  /\ (exists first, head segments = Some first
        /\ StartOffset first = offsetStart /\ StartBlockIndex first = 0)
  /\ (exists final, last segments = Some final /\ EndOffset final = offsetEnd)
  /\ (forall i a b,
        segments !! i = Some a -> segments !! S i = Some b ->
        StartOffset b = EndOffset a
        /\ StartBlockIndex b = StartBlockIndex a + NumBlocks a)
  /\ Forall (fun seg => 1 <= NumBlocks seg) segments
  /\ exists boundaries accumulatedSize,
       scan_loop (loop_fuel task) (Region6Data task) offsetEnd offsetStart 0 0 []
       = Ok (boundaries, accumulatedSize)
       /\ fold_right Z.add 0 (map NumBlocks segments)
          = Z.of_nat (length boundaries)
       /\ Forall (fun seg =>
                    exists b, boundaries !! Z.to_nat (StartBlockIndex seg) = Some b
                              /\ B_Offset b = StartOffset seg) segments.
Proof.
  intros file offsetStart offsetEnd HS Hlen Hsplit.
  unfold splitFileIntoSegments in Hsplit.
  fold file in Hsplit. fold offsetStart in Hsplit. fold offsetEnd in Hsplit.
  apply bind_ok_inv in Hsplit as ([bl acc] & Hscan & Hsplit).
  cbn [fst snd] in Hsplit.
  destruct (length bl =? 0)%nat eqn:E0; [discriminate|]. apply Nat.eqb_neq in E0.
  destruct (uint64_wrap numSegments =? 0); [discriminate|].
  pose proof (partition_loop_count bl offsetEnd numSegments
                (acc / uint64_wrap numSegments) (length bl) 0 [] 0 0 segments
                ltac:(reflexivity) Hsplit)
    as Hcount.
  destruct (partition_loop_cover offsetEnd bl numSegments
              (acc / uint64_wrap numSegments) (length bl) 0 [] 0 0)
    as (rest & Hpart & Hcov); [lia | lia | lia |].
  rewrite Hpart in Hsplit. apply Ok_inj in Hsplit. simpl in Hsplit. subst rest.
  pose proof Hscan as Hb.
  apply scan_loop_boundaries in Hb as (new & Hnew & Hfuel & Hfirst & Hidx); [|lia].
  simpl in Hnew. subst new. unfold loop_fuel in Hfuel.
  assert (forall i b, bl !! i = Some b -> B_BlockIndex b = Z.of_nat i) as Hnum.
  { intros i b Hi. rewrite (Hidx _ _ Hi). unfold int_add. simpl.
    apply int_wrap_small. apply lookup_lt_Some in Hi. unfold len in Hlen. lia. }
  assert (forall s e, (s < length bl)%nat ->
            exists b, bl !! s = Some b
              /\ StartOffset (seg_of offsetEnd bl s e) = B_Offset b
              /\ StartBlockIndex (seg_of offsetEnd bl s e) = Z.of_nat s) as Hseg.
  { intros s e Hs. destruct (lookup_lt_is_Some_2 bl s Hs) as [b Hb].
    exists b. unfold seg_of. rewrite Hb. simpl. repeat split.
    apply Hnum, Hb. }
  destruct (cover_head _ _ _ _ Hcov) as (e0 & rest & -> & He0); [lia|].
  destruct (cover_blocks _ _ _ _ Hcov) as (_ & Hpos & Hsum).
  split.
  { split; [simpl; lia|].
    unfold int_sub in Hcount. rewrite int_wrap_small in Hcount by lia.
    destruct (length bl); simpl in *; lia. }
  split.
  { eexists. split; [reflexivity|].
    destruct (Hseg 0%nat e0) as (b & Hb & -> & ->); [lia|]. split; [|reflexivity].
    apply Hfirst. destruct bl; [discriminate|]. simpl in *. congruence. }
  split.
  { destruct (last (seg_of offsetEnd bl 0 e0 :: rest)) as [final|] eqn:El.
    - exists final. split; [reflexivity|]. eapply cover_last; eassumption.
    - apply last_None in El. discriminate. }
  split.
  { intros i a b Ha Hb.
    destruct (cover_adjacent _ _ _ _ _ _ _ Hcov Ha Hb)
      as (sa & ea & eb & -> & -> & Hle & Hlt).
    destruct (Hseg (S ea) eb) as (bn & Hbn & -> & ->); [lia|].
    destruct (Hseg sa ea) as (ba & Hba & _ & ->); [lia|].
    unfold seg_of at 1. cbn [EndOffset NumBlocks].
    destruct (ea + 1 <? length bl)%nat eqn:E; [|apply Nat.ltb_ge in E; lia].
    replace (ea + 1)%nat with (S ea) by lia. rewrite Hbn. simpl. split; [reflexivity|lia]. }
  split; [exact Hpos|].
  exists bl, acc. split; [exact Hscan|]. split; [rewrite Hsum; lia|].
  apply Forall_forall. intros seg Hin.
  destruct (cover_elem _ _ _ _ _ Hcov Hin) as (sa & ea & -> & Hr).
  destruct (Hseg sa ea) as (b & Hb & -> & ->); [lia|].
  rewrite Nat2Z.id. eauto.
Qed.

Lemma calculateOptimalSegments_cases (a : Z) :
  (a < 524288000 /\ calculateOptimalSegments a = 1)
  \/ (524288000 <= a < 1073741824 /\ calculateOptimalSegments a = 4)
  \/ (1073741824 <= a < 2147483648 /\ calculateOptimalSegments a = 8)
  \/ (2147483648 <= a < 4294967296 /\ calculateOptimalSegments a = 12)
  \/ (4294967296 <= a /\ calculateOptimalSegments a = 16).
Proof.
  unfold calculateOptimalSegments, GB, MB.
  destruct (a <? 500 * (1024 * 1024)) eqn:E1;
    [zbool; left; split; [lia|reflexivity]|].
  destruct (a <? 1 * (1024 * (1024 * 1024))) eqn:E2;
    [zbool; right; left; split; [lia|reflexivity]|].
  destruct (a <? 2 * (1024 * (1024 * 1024))) eqn:E3;
    [zbool; do 2 right; left; split; [lia|reflexivity]|].
  destruct (a <? 4 * (1024 * (1024 * 1024))) eqn:E4;
    [zbool; do 3 right; left; split; [lia|reflexivity]|].
  zbool. do 4 right. split; [lia|reflexivity].
Qed.

(** X13 -- segment count: [calculateOptimalSegments] grows with the size in
    steps, 1 below 500 MiB, then 4, 8, 12 and 16; a task is segmented
    exactly from 500 MiB on, and then into at least four segments. *)
Theorem X13_segment_count_steps (a b : Z) :
  a <= b ->
  calculateOptimalSegments a <= calculateOptimalSegments b
  /\ calculateOptimalSegments a ∈ [1; 4; 8; 12; 16]
  /\ (calculateOptimalSegments a = 1 <-> a < 500 * MB)
  /\ (forall region6Data keyMapData outputDir file,
        PartitionLength file = a ->
        let task := makeTask region6Data keyMapData outputDir file in
        (UseSegmented task = true <-> 500 * MB <= a)
        /\ (UseSegmented task = true -> 4 <= NumSegments task)).
Proof.
  intros Hab. change (500 * MB) with 524288000.
  pose proof (calculateOptimalSegments_cases a) as Ha.
  pose proof (calculateOptimalSegments_cases b) as Hb.
  split; [lia|]. split.
  { rewrite !elem_of_cons. lia. }
  split; [lia|].
  intros region6Data keyMapData outputDir file Hfile task.
  unfold task, makeTask. cbn [UseSegmented NumSegments]. rewrite Hfile.
  destruct (calculateOptimalSegments a >? 1) eqn:E; zbool;
    (split; [split; intros; try discriminate; try reflexivity; lia
            | intros; try discriminate; lia]).
Qed.

End MoreSegmenterFacts.

(** ** File tasks: decompression header, hash length and frame *)

Lemma EqualFold_length s t :
  EqualFold s t = true -> String.length s = String.length t.
Proof.
  revert t. induction s as [|a s IH]; intros [|b t]; simpl; try discriminate.
  - reflexivity.
  - intros H. apply andb_true_iff in H as [_ H]. f_equal. apply IH, H.
Qed.

Lemma EncodeToString_length (src : list byte) :
  String.length (hex.EncodeToString src) = (2 * length src)%nat.
Proof. induction src as [|b src IH]; simpl; [reflexivity | rewrite IH; lia]. Qed.

Section MoreTaskFacts.
Context {cipher : BlockCipher} {decoder : Lzma2Decoder} {hasher : Sha256}.
Import structures crypto parser extractor.


(** X15 -- length of the expected hash: [verifyHash] can succeed only if the
    expected hash has 64 characters; an entry whose [FileSha256Hash] is
    empty or truncated fails the check whatever its data, and is never
    written. *)
Theorem X15_hash_needs_64_chars (task : FileTask) (w : world) :
  String.length (FileSha256Hash (FileInfo_ task)) <> 64%nat ->
  (forall data, verifyHash data (FileSha256Hash (FileInfo_ task)) = false)
  /\ (forall fr w', worker task w = (Ok fr, w') ->
        Success fr = false /\ files w' = files w).
Proof.
  intros Hlen.
  assert (forall data, verifyHash data (FileSha256Hash (FileInfo_ task)) = false) as Hv.
  { intros data. destruct (verifyHash _ _) eqn:E; [|reflexivity]. exfalso.
    unfold verifyHash in E. apply EqualFold_length in E.
    rewrite EncodeToString_length, Sum256_length in E. simpl in E. congruence. }
  split; [exact Hv|].
  intros fr w'. rewrite worker_unfold.
  destruct (MkdirAll _ w) as [w1|] eqn:Hmk.
  2:{ intros [= <- <-]. split; reflexivity. }
  apply MkdirAll_files in Hmk.
  destruct (assembled task) as [data|e| |]; try discriminate.
  - unfold verify_and_write. rewrite Hv. cbn [negb].
    intros [= <- <-]. split; [reflexivity|exact Hmk].
  - intros [= <- <-]. split; [reflexivity|exact Hmk].
Qed.



End MoreTaskFacts.

(** ** Stage 1: region types, region sizes and the files it writes *)

Section MoreWalkFacts.
Context {cipher : BlockCipher}.
Import structures crypto parser.

Lemma fmt_d_digit (n : Z) (d : N) :
  fmt_d n = pretty d -> Z.to_N n = d.
Proof. unfold fmt_d. apply pretty_N_inj. Qed.

(** The registry has keys for the region types 1 to 5 and for no other. *)
Lemma GetKeyForRegion_none (regionType : Z) :
  ~ 1 <= regionType <= 5 -> GetKeyForRegion DefaultAESDict regionType = "".
Proof.
  intros Hout. unfold GetKeyForRegion.
  destruct (Keys DefaultAESDict !! _) as [key|] eqn:E; [|reflexivity].
  exfalso. apply elem_of_list_to_map_2 in E.
  assert (forall d : N, "" +:+ fmt_d regionType = pretty d -> Z.to_N regionType = d)
    as Hd by (intros d; apply fmt_d_digit).
  repeat (apply elem_of_cons in E as [E|E];
          [ injection E as E _;
            first [ apply (Hd 1%N) in E | apply (Hd 2%N) in E | apply (Hd 3%N) in E
                  | apply (Hd 4%N) in E | apply (Hd 5%N) in E ]; lia |]).
  apply elem_of_nil in E. exact E.
Qed.

Lemma GetKeyIVForRegion_unknown (regionType : Z) :
  ~ 1 <= regionType <= 5 ->
  GetKeyIVForRegion regionType DefaultAESDict
  = Err (Msg "key or IV not found for region").
Proof.
  intros H. unfold GetKeyIVForRegion.
  rewrite (GetKeyForRegion_none _ H). reflexivity.
Qed.

(** X18 -- region types with keys: the built-in key set serves the region
    types 1 to 5, each with a 32-byte key and a 16-byte IV, and no other
    type; a region is decrypted exactly when its type is one of these and
    its size a multiple of 16. *)
Theorem X18_region_key_domain (regionType : Z) :
  (1 <= regionType <= 5 ->
   exists key iv,
     GetKeyIVForRegion regionType DefaultAESDict = Ok (key, iv)
     /\ length key = 32%nat /\ length iv = 16%nat)
  /\ (~ 1 <= regionType <= 5 ->
      GetKeyIVForRegion regionType DefaultAESDict
      = Err (Msg "key or IV not found for region"))
  /\ (forall encryptedData,
        is_ok (DecryptRegionData encryptedData regionType DefaultAESDict) = true
        <-> 1 <= regionType <= 5 /\ len encryptedData mod 16 = 0).
Proof.
  split; [apply GetKeyIVForRegion_known|].
  split; [apply GetKeyIVForRegion_unknown|].
  intros ct. unfold DecryptRegionData.
  destruct (Z_le_dec 1 regionType) as [H1|H1];
    [destruct (Z_le_dec regionType 5) as [H5|H5]|].
  - destruct (GetKeyIVForRegion_known regionType) as (key & iv & -> & Hk & Hi);
      [lia|].
    cbn [bind fst snd]. unfold DecryptAESCBC.
    replace (len key) with 32 by (unfold len; lia).
    replace (len iv) with 16 by (unfold len; lia).
    cbn [Z.eqb orb negb Pos.eqb].
    rewrite Z.rem_mod_nonneg by (try apply len_nonneg; lia).
    destruct (len ct mod 16 =? 0) eqn:E; simpl; zbool;
      split; intros; try discriminate; try reflexivity; try lia.
  - rewrite GetKeyIVForRegion_unknown by lia. simpl.
    split; [discriminate | lia].
  - rewrite GetKeyIVForRegion_unknown by lia. simpl.
    split; [discriminate | lia].
Qed.

Lemma DecryptAESCBC_ok_rem ct key iv pt :
  DecryptAESCBC ct key iv = Ok pt -> len ct mod 16 = 0.
Proof.
  unfold DecryptAESCBC.
  destruct (negb _); [discriminate|].
  destruct (negb (len _ =? 16)); [discriminate|].
  destruct (negb (Z.rem _ _ =? 0)) eqn:Er; [discriminate|].
  intros _. apply negb_false_iff, Z.eqb_eq in Er.
  rewrite Z.rem_mod_nonneg in Er by (try apply len_nonneg; lia). exact Er.
Qed.

Lemma extractRegion_type fileData region offset outputDir w r w' :
  extractRegion fileData region offset outputDir DefaultAESDict w = (Ok r, w') ->
  1 <= RegionType region <= 6.
Proof.
  intros Hx. apply extractRegion_ok_inv in Hx as (regionData & _ & Hcase).
  destruct Hcase as [(H6 & _)|(Hn6 & dec & bh & actual & Hd & _)]; [lia|].
  unfold DecryptRegionData in Hd.
  apply bind_ok_inv in Hd as ([key iv] & Hk & Hd).
  destruct (Z_le_dec 1 (RegionType region));
    [destruct (Z_le_dec (RegionType region) 5); [lia|]|];
    rewrite GetKeyIVForRegion_unknown in Hk by lia; discriminate.
Qed.

(** X19 -- regions Stage 1 accepts: a step of the walk that succeeds was
    given a region of a type from 1 to 6 lying inside the archive and, for
    the encrypted types, of a size that is a multiple of 16 and at least 48
    (a 40-byte block header after padding). *)
Theorem X19_region_accepted (fileData : list byte) (region : RegionHeader)
    (offset : Z) (outputDir : string) (w : world)
    (r : Z * option RegionHeader) (w' : world) :
  0 <= RegionSize region < 2 ^ 64 ->
  extractRegion fileData region offset outputDir DefaultAESDict w = (Ok r, w') ->
  1 <= RegionType region <= 6
  /\ 0 <= offset
  /\ offset + RegionSize region <= len fileData
  /\ (RegionType region <> 6 ->
      RegionSize region mod 16 = 0 /\ 48 <= RegionSize region).
Proof.
  intros Hsz Hx.
  apply extractRegion_ok_inv in Hx as (regionData & Hs & Hcase).
  apply slice_expr_inv in Hs as (Ho & Hle & Hhi & _ & Hlen).
  pose proof (int_wrap_range (offset + int_wrap (RegionSize region))) as Hr.
  fold (int_add offset (int_wrap (RegionSize region))) in Hr.
  destruct (end_offset_no_wrap offset (RegionSize region)) as [Hend Hb];
    [lia | exact Hsz | exact Hle |].
  rewrite Hend in *.
  destruct Hcase as [(H6 & _)|(Hn6 & dec & bh & actual & Hd & H40 & _)].
  - repeat split; try lia.
  - unfold DecryptRegionData in Hd.
    apply bind_ok_inv in Hd as ([key iv] & Hk & Hd).
    assert (1 <= RegionType region <= 5) as Ht.
    { destruct (Z_le_dec 1 (RegionType region));
        [destruct (Z_le_dec (RegionType region) 5); [lia|]|];
        rewrite GetKeyIVForRegion_unknown in Hk by lia; discriminate. }
    clear Hk.
    pose proof (DecryptAESCBC_ok_rem _ _ _ _ Hd) as Hrem.
    pose proof (DecryptAESCBC_ok_len _ _ _ _ Hd) as Hl.
    repeat split; try lia.
    + rewrite <- Hrem. f_equal. lia.
    + assert (len regionData mod 16 = 0) as Hm by exact Hrem.
      replace (len regionData) with (RegionSize region) in * by lia.
      pose proof (Z.div_mod (RegionSize region) 16). lia.
Qed.

(** A step of the walk changes one file at most, and none when it fails. *)
Lemma extractRegion_frame fileData region offset outputDir keyDict w r w' :
  extractRegion fileData region offset outputDir keyDict w = (r, w') ->
  w' = w
  \/ exists res data,
       r = Ok res
       /\ w' = {| files := <[ filepath.Join outputDir
                                (if RegionType region =? 6 then "region6block.bin"
                                 else region_file (RegionType region)) := data ]>
                            (files w);
                  dirs := dirs w; denied := denied w; warnings := warnings w |}.
Proof.
  destruct r as [res|e| |].
  - intros H. right. apply extractRegion_ok_inv in H as (regionData & _ & Hcase).
    destruct Hcase as [(H6 & _ & Hw)|(Hn6 & dec & bh & actual & _ & _ & _ & _ & Hw & _)].
    + rewrite H6. cbn [Z.eqb Pos.eqb]. exists res, regionData. split; [reflexivity|].
      unfold WriteFile in Hw. destruct (bool_decide _); [discriminate|].
      injection Hw as <-. reflexivity.
    + apply Z.eqb_neq in Hn6. rewrite Hn6. exists res, actual. split; [reflexivity|].
      unfold WriteFile in Hw. destruct (bool_decide _); [discriminate|].
      injection Hw as <-. reflexivity.
  - intros H. left. unfold extractRegion in H.
    repeat match type of H with
    | (if ?c then _ else _) = _ => destruct c
    | match ?x with _ => _ end = _ => destruct x
    | (let '(_, _) := ?x in _) = _ => destruct x
    end; congruence.
  - intros H. left. unfold extractRegion in H.
    repeat match type of H with
    | (if ?c then _ else _) = _ => destruct c
    | match ?x with _ => _ end = _ => destruct x
    | (let '(_, _) := ?x in _) = _ => destruct x
    end; congruence.
  - intros H. left. unfold extractRegion in H.
    repeat match type of H with
    | (if ?c then _ else _) = _ => destruct c
    | match ?x with _ => _ end = _ => destruct x
    | (let '(_, _) := ?x in _) = _ => destruct x
    end; congruence.
Qed.

(** The names Stage 1 saves regions under. *)
Local Abbreviation stage1_names :=
  ["Metadata.xml"; "Patch.xml"; "RawProgram.xml"; "KeyMap.bin"; "FileIndex.xml";
   "region6block.bin"].

Lemma region_walk_frame fileData outputDir :
  forall fuel region offset w r w',
    region_walk fuel fileData outputDir DefaultAESDict region offset w = (r, w') ->
    dirs w' = dirs w /\ denied w' = denied w
    /\ forall path,
         path ∉ (filepath.Join outputDir <$> stage1_names) ->
         files w' !! path = files w !! path.
Proof.
  induction fuel as [|fuel IH]; intros region offset w r w' H.
  { injection H as <- <-. auto. }
  cbn [region_walk] in H.
  destruct (extractRegion fileData region offset outputDir DefaultAESDict w)
    as [r1 w1] eqn:Hx.
  assert (dirs w1 = dirs w /\ denied w1 = denied w
          /\ forall path,
               path ∉ (filepath.Join outputDir <$> stage1_names) ->
               files w1 !! path = files w !! path) as (Hd1 & Hn1 & Hf1).
  { destruct (extractRegion_frame _ _ _ _ _ _ _ _ Hx) as [->|(res & data & -> & ->)];
      [auto|].
    cbn [dirs denied files]. repeat split. intros path Hp.
    apply lookup_insert_ne. intros <-. apply Hp.
    apply extractRegion_type in Hx.
    assert (RegionType region = 1 \/ RegionType region = 2 \/ RegionType region = 3
            \/ RegionType region = 4 \/ RegionType region = 5
            \/ RegionType region = 6) as [->|[->|[->|[->|[->| ->]]]]] by lia;
      cbn [fmap list_fmap]; rewrite !elem_of_cons; tauto. }
  destruct r1 as [[nextOffset [next|]]|e| |];
    try (injection H as <- <-; auto; fail).
  destruct (nextOffset =? -1); [injection H as <- <-; auto|].
  apply IH in H as (Hd & Hn & Hf).
  rewrite Hd, Hn. repeat split; try assumption.
  intros path Hp. rewrite (Hf path Hp). apply Hf1, Hp.
Qed.

(** X20 -- frame of Stage 1: [ParseNTPIFile] writes under six names in its
    output directory and nowhere else; every other file is as it was (the
    input archive included, unless it bears one of those names); it asks
    for no directory but the output directory and changes neither
    permissions nor warnings. *)
Theorem X20_stage1_frame (filePath outputDir : string) (w : world)
    (r : result unit) (w' : world) :
  ParseNTPIFile filePath outputDir w = (r, w') ->
  denied w' = denied w
  /\ warnings w' = warnings w
  /\ (dirs w' = dirs w \/ dirs w' = dirs w ∪ {[ outputDir ]})
  /\ forall path,
       path ∉ (filepath.Join outputDir <$>
                 ["Metadata.xml"; "Patch.xml"; "RawProgram.xml"; "KeyMap.bin";
                  "FileIndex.xml"; "region6block.bin"]) ->
       files w' !! path = files w !! path.
Proof.
  unfold ParseNTPIFile.
  destruct (ReadFile filePath w) as [fileData|]; [|intros [= <- <-]; auto].
  destruct (ParseNTPIHeader fileData) as [header|e| |];
    try (intros [= <- <-]; auto; fail).
  rewrite GetAESDictForVersion_total.
  unfold MkdirAll. destruct (bool_decide (outputDir ∈ denied w));
    [intros [= <- <-]; auto|].
  intros H. pose proof (region_walk_warnings _ _ _ _ _ _ _ _ _ H) as Hw.
  apply region_walk_frame in H as (Hd & Hn & Hf).
  cbn [dirs denied files warnings] in *. auto.
Qed.


End MoreWalkFacts.

(** ** Nested region headers *)

Section HeaderFacts.
Import structures.

Lemma read_RegionHeader_drop data n :
  read_RegionHeader (drop n data) 0 = read_RegionHeader data n.
Proof.
  unfold read_RegionHeader, le_field, field.
  rewrite !drop_drop. rewrite !Nat.add_0_r, Nat.add_0_l.
  reflexivity.
Qed.

(** X22 -- nested region headers: the region headers inside the file header
    and inside a region block header are laid out as the stand-alone 16-byte
    region header is, so [ParseRegionHeader] on the bytes from their place
    on gives the same header; it refuses fewer than 16 bytes and its fields
    are unsigned 64-bit values. *)
Theorem X22_nested_region_headers (data : list byte) :
  (forall header, ParseNTPIHeader data = Ok header ->
     ParseRegionHeader (drop 32 data) = Ok (FirstRegion header))
  /\ (forall blockHeader, ParseRegionBlockHeader data = Ok blockHeader ->
        ParseRegionHeader data = Ok (ThisHeader blockHeader)
        /\ ParseRegionHeader (drop 16 data) = Ok (NextHeader blockHeader))
  /\ (forall header, ParseRegionHeader data = Ok header ->
        16 <= len data
        /\ 0 <= RegionType header < 2 ^ 64 /\ 0 <= RegionSize header < 2 ^ 64)
  /\ (len data < 16 ->
      ParseRegionHeader data = Err (Msg "data too small for region header")).
Proof.
  assert (forall n, len (drop n data) = len data - Z.of_nat (Nat.min n (length data)))
    as Hdrop.
  { intros n. unfold len. rewrite length_drop. lia. }
  split; [|split; [|split]].
  - intros header H. unfold ParseNTPIHeader in H.
    destruct (len data <? 48) eqn:E; [discriminate|]. zbool.
    destruct (negb _); [discriminate|]. injection H as <-.
    unfold ParseRegionHeader. rewrite Hdrop.
    destruct (_ <? 16) eqn:E1; [zbool; unfold len in *; lia|].
    rewrite read_RegionHeader_drop. reflexivity.
  - intros blockHeader H. unfold ParseRegionBlockHeader in H.
    destruct (len data <? 40) eqn:E; [discriminate|]. zbool.
    injection H as <-. unfold ParseRegionHeader. split.
    + destruct (_ <? 16) eqn:E1; [zbool; lia|]. reflexivity.
    + rewrite Hdrop.
      destruct (_ <? 16) eqn:E1; [zbool; unfold len in *; lia|].
      rewrite read_RegionHeader_drop. reflexivity.
  - intros header H. unfold ParseRegionHeader in H.
    destruct (len data <? 16) eqn:E; [discriminate|]. zbool.
    injection H as <-. split; [exact E|]. split; apply le_field_u64.
  - intros Hl. unfold ParseRegionHeader.
    destruct (len data <? 16) eqn:E; [reflexivity|]. zbool. lia.
Qed.

End HeaderFacts.

(** ** Names on the progress bars *)

Lemma string_length_app (a b : string) :
  String.length (a +:+ b) = (String.length a + String.length b)%nat.
Proof. induction a as [|c a IH]; simpl; [reflexivity | rewrite IH; reflexivity]. Qed.

Lemma substring_length (s : string) :
  forall n m, (n + m <= String.length s)%nat ->
              String.length (String.substring n m s) = m.
Proof.
  induction s as [|c s IH]; intros [|n] [|m] H; simpl in *; try lia; try reflexivity.
  - rewrite IH by lia. reflexivity.
  - apply IH. lia.
  - apply IH. lia.
Qed.

Lemma substring_prefix (s : string) :
  forall a n, (a <= n)%nat -> (n <= String.length s)%nat ->
    String.substring 0 a s = String.substring 0 a (String.substring 0 n s).
Proof.
  induction s as [|c s IH]; intros [|a] [|n] Ha Hn; simpl in *;
    try lia; try reflexivity.
  f_equal. apply IH; lia.
Qed.

Lemma get_Some_lt (s : string) : forall i c, String.get i s = Some c -> (i < String.length s)%nat.
Proof.
  induction s as [|d s IH]; intros [|i] c H; simpl in *; try discriminate; try lia.
  apply IH in H. lia.
Qed.

Lemma ext_scan_suffix (path : string) :
  forall n, (n <= String.length path)%nat ->
    filepath.ext_scan path n = ""
    \/ exists i, (i < n)%nat
         /\ filepath.ext_scan path n
            = String.substring i (String.length path - i) path.
Proof.
  induction n as [|n IH]; intros Hn; simpl; [left; reflexivity|].
  destruct (String.get n path) as [c|]; [|left; reflexivity].
  destruct (bool_decide (c = "/"%char)); [left; reflexivity|].
  destruct (bool_decide (c = "."%char)).
  - right. exists n. split; [lia | reflexivity].
  - destruct IH as [->|(i & Hi & ->)]; [lia | left; reflexivity |].
    right. exists i. split; [lia | reflexivity].
Qed.

(** The extension is a suffix of the path. *)
Lemma Ext_suffix (path : string) :
  exists i, (i <= String.length path)%nat
    /\ filepath.Ext path = String.substring i (String.length path - i) path
    /\ String.length (filepath.Ext path) = (String.length path - i)%nat.
Proof.
  unfold filepath.Ext.
  destruct (ext_scan_suffix path (String.length path)) as [E|(i & Hi & E)]; [lia| |].
  - exists (String.length path). rewrite E, Nat.sub_diag. split; [lia|].
    split; [|reflexivity].
    clear. induction path as [|c p IH]; simpl; [reflexivity | exact IH].
  - exists i. rewrite E. split; [lia|]. split; [reflexivity|].
    apply substring_length. lia.
Qed.

Section NameFacts.
Import extractor.

(** X23 -- names on the progress bars: [truncateFileName] (and
    [truncateFileNameSegment], the same code) shows a name that fits as it
    is and cuts a longer one to exactly [maxLen] bytes: a prefix of the
    name, three dots, and the extension when it leaves room for them.  With
    [maxLen] below 3 a name that does not fit makes the function panic. *)
Theorem X23_truncate_file_name (filename : string) (maxLen : Z) :
  slen filename < 2 ^ 63 -> - 2 ^ 62 <= maxLen < 2 ^ 63 ->
  (slen filename <= maxLen -> truncateFileName filename maxLen = Ok filename)
  /\ (maxLen < slen filename -> 3 <= maxLen ->
      exists head,
        String.substring 0 (String.length head) filename = head
        /\ truncateFileName filename maxLen
           = Ok (head +:+ "..." +:+
                 (if slen (filepath.Ext filename) <? maxLen - 3
                  then filepath.Ext filename else ""))
        /\ slen (head +:+ "..." +:+
                 (if slen (filepath.Ext filename) <? maxLen - 3
                  then filepath.Ext filename else "")) = maxLen)
  /\ (maxLen < slen filename -> maxLen < 3 ->
      truncateFileName filename maxLen = Panic).
Proof.
  intros Hlen Hmax.
  destruct (Ext_suffix filename) as (i & Hi & Hext & Hel).
  remember (filepath.Ext filename) as ext eqn:Hx.
  assert (slen ext = slen filename - Z.of_nat i) as Hse by (unfold slen; lia).
  clear Hext Hel.
  assert (0 <= Z.of_nat i <= slen filename) as Hn by (unfold slen; lia).
  assert (int_sub (slen filename) (slen ext) = Z.of_nat i) as Hsub.
  { unfold int_sub. rewrite int_wrap_small by lia. lia. }
  assert (int_sub maxLen 3 = maxLen - 3) as Hm3.
  { unfold int_sub. apply int_wrap_small. lia. }
  assert (string_to filename (Z.of_nat i)
          = Ok (String.substring 0 i filename)) as Hname.
  { unfold string_to.
    destruct ((0 <=? Z.of_nat i) && (Z.of_nat i <=? slen filename)) eqn:E.
    - rewrite Nat2Z.id. reflexivity.
    - apply andb_false_iff in E as [E|E]; zbool; unfold slen in *; lia. }
  assert (String.length (String.substring 0 i filename) = i) as Hnl.
  { apply substring_length. lia. }
  unfold truncateFileName. rewrite <- Hx, Hsub, Hname, Hm3. cbn [bind].
  split; [|split].
  - intros Hfit. destruct (slen filename <=? maxLen) eqn:E; [reflexivity | zbool; lia].
  - intros Hlong H3.
    destruct (slen filename <=? maxLen) eqn:E; [zbool; lia|].
    destruct (slen ext >=? maxLen - 3) eqn:E1; zbool.
    + destruct (slen ext <? maxLen - 3) eqn:E2; [zbool; lia|].
      exists (String.substring 0 (Z.to_nat (maxLen - 3)) filename).
      assert (String.length (String.substring 0 (Z.to_nat (maxLen - 3)) filename)
              = Z.to_nat (maxLen - 3)) as Hl.
      { apply substring_length. unfold slen in *. lia. }
      rewrite Hl. split; [reflexivity|].
      split.
      * unfold string_to.
        destruct ((0 <=? maxLen - 3) && (maxLen - 3 <=? slen filename)) eqn:E3.
        -- reflexivity.
        -- apply andb_false_iff in E3 as [E3|E3]; zbool; lia.
      * unfold slen. rewrite !string_length_app, Hl. simpl. lia.
    + destruct (slen ext <? maxLen - 3) eqn:E2; [|zbool; lia].
      assert (int_sub (int_sub maxLen (slen ext)) 3 = maxLen - slen ext - 3) as Ha.
      { unfold int_sub. rewrite (int_wrap_small (maxLen - slen ext)) by lia.
        apply int_wrap_small. lia. }
      rewrite Ha.
      set (allowed := Z.to_nat (maxLen - slen ext - 3)).
      assert (allowed <= i)%nat as Hai by (unfold allowed; lia).
      exists (String.substring 0 allowed (String.substring 0 i filename)).
      assert (String.length (String.substring 0 allowed (String.substring 0 i filename))
              = allowed) as Hl.
      { apply substring_length. lia. }
      rewrite Hl. split.
      { apply substring_prefix; lia. }
      split.
      * unfold string_to, slen. rewrite Hnl.
        destruct ((0 <=? maxLen - Z.of_nat (String.length ext) - 3)
                  && (maxLen - Z.of_nat (String.length ext) - 3 <=? Z.of_nat i)) eqn:E3.
        -- reflexivity.
        -- apply andb_false_iff in E3 as [E3|E3]; zbool; unfold slen in *; lia.
      * unfold slen in *. rewrite !string_length_app, Hl. simpl. unfold allowed. lia.
  - intros Hlong H3.
    destruct (slen filename <=? maxLen) eqn:E; [zbool; lia|].
    destruct (slen ext >=? maxLen - 3) eqn:E1; [|zbool; unfold slen in *; lia].
    unfold string_to.
    destruct (0 <=? maxLen - 3) eqn:E2; [zbool; lia|]. reflexivity.
Qed.

End NameFacts.

(** ** An entry reads only its own blocks *)

Lemma agree_sub lo hi lo' hi' (a b : list byte) :
  agree lo hi a b -> lo <= lo' -> hi' <= hi -> agree lo' hi' a b.
Proof. intros H Hl Hh i Hi. apply H. lia. Qed.

Lemma slice_agree (a b : list byte) lo hi x y :
  agree lo hi a b -> lo <= x -> y <= hi -> y <= len a -> y <= len b ->
  slice_expr b x y = slice_expr a x y.
Proof.
  intros Hag Hx Hy Ha Hb. unfold slice_expr.
  destruct (0 <=? x) eqn:E0; [|reflexivity].
  destruct (x <=? y) eqn:E1; [|reflexivity].
  destruct (y <=? len b) eqn:E2; [|zbool; lia].
  destruct (y <=? len a) eqn:E3; [|zbool; lia].
  zbool. cbn [andb]. f_equal. apply list_eq. intros i.
  rewrite !lookup_take, !lookup_drop.
  destruct (decide (i < Z.to_nat (y - x))%nat) as [Hi|Hi]; [|reflexivity].
  symmetry. apply Hag. lia.
Qed.

(** A way to check agreement on a concrete range. *)
Lemma agree_decide (lo hi : nat) (a b : list byte) :
  forallb (fun i => bool_decide (a !! i = b !! i)) (seq lo (hi - lo)) = true ->
  agree (Z.of_nat lo) (Z.of_nat hi) a b.
Proof.
  intros H i Hi. rewrite forallb_forall in H.
  assert (In i (seq lo (hi - lo))) as Hin by (apply in_seq; lia).
  apply H in Hin. apply bool_decide_eq_true in Hin. exact Hin.
Qed.

Section LocalFacts.
Context {cipher : BlockCipher} {decoder : Lzma2Decoder} {hasher : Sha256}.
Import structures crypto parser extractor.

Lemma DecryptNTEncodeBlock_local (r6 r6' : list byte) off key next pt :
  DecryptNTEncodeBlock r6 off key = Ok (next, pt) ->
  next <= len r6' -> agree off next r6 r6' ->
  DecryptNTEncodeBlock r6' off key = Ok (next, pt).
Proof.
  intros H Hfit Hag.
  pose proof (DecryptNTEncodeBlock_ok_inv _ _ _ _ _ H)
    as (hdr & header & Hs & Hp & Ha & Hw & Hnext & Ho & Hlo & Hhi & Hb).
  assert (int_add (off + 112) (OriginalSize header) = next) as Hn.
  { unfold int_add. rewrite int_wrap_small; [lia|].
    pose proof (ParseNTEncodeHeader_size _ _ Hp). lia. }
  unfold DecryptNTEncodeBlock in *. rewrite Ha in *.
  destruct (off >=? len r6) eqn:E0; [discriminate|].
  destruct (off + 112 >? len r6) eqn:E1; [discriminate|].
  rewrite Hs in H. cbn [bind] in H. rewrite Hp in H. cbn [wrapf bind] in H.
  rewrite Hw, Hn in H.
  destruct (next >? len r6) eqn:E2; [discriminate|].
  destruct (off >=? len r6') eqn:E0'; [zbool; lia|].
  destruct (off + 112 >? len r6') eqn:E1'; [zbool; lia|].
  rewrite (slice_agree r6 r6' off next off (off + 112)), Hs by (try assumption; lia).
  cbn [bind]. rewrite Hp. cbn [wrapf bind]. rewrite Hw, Hn.
  destruct (next >? len r6') eqn:E2'; [zbool; lia|].
  rewrite (slice_agree r6 r6' off next (off + 112) next) by (try assumption; lia).
  exact H.
Qed.

Lemma process_block_local task (r6' : list byte) where_ keyIndex cur next chunk :
  process_block task where_ keyIndex cur = Ok (next, chunk) ->
  next <= len r6' -> agree cur next (Region6Data task) r6' ->
  process_block (with_region6 task r6') where_ keyIndex cur = Ok (next, chunk).
Proof.
  unfold process_block. intros H Hfit Hag. cbn [with_region6 KeyMapData Region6Data].
  apply bind_ok_inv in H as (key & Hk & H). rewrite Hk. cbn [bind].
  apply bind_ok_inv in H as ([nx pt] & Hd & H).
  apply bind_ok_inv in H as (dec & Hz & H).
  cbn [fst snd] in *. injection H as -> ->.
  apply wrapf_ok_inv in Hd.
  rewrite (DecryptNTEncodeBlock_local _ r6' _ _ _ _ Hd Hfit Hag).
  cbn [wrapf bind fst snd]. rewrite Hz. reflexivity.
Qed.

Lemma sequential_loop_local task endOffset :
  forall fuel cur idx acc data,
    sequential_loop fuel task endOffset cur idx acc = Ok data ->
    exists finish,
      endOffset <= finish
      /\ (finish = cur \/ cur + 112 <= finish <= len (Region6Data task))
      /\ forall r6',
           (cur < finish -> finish <= len r6') ->
           agree cur finish (Region6Data task) r6' ->
           sequential_loop fuel (with_region6 task r6') endOffset cur idx acc
           = Ok data.
Proof.
  induction fuel as [|fuel IH]; intros cur idx acc data H; [discriminate|].
  cbn [sequential_loop] in H.
  destruct (cur <? endOffset) eqn:E.
  - apply bind_ok_inv in H as ([next chunk] & Hstep & H). cbn [fst snd] in H.
    pose proof (process_block_ok_inv _ _ _ _ _ _ Hstep) as (Hc & Hn & Hl & _).
    apply IH in H as (finish & Hend & Hfin & Hrun).
    exists finish. split; [exact Hend|]. split; [right; lia|].
    intros r6' Hfit Hag. cbn [sequential_loop]. rewrite E.
    cbn [with_region6 FileInfo_].
    rewrite (process_block_local task r6' _ _ _ _ _ Hstep);
      [| lia | apply (agree_sub _ _ _ _ _ _ Hag); lia].
    cbn [bind fst snd]. apply Hrun; [lia|].
    apply (agree_sub _ _ _ _ _ _ Hag); lia.
  - apply Ok_inj in H. subst data. zbool.
    exists cur. split; [lia|]. split; [left; reflexivity|].
    intros r6' _ _. cbn [sequential_loop]. rewrite (proj2 (Z.ltb_ge _ _) E).
    reflexivity.
Qed.

(** X24 -- an entry reads its own blocks only: the extraction of an entry
    depends on the bytes of Region 6 from the entry's offset to the end of
    its last block and on nothing else.  In a buffer that holds the same
    bytes there, whatever lies before and after and however long it is, the
    sequential path yields the same bytes and the worker does the same. *)
Theorem X24_entry_reads_own_blocks (task : FileTask) (data : list byte) :
  let file := FileInfo_ task in
  let offsetStart := int_wrap (Offset file) in
  let offsetEnd := int_add offsetStart (int_wrap (Length file)) in
  sequential_data task = Ok data ->
  exists finish,
    offsetEnd <= finish
    /\ (finish = offsetStart
        \/ offsetStart + 112 <= finish <= len (Region6Data task))
    /\ forall region6Data',
         (offsetStart < finish -> finish <= len region6Data') ->
         agree offsetStart finish (Region6Data task) region6Data' ->
         sequential_data (with_region6 task region6Data') = Ok data
         /\ (UseSegmented task = false ->
             forall w, worker (with_region6 task region6Data') w = worker task w).
Proof.
  intros file offsetStart offsetEnd H. unfold sequential_data in H.
  fold file in H. fold offsetStart in H. fold offsetEnd in H.
  destruct (sequential_loop_local _ _ _ _ _ _ _ H) as (finish & Hend & Hfin & Hrun).
  exists finish. split; [exact Hend|]. split; [exact Hfin|].
  intros r6' Hfit Hag. specialize (Hrun r6' Hfit Hag).
  set (task' := with_region6 task r6') in *.
  assert (sequential_data task' = Ok data) as Hseq.
  { unfold sequential_data. change (FileInfo_ task') with file. cbv zeta.
    fold offsetStart. fold offsetEnd.
    set (m := Nat.max (loop_fuel task) (loop_fuel task')).
    rewrite <- (sequential_loop_more task' offsetEnd (loop_fuel task') m)
      by (try lia; apply sequential_loop_fuel, affordable_start).
    rewrite (sequential_loop_more task' offsetEnd (loop_fuel task) m)
      by (try lia; rewrite Hrun; apply terminates_ok).
    exact Hrun. }
  split; [exact Hseq|].
  intros Hu w. rewrite !worker_unfold. unfold assembled.
  change (UseSegmented task') with (UseSegmented task). rewrite Hu, Hseq.
  unfold sequential_data in H.
  fold (sequential_data task) in H.
  replace (sequential_data task) with (Ok data : result (list byte)).
  reflexivity.
Qed.

End LocalFacts.

(** ** Sizes that do not fit a positive [int] crash Stage 1 *)

Section WalkPanics.
Context {cipher : BlockCipher}.
Import structures crypto parser.

Lemma extractRegion_huge fileData region offset outputDir keyDict w :
  0 <= offset <= len fileData -> len fileData < 2 ^ 63 ->
  2 ^ 63 <= RegionSize region < 2 ^ 64 ->
  extractRegion fileData region offset outputDir keyDict w = (Panic, w).
Proof.
  intros Ho Hlen Hsz. unfold extractRegion.
  destruct (int_wrap_cases (RegionSize region)) as [Hw|[_ Hw]]; [lia | |].
  { pose proof (int_wrap_range (RegionSize region)). lia. }
  rewrite Hw.
  assert (int_add offset (RegionSize region - 2 ^ 64)
          = offset + RegionSize region - 2 ^ 64) as Ha.
  { unfold int_add.
    replace (offset + (RegionSize region - 2 ^ 64))
      with (offset + RegionSize region - 2 ^ 64) by ring.
    apply int_wrap_small. lia. }
  rewrite Ha.
  destruct (offset + RegionSize region - 2 ^ 64 >? len fileData) eqn:E; [zbool; lia|].
  unfold slice_expr.
  destruct (0 <=? offset) eqn:E0; [|zbool; lia].
  destruct (offset <=? offset + RegionSize region - 2 ^ 64) eqn:E1; [zbool; lia|].
  reflexivity.
Qed.

(** X25 -- sizes that crash Stage 1: a region header that declares a size of
    [2^63] or more makes the step slice the archive with its bounds in the
    wrong order, and a decrypted block header that declares such a
    [real_size] does the same to the decrypted buffer; the program panics
    instead of reporting the region out of bounds.  An archive whose first
    region is of this kind crashes Stage 1 once the output directory
    exists. *)
Theorem X25_stage1_panics (fileData : list byte) (outputDir : string) (w : world) :
  len fileData < 2 ^ 63 ->
  (forall region offset keyDict,
     0 <= offset <= len fileData ->
     2 ^ 63 <= RegionSize region < 2 ^ 64 ->
     extractRegion fileData region offset outputDir keyDict w = (Panic, w))
  /\ (forall region offset keyDict regionData decrypted blockHeader,
        RegionType region <> 6 ->
        slice_expr fileData offset (int_add offset (int_wrap (RegionSize region)))
        = Ok regionData ->
        DecryptRegionData regionData (RegionType region) keyDict = Ok decrypted ->
        ParseRegionBlockHeader decrypted = Ok blockHeader ->
        2 ^ 63 <= RealSize blockHeader ->
        extractRegion fileData region offset outputDir keyDict w = (Panic, w))
  /\ (forall filePath header,
        files w !! filePath = Some fileData ->
        ParseNTPIHeader fileData = Ok header ->
        2 ^ 63 <= RegionSize (FirstRegion header) ->
        outputDir ∉ denied w ->
        (ParseNTPIFile filePath outputDir w).1 = Panic).
Proof.
  intros Hlen. split; [|split].
  - intros region offset keyDict Ho Hsz. apply extractRegion_huge; assumption.
  - intros region offset keyDict regionData decrypted bh Hn6 Hs Hd Hp Hbig.
    pose proof (ParseRegionBlockHeader_u64 _ _ Hp) as [Hrs _].
    pose proof (slice_expr_inv _ _ _ _ Hs) as (_ & _ & Hin & _).
    unfold extractRegion.
    destruct (_ >? len fileData) eqn:E; [zbool; lia|].
    rewrite Hs. apply Z.eqb_neq in Hn6. rewrite Hn6.
    rewrite Hd. cbn [wrapf bind].
    assert (40 <= len decrypted) as H40.
    { unfold ParseRegionBlockHeader in Hp.
      destruct (len decrypted <? 40) eqn:E40; [discriminate | zbool; lia]. }
    destruct (len decrypted <? 40) eqn:E40; [zbool; lia|].
    rewrite Hp. cbn [wrapf bind].
    destruct (int_wrap_cases (RealSize bh) Hrs) as [Hw|[_ Hw]].
    { pose proof (int_wrap_range (RealSize bh)). lia. }
    rewrite Hw.
    assert (int_add 40 (RealSize bh - 2 ^ 64) = 40 + RealSize bh - 2 ^ 64) as Ha.
    { unfold int_add.
      replace (40 + (RealSize bh - 2 ^ 64)) with (40 + RealSize bh - 2 ^ 64) by ring.
      apply int_wrap_small. lia. }
    rewrite Ha.
    destruct (40 + RealSize bh - 2 ^ 64 >? len decrypted) eqn:E1; [zbool; lia|].
    unfold slice_expr at 1.
    destruct (40 <=? 40 + RealSize bh - 2 ^ 64) eqn:E2; [zbool; lia|].
    reflexivity.
  - intros filePath header Hf Hh Hbig Hd.
    unfold ParseNTPIFile, ReadFile. rewrite Hf, Hh.
    rewrite GetAESDictForVersion_total. unfold MkdirAll.
    rewrite bool_decide_eq_false_2 by exact Hd.
    cbn [region_walk]. rewrite extractRegion_huge.
    + reflexivity.
    + unfold ParseNTPIHeader in Hh. unfold NTPIHeader_Size.
      destruct (len fileData <? 48) eqn:E; [discriminate | zbool; lia].
    + cbn [files]. exact Hlen.
    + pose proof (ParseNTPIHeader_u64 _ _ Hh). lia.
Qed.

End WalkPanics.

(** ** The fields of an entry that Stage 2 reads *)

Section EntryFacts.
Context {cipher : BlockCipher} {decoder : Lzma2Decoder} {hasher : Sha256}.
Import structures crypto parser extractor.

Lemma process_block_task_ext task task' where_ keyIndex cur :
  Region6Data task = Region6Data task' ->
  KeyMapData task = KeyMapData task' ->
  process_block task where_ keyIndex cur = process_block task' where_ keyIndex cur.
Proof. intros Hr Hk. unfold process_block. rewrite Hr, Hk. reflexivity. Qed.

Lemma segment_loop_task_ext task task' segment fuel cur count acc :
  Region6Data task = Region6Data task' ->
  KeyMapData task = KeyMapData task' ->
  KeyIndex (FileInfo_ task) = KeyIndex (FileInfo_ task') ->
  segment_loop fuel task segment cur count acc
  = segment_loop fuel task' segment cur count acc.
Proof.
  intros Hr Hk Hi. revert cur count acc.
  induction fuel as [|fuel IH]; intros cur count acc; cbn [segment_loop];
    [reflexivity|].
  destruct (_ && _); [|reflexivity].
  rewrite Hi, (process_block_task_ext task task') by assumption.
  destruct (process_block task' "" _ cur); cbn [bind]; try reflexivity.
  apply IH.
Qed.

Lemma run_segments_task_ext task task' segments :
  Region6Data task = Region6Data task' ->
  KeyMapData task = KeyMapData task' ->
  KeyIndex (FileInfo_ task) = KeyIndex (FileInfo_ task') ->
  run_segments task segments = run_segments task' segments.
Proof.
  intros Hr Hk Hi. induction segments as [|seg rest IH]; [reflexivity|].
  cbn [run_segments]. rewrite IH. unfold processSegment, loop_fuel.
  rewrite (segment_loop_task_ext task task') by assumption.
  rewrite Hr. reflexivity.
Qed.

(** X26 -- the fields of an entry that Stage 2 reads: the name, the file
    hash, the key index, the partition length, the offset and the length.
    The flags [IsSparse], [IsEncrypted] and [IsCompressed], the original
    length and the partition hash are never looked at: two entries that
    differ in those only are processed alike, so an entry flagged as not
    encrypted or not compressed is decrypted and decompressed all the
    same. *)
Theorem X26_ignored_entry_fields (region6Data : list byte) (keyMapData : go_slice)
    (outputDir : string) (file file' : FileInfo) (w : world) :
  Name file = Name file' ->
  FileSha256Hash file = FileSha256Hash file' ->
  KeyIndex file = KeyIndex file' ->
  PartitionLength file = PartitionLength file' ->
  Offset file = Offset file' ->
  Length file = Length file' ->
  worker (makeTask region6Data keyMapData outputDir file) w
  = worker (makeTask region6Data keyMapData outputDir file') w.
Proof.
  intros Hname Hhash Hkey Hpart Hoff Hlen.
  set (task := makeTask region6Data keyMapData outputDir file).
  set (task' := makeTask region6Data keyMapData outputDir file').
  assert (sequential_data task = sequential_data task') as Hseq.
  { unfold sequential_data, loop_fuel. cbn [task task' makeTask FileInfo_ Region6Data].
    rewrite Hoff, Hlen. apply sequential_loop_task_ext; [reflexivity|reflexivity|exact Hkey]. }
  assert (forall n, segmented_data task n = segmented_data task' n) as Hseg.
  { intros n. unfold segmented_data, splitFileIntoSegments, loop_fuel.
    cbn [task task' makeTask FileInfo_ Region6Data].
    rewrite Hoff, Hlen.
    destruct (wrapf "failed to split file" _) as [segments| | |]; cbn [bind];
      try reflexivity.
    rewrite (run_segments_task_ext
               (makeTask region6Data keyMapData outputDir file)
               (makeTask region6Data keyMapData outputDir file'));
      [reflexivity | reflexivity | reflexivity | exact Hkey]. }
  assert (output_path task = output_path task') as Hpath.
  { unfold output_path. cbn [task task' makeTask FileInfo_ OutputDir].
    rewrite Hname. reflexivity. }
  assert (assembled task = assembled task') as Hasm.
  { unfold assembled. cbn [task task' makeTask UseSegmented NumSegments].
    rewrite <- Hpart. fold task. fold task'. rewrite Hseq, Hseg. reflexivity. }
  assert (ok_message task = ok_message task') as Hmsg.
  { unfold ok_message. cbn [task task' makeTask UseSegmented].
    rewrite Hpart. reflexivity. }
  assert (forall e, failure (FileInfo_ task) e = failure (FileInfo_ task') e) as Hfail.
  { intros e. unfold failure. cbn [task task' makeTask FileInfo_].
    rewrite Hname. reflexivity. }
  assert (forall path data text w1,
            verify_and_write (FileInfo_ task) path data text w1
            = verify_and_write (FileInfo_ task') path data text w1) as Hvw.
  { intros path data text w1. unfold verify_and_write. rewrite !Hfail.
    cbn [task task' makeTask FileInfo_]. rewrite Hname, Hhash. reflexivity. }
  rewrite !worker_unfold, Hpath, Hasm, Hmsg, !Hfail.
  destruct (MkdirAll _ w) as [w1|]; [|reflexivity].
  destruct (assembled task') as [data|e| |]; try reflexivity.
  - apply Hvw.
  - rewrite Hfail. reflexivity.
Qed.

End EntryFacts.

(** ** Header fields nobody reads, and the names of the regions *)

Lemma take_drop_agree (a b : list byte) (off n lo hi : nat) :
  (hi <= n)%nat ->
  (forall i, (off + lo <= i < off + hi)%nat -> a !! i = b !! i) ->
  take (hi - lo) (drop lo (take n (drop off a)))
  = take (hi - lo) (drop lo (take n (drop off b))).
Proof.
  intros Hn H. apply list_eq. intros i.
  rewrite !lookup_take, !lookup_drop.
  destruct (decide (i < hi - lo)%nat) as [Hi|Hi]; [|reflexivity].
  rewrite !lookup_take, !lookup_drop.
  destruct (decide (lo + i < n)%nat); [|lia].
  apply H. lia.
Qed.

Lemma lookup_patch (l patch : list byte) (lo hi i : nat) :
  length patch = (hi - lo)%nat -> (lo <= hi <= length l)%nat ->
  (i < lo \/ hi <= i)%nat ->
  (take lo l ++ patch ++ drop hi l) !! i = l !! i.
Proof.
  intros Hp Hr [Hi|Hi].
  - rewrite lookup_app_l by (rewrite length_take; lia).
    apply lookup_take_lt. exact Hi.
  - rewrite lookup_app_r by (rewrite length_take; lia).
    rewrite lookup_app_r by (rewrite length_take; lia).
    rewrite lookup_drop, length_take. f_equal. lia.
Qed.

Section FieldFacts.
Context {cipher : BlockCipher}.
Import structures crypto.

(** Of a parsed block header, the decrypter uses the size and the IV. *)
Lemma ParseNTEncodeHeader_used (a b : list byte) :
  length a = 112%nat -> length b = 112%nat ->
  take 8 a = take 8 b ->
  take 8 (drop 32 a) = take 8 (drop 32 b) ->
  take 16 (drop 72 a) = take 16 (drop 72 b) ->
  match ParseNTEncodeHeader a, ParseNTEncodeHeader b with
  | Ok ha, Ok hb => OriginalSize ha = OriginalSize hb /\ GetIV ha = GetIV hb
  | Err ea, Err eb => ea = eb
  | _, _ => False
  end.
Proof.
  intros Ha Hb Hm Hs Hiv. unfold ParseNTEncodeHeader, len. rewrite Ha, Hb.
  cbn [Z.ltb Z.compare Z.of_nat Pos.of_succ_nat Pos.succ Pos.compare Pos.compare_cont].
  change (Z.of_nat 112 <? 112) with false. cbn match.
  unfold bytes_eqb, field. cbn [Magic].
  change (drop 0 a) with a. change (drop 0 b) with b.
  rewrite Hm.
  destruct (bool_decide (take 8 b = magic_NTENCODE)); cbn [negb]; [|reflexivity].
  unfold GetIV, le_field, field. cbn [OriginalSize IV].
  rewrite Hs. split; [reflexivity|].
  rewrite !take_take. cbn [Nat.min]. exact Hiv.
Qed.

(** X27 -- header fields the block decrypter ignores: of a block,
    [DecryptNTEncodeBlock] reads the magic (bytes 0..7 of the header),
    [original_size] (bytes 32..39), the first 16 bytes of the IV field (bytes
    72..87) and the ciphertext.  The type fields, the padding,
    [processed_size], the 32-byte key of the header, the second half of the
    IV field, [key_size] and [iv_size] are never looked at: two buffers of
    the same length that differ in those bytes only give the same result,
    errors and panics included. *)
Theorem X27_ignored_header_fields (region6Data region6Data' : list byte)
    (offset : Z) (key : option (list byte)) :
  length region6Data' = length region6Data ->
  (forall i : nat,
     let j := Z.of_nat i - offset in
     0 <= j < 8 \/ 32 <= j < 40 \/ 72 <= j < 88 \/ 112 <= j ->
     region6Data' !! i = region6Data !! i) ->
  DecryptNTEncodeBlock region6Data' offset key
  = DecryptNTEncodeBlock region6Data offset key.
Proof.
  intros Hlen Hag.
  assert (len region6Data' = len region6Data) as Hl by (unfold len; lia).
  unfold DecryptNTEncodeBlock. rewrite Hl.
  destruct (offset >=? len region6Data) eqn:E0; [reflexivity|].
  destruct (int_add offset 112 >? len region6Data) eqn:E1; [reflexivity|].
  zbool.
  destruct (slice_expr region6Data offset (int_add offset 112)) as [hdr| | |] eqn:Hs.
  2-4: (unfold slice_expr in *; rewrite Hl;
        destruct (_ && _); try discriminate; reflexivity).
  pose proof Hs as Hs0.
  apply slice_expr_inv in Hs0 as (Ho & Hlo & Hhi & Hhdr & Hlh).
  pose proof (int_wrap_range (offset + 112)) as Hr.
  fold (int_add offset 112) in Hr.
  assert (int_add offset 112 = offset + 112) as Ha.
  { destruct (int_add_cases offset 112) as [?|[?|?]]; lia. }
  rewrite Ha in *.
  assert (slice_expr region6Data' offset (offset + 112)
          = Ok (take 112 (drop (Z.to_nat offset) region6Data'))) as Hs'.
  { rewrite slice_expr_ok by lia. do 2 f_equal. lia. }
  rewrite Hs'. cbn [bind].
  replace (Z.to_nat (offset + 112 - offset)) with 112%nat in Hhdr by lia.
  set (hdr' := take 112 (drop (Z.to_nat offset) region6Data')).
  assert (forall lo hi, (lo <= hi)%nat -> (hi <= 112)%nat ->
            (0 <= Z.of_nat lo < 8 /\ Z.of_nat hi <= 8
             \/ 32 <= Z.of_nat lo /\ Z.of_nat hi <= 40
             \/ 72 <= Z.of_nat lo /\ Z.of_nat hi <= 88) ->
            take (hi - lo) (drop lo hdr') = take (hi - lo) (drop lo hdr)) as Hfield.
  { intros lo hi Hle Hhi112 Hrange. unfold hdr'. rewrite Hhdr.
    apply take_drop_agree; [lia|].
    intros i Hi. apply Hag. lia. }
  assert (length hdr = 112%nat) as Hlen1 by (unfold len in Hlh; lia).
  assert (length hdr' = 112%nat) as Hlen2.
  { unfold hdr'. rewrite length_take, length_drop. unfold len in *. lia. }
  pose proof (ParseNTEncodeHeader_used hdr' hdr Hlen2 Hlen1
                (Hfield 0%nat 8%nat ltac:(lia) ltac:(lia) ltac:(lia))
                (Hfield 32%nat 40%nat ltac:(lia) ltac:(lia) ltac:(lia))
                (Hfield 72%nat 88%nat ltac:(lia) ltac:(lia) ltac:(lia))) as Hparse.
  destruct (ParseNTEncodeHeader hdr') as [h'|e'| |];
    destruct (ParseNTEncodeHeader hdr) as [h|e| |]; try contradiction.
  2:{ subst e'. reflexivity. }
  destruct Hparse as [Hsz Hiv]. cbn [wrapf bind]. rewrite Hsz, Hiv.
  destruct (_ >? len region6Data) eqn:E2; [reflexivity|]. zbool.
  rewrite (slice_agree region6Data region6Data' (offset + 112) (len region6Data)
             (offset + 112)
             (int_add (offset + 112) (int_wrap (OriginalSize h)))); try lia.
  - reflexivity.
  - intros i Hi. symmetry. apply Hag. lia.
Qed.

(** X28 -- one magic for two headers: [ParseNTDecompressHeader] and
    [ParseNTEncodeHeader] accept exactly the same buffers (112 bytes or more
    that start with [NTENCODE]) and read the same [processed_size] and
    [original_size] from them, so a block header passes for a decompression
    header and the other way round; each reads the first 112 bytes only. *)
Theorem X28_headers_share_magic (data : list byte) :
  (is_ok (ParseNTDecompressHeader data) = is_ok (ParseNTEncodeHeader data))
  /\ (is_ok (ParseNTEncodeHeader data) = true
      <-> 112 <= len data /\ take 8 data = magic_NTENCODE)
  /\ (forall d e,
        ParseNTDecompressHeader data = Ok d -> ParseNTEncodeHeader data = Ok e ->
        D_ProcessedSize d = ProcessedSize e /\ D_OriginalSize d = OriginalSize e
        /\ D_PrimaryType d = PrimaryType e)
  /\ (112 <= len data ->
      ParseNTEncodeHeader (take 112 data) = ParseNTEncodeHeader data
      /\ ParseNTDecompressHeader (take 112 data) = ParseNTDecompressHeader data).
Proof.
  unfold ParseNTDecompressHeader, ParseNTEncodeHeader, bytes_eqb, field.
  cbn [D_Magic Magic]. change (drop 0 data) with data.
  split; [|split; [|split]].
  - destruct (len data <? 112); [reflexivity|].
    destruct (bool_decide _); reflexivity.
  - destruct (len data <? 112) eqn:E; zbool.
    { simpl. split; [discriminate | lia]. }
    destruct (bool_decide (take 8 data = magic_NTENCODE)) eqn:Em; simpl.
    + apply bool_decide_eq_true in Em. split; [intros _; split; [lia|exact Em] | reflexivity].
    + apply bool_decide_eq_false in Em. split; [discriminate | tauto].
  - intros d e. destruct (len data <? 112); [discriminate|].
    destruct (negb _); [discriminate|].
    intros [= <-] [= <-]. repeat split.
  - intros Hl.
    assert (len (take 112 data) = 112) as Hl2.
    { unfold len in *. rewrite length_take. lia. }
    rewrite Hl2. change (112 <? 112) with false.
    destruct (len data <? 112) eqn:E; [zbool; lia|].
    assert (forall off width, (off + width <= 112)%nat ->
              take width (drop off (take 112 data)) = take width (drop off data)) as Hf.
    { intros off width Hw. apply list_eq. intros i.
      rewrite !lookup_take, !lookup_drop.
      destruct (decide (i < width)%nat); [|reflexivity].
      rewrite lookup_take. destruct (decide (off + i < 112)%nat); [reflexivity|lia]. }
    unfold le_field, field.
    change (take 8 (take 112 data)) with (take 8 (drop 0 (take 112 data))).
    rewrite !Hf by lia. cbn [drop]. split; reflexivity.
Qed.

(** The decimal of an unsigned value determines it. *)
Lemma fmt_d_inj (a b : Z) : 0 <= a -> 0 <= b -> fmt_d a = fmt_d b -> a = b.
Proof.
  intros Ha Hb H. unfold fmt_d in H. apply pretty_N_inj in H. lia.
Qed.

(** X29 -- region names do not collide: [RegionName] names the types 1 to 6
    [Metadata], [Patch], [RawProgram], [KeyMap], [FileIndex] and [Region6],
    and every other type [Unknown] followed by its decimal; it is injective
    on unsigned values.  A step of the walk that succeeds on a region writes
    the file named after its type -- [region6block.bin] for type 6, the name
    of the type with [.bin] for type 4 and with [.xml] for the others -- and
    these file names are distinct as well. *)
Theorem X29_region_names_distinct (a b : Z) :
  0 <= a -> 0 <= b ->
  let saved t := if t =? 6 then "region6block.bin" else parser.region_file t in
  map RegionName [1; 2; 3; 4; 5; 6]
  = ["Metadata"; "Patch"; "RawProgram"; "KeyMap"; "FileIndex"; "Region6"]
  /\ map saved [1; 2; 3; 4; 5; 6]
     = ["Metadata.xml"; "Patch.xml"; "RawProgram.xml"; "KeyMap.bin";
        "FileIndex.xml"; "region6block.bin"]
  /\ (~ 1 <= a <= 6 -> RegionName a = "Unknown" +:+ fmt_d a)
  /\ (RegionName a = RegionName b -> a = b)
  /\ (saved a = saved b -> a = b)
  /\ (forall fileData region offset outputDir keyDict w res w',
        RegionType region = a ->
        parser.extractRegion fileData region offset outputDir keyDict w
        = (Ok res, w') ->
        exists data,
          files w' = <[ filepath.Join outputDir (saved a) := data ]> (files w)).
Proof.
  intros Ha Hb saved.
  assert (forall n, 1 <= n <= 6 \/ (RegionName n = "Unknown" +:+ fmt_d n /\ ~ 1 <= n <= 6))
    as Hcase.
  { intros n. unfold RegionName.
    destruct (n =? 1) eqn:E1; [zbool; lia|].
    destruct (n =? 2) eqn:E2; [zbool; lia|].
    destruct (n =? 3) eqn:E3; [zbool; lia|].
    destruct (n =? 4) eqn:E4; [zbool; lia|].
    destruct (n =? 5) eqn:E5; [zbool; lia|].
    destruct (n =? 6) eqn:E6; [zbool; lia|].
    zbool. right. split; [reflexivity | lia]. }
  assert (forall n, 1 <= n <= 6 ->
            n = 1 \/ n = 2 \/ n = 3 \/ n = 4 \/ n = 5 \/ n = 6) as Hsix by (intros; lia).
  assert (RegionName a = RegionName b -> a = b) as Hinj.
  { destruct (Hcase a) as [Ha6|[Hua _]]; destruct (Hcase b) as [Hb6|[Hub _]].
    - destruct (Hsix a Ha6) as [->|[->|[->|[->|[->| ->]]]]];
        destruct (Hsix b Hb6) as [->|[->|[->|[->|[->| ->]]]]];
        intros H; try reflexivity; vm_compute in H; discriminate H.
    - rewrite Hub.
      destruct (Hsix a Ha6) as [->|[->|[->|[->|[->| ->]]]]];
        intros H; vm_compute in H; discriminate H.
    - rewrite Hua.
      destruct (Hsix b Hb6) as [->|[->|[->|[->|[->| ->]]]]];
        intros H; vm_compute in H; discriminate H.
    - rewrite Hua, Hub. intros H. injection H as H.
      apply fmt_d_inj; assumption. }
  assert (forall n, n <> 6 -> parser.region_file n <> "region6block.bin") as Hno6.
  { intros n Hn H. unfold parser.region_file in H.
    destruct (Hcase n) as [Hn6|[Hun _]].
    - destruct (Hsix n Hn6) as [->|[->|[->|[->|[->| ->]]]]];
        try lia; vm_compute in H; discriminate H.
    - rewrite Hun in H. destruct (n =? 4); vm_compute in H; discriminate H. }
  split; [reflexivity|]. split; [reflexivity|].
  split; [intros Hout; destruct (Hcase a) as [?|[Hu _]]; [lia | exact Hu]|].
  split; [exact Hinj|]. split.
  - unfold saved.
    destruct (a =? 6) eqn:Ea6; destruct (b =? 6) eqn:Eb6; zbool.
    + lia.
    + intros H. exfalso. apply (Hno6 b); [lia | symmetry; exact H].
    + intros H. exfalso. apply (Hno6 a); [lia | exact H].
    + unfold parser.region_file.
      assert (forall s t : string, s +:+ ".xml" = t +:+ ".xml" -> s = t) as Hxml.
      { induction s as [|c s IH]; intros [|d t] H; simpl in H.
        - reflexivity.
        - exfalso. apply (f_equal String.length) in H. simpl in H.
          rewrite string_length_app in H. simpl in H. lia.
        - exfalso. apply (f_equal String.length) in H. simpl in H.
          rewrite string_length_app in H. simpl in H. lia.
        - injection H as -> H. f_equal. apply IH, H. }
      destruct (a =? 4) eqn:Ea; destruct (b =? 4) eqn:Eb; zbool.
      * lia.
      * subst a. intros H. exfalso.
        destruct (Hcase b) as [Hb6|[Hub _]].
        -- destruct (Hsix b Hb6) as [->|[->|[->|[->|[->| ->]]]]];
             try lia; vm_compute in H; discriminate H.
        -- rewrite Hub in H. vm_compute in H. discriminate H.
      * subst b. intros H. exfalso.
        destruct (Hcase a) as [Ha6|[Hua _]].
        -- destruct (Hsix a Ha6) as [->|[->|[->|[->|[->| ->]]]]];
             try lia; vm_compute in H; discriminate H.
        -- rewrite Hua in H. vm_compute in H. discriminate H.
      * intros H. apply Hinj, Hxml, H.
  - intros fileData region offset outputDir keyDict w res w' Ht Hx.
    apply extractRegion_ok_inv in Hx as (regionData & _ & Hcase').
    unfold saved. rewrite <- Ht.
    destruct Hcase' as [(H6 & _ & Hw)|(Hn6 & dec & bh & actual & _ & _ & _ & _ & Hw & _)].
    + rewrite H6. cbn [Z.eqb Pos.eqb]. exists regionData.
      unfold WriteFile in Hw. destruct (bool_decide _); [discriminate|].
      injection Hw as <-. reflexivity.
    + apply Z.eqb_neq in Hn6. rewrite Hn6. exists actual.
      unfold WriteFile in Hw. destruct (bool_decide _); [discriminate|].
      injection Hw as <-. reflexivity.
Qed.
End FieldFacts.

(** * The model at work *)

Import structures parser extractor reference fixture.

(** ** Test vectors of the reference instances *)

Example aes128_fips197 :
  aes_block_encrypt (unhex "000102030405060708090a0b0c0d0e0f")
                    (unhex "00112233445566778899aabbccddeeff")
  = unhex "69c4e0d86a7b0430d8cdb78070b4c55a".
Proof. vm_compute. reflexivity. Qed.

Example aes192_fips197 :
  aes_block_encrypt (unhex "000102030405060708090a0b0c0d0e0f1011121314151617")
                    (unhex "00112233445566778899aabbccddeeff")
  = unhex "dda97ca4864cdfe06eaf70a0ec0d7191".
Proof. vm_compute. reflexivity. Qed.

Example aes256_fips197 :
  aes_block_decrypt
    (unhex "000102030405060708090a0b0c0d0e0f101112131415161718191a1b1c1d1e1f")
    (unhex "8ea2b7ca516745bfeafc49904b496089")
  = unhex "00112233445566778899aabbccddeeff".
Proof. vm_compute. reflexivity. Qed.

Example sha256_empty :
  hex.EncodeToString (sha256 [])
  = "e3b0c44298fc1c149afbf4c8996fb92427ae41e4649b934ca495991b7852b855".
Proof. vm_compute. reflexivity. Qed.

Example sha256_abc :
  hex.EncodeToString (sha256 [x61; x62; x63])
  = "ba7816bf8f01cfea414140de5dae2223b00361a396177a9cb410ff61f20015ad".
Proof. vm_compute. reflexivity. Qed.

Example lzma2_stored_hello :
  lzma2_stored [x01; x00; x01; x68; x65; x02; x00; x02; x6c; x6c; x6f; x00]
  = Some [x68; x65; x6c; x6c; x6f].
Proof. vm_compute. reflexivity. Qed.

(** ** The two stages on the example archive *)

Example stage1_on_archive :
  let run := ParseNTPIFile "fw.ntpi" ".temp" disk in
  run.1 = Ok tt
  /\ files run.2 !! ".temp/KeyMap.bin" = Some keymap
  /\ files run.2 !! ".temp/region6block.bin" = Some region6
  /\ warnings run.2 = [].
Proof. vm_compute. repeat split; reflexivity. Qed.

Example stage2_on_archive :
  let run := worker task empty_world in
  run.1 = Ok {| FileName := "images/abl.img"; Success := true; Message := Msg "OK" |}
  /\ files run.2 !! "out/images/abl.img" = Some image.
Proof. vm_compute. repeat split; reflexivity. Qed.

Example segments_of_task :
  splitFileIntoSegments task 4
  = Ok [ {| StartOffset := 0; EndOffset := 480; StartBlockIndex := 0; NumBlocks := 2 |};
         {| StartOffset := 480; EndOffset := 720; StartBlockIndex := 2; NumBlocks := 1 |} ].
Proof. vm_compute. reflexivity. Qed.

(** ** The theorems at the example archive *)

Lemma C1_witness :
  (sequential_data task = Ok image /\ segmented_data task 4 = Ok image)
  /\ (sequential_data empty_task = Ok []
      /\ segmented_data empty_task 4
         = Err (MsgWrap "failed to split file" (Msg "no valid blocks found")))
  /\ ((sequential_data cut_task = Panic \/ exists e, sequential_data cut_task = Err e)
      /\ segmented_data cut_task 4 = Ok chunk0).
Proof.
  split; [|split].
  - assert (sequential_data task = Ok image) as Hseq by (vm_compute; reflexivity).
    split; [exact Hseq|].
    destruct (C1_segmenter_equivalence task 4) as (Heq & _); [lia|].
    apply (Heq image); [vm_compute; reflexivity | exact Hseq].
  - destruct (C1_segmenter_equivalence empty_task 4) as (_ & Hnone & _); [lia|].
    apply Hnone. vm_compute. discriminate.
  - destruct (C1_segmenter_equivalence cut_task 4) as (_ & _ & Hcut); [lia|].
    destruct (Hcut 240 [(0, chunk0)]) as (Hseq & _ & Hseg);
      [| | | split; [exact Hseq | exact Hseg]].
    + apply (runs.run_to_step _ _ 0 0%nat 240 chunk0 []); [|constructor].
      vm_compute. reflexivity.
    + vm_compute. reflexivity.
    + right. exists (take 112 (drop 240 region6_cut)), (Msg "invalid NTEncode magic").
      split; vm_compute; reflexivity.
Defined.

Lemma C2_witness :
  crypto.ExtractKeyFromKeyMap keymap_slice 2 = Ok (spec.extract_key keymap 2)
  /\ spec.extract_key keymap 2 = drop 64 keymap ++ take 16 keymap.
Proof.
  destruct (C2_keymap_wrap keymap_slice 2) as (Hkey & _ & _ & Hwrap & _).
  - lia.
  - lia.
  - apply Z.leb_le. vm_compute. reflexivity.
  - split; [exact Hkey|].
    apply Hwrap. apply Z.ltb_lt. vm_compute. reflexivity.
Defined.

Lemma C3_witness :
  crypto.DecryptAESCBC region4 (Some key4) (Some iv4)
  = Ok (take 120 (crypto.CryptBlocks key4 iv4 region4))
  /\ last (crypto.CryptBlocks key4 iv4 region4) = Some x08.
Proof.
  assert (last (crypto.CryptBlocks key4 iv4 region4) = Some x08) as Hlast
    by (vm_compute; reflexivity).
  split; [|exact Hlast].
  destruct (C3_pkcs7_tolerance region4 key4 iv4) as (_ & Hstrip & _).
  - vm_compute. reflexivity.
  - right; right. vm_compute. reflexivity.
  - vm_compute. reflexivity.
  - apply (Hstrip x08 Hlast).
    + vm_compute. split; discriminate.
    + apply (bool_decide_unpack _). vm_compute. exact I.
Defined.

Lemma C4_witness :
  (extractRegion archive region4_header 48 ".temp" DefaultAESDict temp_world
   = (Ok (176, Some region6_header), keymap_saved)
   /\ region_walk 2 archive ".temp" DefaultAESDict region4_header 48 temp_world
      = region_walk 1 archive ".temp" DefaultAESDict region6_header 176 keymap_saved)
  /\ extractRegion metadata_archive region1_header 48 ".temp" DefaultAESDict
                   temp_world
     = (Ok (-1, None), metadata_saved)
  /\ extractRegion archive region6_header 176 ".temp" DefaultAESDict keymap_saved
     = (Ok (-1, None),
        {| files := <[ ".temp/region6block.bin" := region6 ]> (files keymap_saved);
           dirs := {[ ".temp" ]}; denied := ∅; warnings := [] |}).
Proof.
  split; [|split].
  - assert (extractRegion archive region4_header 48 ".temp" DefaultAESDict temp_world
          = (Ok (176, Some region6_header), keymap_saved)) as Hstep
    by (vm_compute; reflexivity).
    split; [exact Hstep|].
    destruct (C4_region_walk archive ".temp" DefaultAESDict region4_header 48 temp_world)
      as (_ & Hone & _).
    + vm_compute. split; [discriminate|reflexivity].
    + destruct (Hone _ _ Hstep)
        as (_ & _ & _ & [(H6 & _)|(_ & decrypted & bh & Hd & Hb & _ & _ & Hwalk)]).
      * discriminate H6.
      * assert (decrypted
                = take 120 (crypto.CryptBlocks key4 iv4 region4)) as ->.
        { vm_compute in Hd. injection Hd as <-. vm_compute. reflexivity. }
        assert (NextHeader bh = region6_header) as Hnext.
        { vm_compute in Hb. injection Hb as <-. reflexivity. }
        rewrite (Hwalk 1%nat), Hnext. reflexivity.
  - destruct (C4_region_walk metadata_archive ".temp" DefaultAESDict region1_header
                48 temp_world) as (_ & _ & _ & _ & Hmeta & _).
    + vm_compute. split; [discriminate|reflexivity].
    + destruct (Hmeta (unhex (GetKeyForRegion AESDict_V1_3_0 1))
                      (unhex (GetIVForRegion AESDict_V1_3_0 1)))
        as (_ & Hstep).
      * vm_compute. discriminate.
      * lia.
      * vm_compute. discriminate.
      * vm_compute. reflexivity.
      * vm_compute. reflexivity.
      * right; right. vm_compute. reflexivity.
      * vm_compute. reflexivity.
      * vm_compute. reflexivity.
      * destruct Hstep as (bh & Hb & Hstep).
        { vm_compute. discriminate. }
        vm_compute in Hb. injection Hb as <-.
        rewrite Hstep.
        -- vm_compute. reflexivity.
        -- vm_compute. discriminate.
        -- apply not_elem_of_empty.
  - destruct (C4_region_walk archive ".temp" DefaultAESDict region6_header 176
                keymap_saved) as (_ & _ & _ & Hsix & _).
    + vm_compute. split; [discriminate|reflexivity].
    + rewrite Hsix.
      * vm_compute. reflexivity.
      * reflexivity.
      * lia.
      * vm_compute. discriminate.
      * vm_compute. reflexivity.
      * apply not_elem_of_empty.
Defined.

Lemma C5_witness :
  assembled tampered_task = Ok image
  /\ exists fr w',
       worker tampered_task empty_world = (Ok fr, w')
       /\ Success fr = false /\ files w' = files empty_world.
Proof.
  assert (assembled tampered_task = Ok image) as Ha by (vm_compute; reflexivity).
  split; [exact Ha|].
  destruct (C5_integrity_atomicity tampered_task empty_world) as (_ & _ & Hbad & _).
  apply (Hbad image Ha). vm_compute. reflexivity.
Defined.


Lemma C8_witness :
  PartitionLength zero_length_entry = 0
  /\ UseSegmented (makeTask region6 keymap_slice "out" zero_length_entry) = false
  /\ worker (makeTask region6 keymap_slice "out" zero_length_entry) empty_world
     = worker task empty_world.
Proof.
  split; [reflexivity|].
  destruct (C8_zero_partition_length region6 keymap_slice "out" zero_length_entry
              empty_world eq_refl) as (_ & Hseq & _ & Hsame & _).
  split; [exact Hseq|].
  symmetry. apply (Hsame 13). vm_compute. reflexivity.
Defined.

Lemma C9_witness :
  crypto.DecryptNTEncodeBlock region6 0 (Some (key_at 1)) = Ok (240, block0_plain)
  /\ exists hdr header,
       slice_expr region6 0 (0 + 112) = Ok hdr
       /\ ParseNTEncodeHeader hdr = Ok header
       /\ 240 = 0 + 112 + OriginalSize header
       /\ 0 + 112 <= 240 <= len region6.
Proof.
  assert (crypto.DecryptNTEncodeBlock region6 0 (Some (key_at 1))
          = Ok (240, block0_plain)) as Hd by (vm_compute; reflexivity).
  split; [exact Hd|].
  destruct (C9_block_loops_terminate task) as (Hnext & _).
  exact (Hnext region6 0 (Some (key_at 1)) 240 block0_plain Hd).
Defined.

Lemma C10_witness :
  crypto.DecryptAESCBC region4 None None
  = Ok (crypto.removePKCS7Padding (crypto.CryptBlocks (zeros 32) (zeros 16) region4)).
Proof.
  destruct (C10_nil_key_iv region4) as (_ & _ & Hnil & _).
  - vm_compute. reflexivity.
  - exact Hnil.
Defined.

(** ** The further properties at the example archive *)

Lemma X2_witness :
  crypto.removePKCS7Padding (chunk0 ++ replicate 3 x03) = chunk0.
Proof. apply (X2_unpad_inverts_pad chunk0 3). lia. Defined.

Lemma X4_witness : length (key_at 2) = 32%nat.
Proof.
  apply (X4_key_has_32_bytes keymap_slice 2). vm_compute. reflexivity.
Defined.

Lemma X5_witness :
  crypto.ExtractKeyFromKeyMap keymap_slice (1 + 1 * 80)
  = crypto.ExtractKeyFromKeyMap keymap_slice 1.
Proof.
  destruct (X5_keymap_periodic keymap_slice 1 1) as [H _].
  - lia.
  - lia.
  - vm_compute. reflexivity.
  - exact H.
Defined.

Lemma X6_witness :
  exists e,
    process_block odd_task "" 1 0
    = Err (MsgWrap "decryption failed" (MsgWrap "AES decryption failed" e))
    /\ e = Msg "encrypted data size is not a multiple of AES block size".
Proof.
  exists (Msg "encrypted data size is not a multiple of AES block size").
  assert (process_block odd_task "" 1 0
          = Err (MsgWrap "decryption failed"
                   (MsgWrap "AES decryption failed"
                      (Msg "encrypted data size is not a multiple of AES block size"))))
    as Hstep by (vm_compute; reflexivity).
  split; [exact Hstep|].
  exact (X6_block_aes_failure odd_task "" 1 0 _ Hstep).
Defined.

Lemma X7_witness :
  crypto.DecryptNTEncodeBlock region6 (-112) None = Panic
  /\ crypto.DecryptNTEncodeBlock huge_region6 0 None = Panic.
Proof.
  split.
  - destruct (X7_block_decrypter_panics region6 (-112) None) as [H _].
    + vm_compute. reflexivity.
    + apply H.
      * vm_compute. split; [discriminate|reflexivity].
      * vm_compute. discriminate.
  - destruct (X7_block_decrypter_panics huge_region6 0 None) as [_ H].
    + vm_compute. reflexivity.
    + eapply H.
      * reflexivity.
      * reflexivity.
      * vm_compute. discriminate.
Defined.

Lemma X8_witness :
  splitFileIntoSegments stuck_task 4 = OutOfFuel.
Proof.
  edestruct (X8_scan_never_ends stuck_task) as (_ & H & _).
  - vm_compute. split; [discriminate|reflexivity].
  - vm_compute. reflexivity.
  - reflexivity.
  - reflexivity.
  - vm_compute. reflexivity.
  - apply H.
Defined.

Lemma X9_witness :
  sequential_data empty_task = Ok []
  /\ segmented_data empty_task 4
     = Err (MsgWrap "failed to split file" (Msg "no valid blocks found")).
Proof.
  destruct (X9_empty_entry empty_task 4) as (Hseq & _ & Hseg).
  - vm_compute. discriminate.
  - split; [exact Hseq | exact Hseg].
Defined.

Lemma X10_witness :
  sequential_data keyless_task
  = Err (MsgWrap "failed to extract key" (Msg "keymap data is empty")).
Proof.
  destruct (X10_empty_keymap keyless_task) as (Hseq & _).
  - reflexivity.
  - vm_compute. reflexivity.
  - exact Hseq.
Defined.

Lemma X11_witness :
  sequential_data negative_task = Panic
  /\ (worker negative_task empty_world).1 = Panic.
Proof.
  destruct (X11_negative_key_index negative_task empty_world) as (_ & Hseq & Hw).
  - intros H. vm_compute in H. discriminate H.
  - vm_compute. split; [discriminate|reflexivity].
  - vm_compute. reflexivity.
  - split; [exact Hseq|]. apply Hw; [reflexivity | apply not_elem_of_empty].
Defined.

Lemma X12_witness :
  let segments :=
    [ {| StartOffset := 0; EndOffset := 480; StartBlockIndex := 0; NumBlocks := 2 |};
      {| StartOffset := 480; EndOffset := 720; StartBlockIndex := 2; NumBlocks := 1 |} ] in
  splitFileIntoSegments task 4 = Ok segments
  /\ 1 <= Z.of_nat (length segments) <= 4
  /\ Forall (fun seg => 1 <= NumBlocks seg) segments.
Proof.
  intros segments.
  assert (splitFileIntoSegments task 4 = Ok segments) as Hsplit
    by (vm_compute; reflexivity).
  split; [exact Hsplit|].
  destruct (X12_split_partition task 4 segments)
    as (Hcount & _ & _ & _ & Hpos & _).
  - lia.
  - vm_compute. reflexivity.
  - exact Hsplit.
  - split; [exact Hcount | exact Hpos].
Defined.

Lemma X13_witness :
  calculateOptimalSegments 0 <= calculateOptimalSegments (600 * MB).
Proof.
  destruct (X13_segment_count_steps 0 (600 * MB)) as (H & _).
  - vm_compute. discriminate.
  - exact H.
Defined.

Lemma X15_witness :
  let fr := {| FileName := "images/abl.img"; Success := false;
               Message := Msg "hash verification failed" |} in
  let w' := {| files := ∅; dirs := {[ "out/images" ]}; denied := ∅;
               warnings := [] |} in
  worker hashless_task empty_world = (Ok fr, w')
  /\ Success fr = false /\ files w' = files empty_world.
Proof.
  intros fr w'.
  assert (worker hashless_task empty_world = (Ok fr, w')) as Hrun
    by (vm_compute; reflexivity).
  split; [exact Hrun|].
  destruct (X15_hash_needs_64_chars hashless_task empty_world) as (_ & H).
  - vm_compute. discriminate.
  - exact (H fr w' Hrun).
Defined.


Lemma X19_witness :
  RegionSize region4_header mod 16 = 0 /\ 48 <= RegionSize region4_header.
Proof.
  destruct (X19_region_accepted archive region4_header 48 ".temp" temp_world
              (176, Some region6_header) keymap_saved) as (_ & _ & _ & H).
  - vm_compute. split; [discriminate|reflexivity].
  - vm_compute. reflexivity.
  - apply H. vm_compute. discriminate.
Defined.

Lemma X20_witness :
  files (ParseNTPIFile "fw.ntpi" ".temp" disk).2 !! "fw.ntpi" = Some archive.
Proof.
  destruct (X20_stage1_frame "fw.ntpi" ".temp" disk
              (ParseNTPIFile "fw.ntpi" ".temp" disk).1
              (ParseNTPIFile "fw.ntpi" ".temp" disk).2) as (_ & _ & _ & Hf).
  - destruct (ParseNTPIFile "fw.ntpi" ".temp" disk). reflexivity.
  - rewrite Hf.
    + reflexivity.
    + apply (bool_decide_unpack _). vm_compute. exact I.
Defined.

Lemma X23_witness :
  exists short,
    truncateFileName "system_ext_partition_image_backup.img" 30 = Ok short
    /\ slen short = 30.
Proof.
  destruct (X23_truncate_file_name "system_ext_partition_image_backup.img" 30)
    as (_ & H & _).
  - vm_compute. reflexivity.
  - vm_compute. split; [discriminate|reflexivity].
  - destruct H as (head & _ & Hrun & Hlen).
    + vm_compute. reflexivity.
    + vm_compute. discriminate.
    + eexists. split; [exact Hrun | exact Hlen].
Defined.

Lemma X24_witness :
  sequential_data second_task = Ok chunk2
  /\ sequential_data (with_region6 second_task region6_patched) = Ok chunk2.
Proof.
  assert (sequential_data second_task = Ok chunk2) as Hseq
    by (vm_compute; reflexivity).
  split; [exact Hseq|].
  destruct (X24_entry_reads_own_blocks second_task chunk2 Hseq)
    as (finish & Hend & Hfin & Hrun).
  change (720 <= finish) in Hend.
  change (finish = 480 \/ 480 + 112 <= finish <= 720) in Hfin.
  assert (finish = 720) as -> by lia.
  apply Hrun.
  - intros _. vm_compute. discriminate.
  - apply (agree_decide 480 720). vm_compute. reflexivity.
Defined.

Lemma X25_witness :
  (ParseNTPIFile "fw.ntpi" ".temp" crash_disk).1 = Panic.
Proof.
  destruct (X25_stage1_panics crash_archive ".temp" crash_disk) as (_ & _ & H).
  - vm_compute. reflexivity.
  - eapply (H "fw.ntpi").
    + reflexivity.
    + reflexivity.
    + vm_compute. discriminate.
    + apply not_elem_of_empty.
Defined.

Lemma X26_witness :
  worker (makeTask region6 keymap_slice "out" entry) empty_world
  = worker (makeTask region6 keymap_slice "out" unflagged_entry) empty_world.
Proof.
  apply (X26_ignored_entry_fields region6 keymap_slice "out" entry unflagged_entry
           empty_world); reflexivity.
Defined.

Lemma X27_witness :
  crypto.DecryptNTEncodeBlock region6_rekeyed 0 (Some (key_at 1))
  = crypto.DecryptNTEncodeBlock region6 0 (Some (key_at 1)).
Proof.
  apply (X27_ignored_header_fields region6 region6_rekeyed 0 (Some (key_at 1))).
  - vm_compute. reflexivity.
  - intros i j Hj. unfold j in Hj.
    apply (lookup_patch region6 (replicate 32 xff) 40 72 i).
    + reflexivity.
    + change (length region6) with 720%nat. lia.
    + lia.
Defined.

Lemma X29_witness :
  RegionName 7 = "Unknown7"
  /\ RegionName 4 = "KeyMap"
  /\ exists data,
       files keymap_saved = <[ ".temp/KeyMap.bin" := data ]> (files temp_world).
Proof.
  destruct (X29_region_names_distinct 7 4) as (_ & _ & Hu & _); [lia|lia|].
  split; [apply Hu; lia|].
  destruct (X29_region_names_distinct 4 7) as (Hn & _ & _ & _ & _ & Hx); [lia|lia|].
  split; [exact (f_equal (fun l => default "" (l !! 3%nat)) Hn)|].
  apply (Hx archive region4_header 48 ".temp" DefaultAESDict temp_world
            (176, Some region6_header) keymap_saved).
  - reflexivity.
  - vm_compute. reflexivity.
Defined.

(** ** Where the wording of the specification fails *)

(** C1 as worded fails on two entries: one that owns no block (the
    sequential loop yields the empty sequence, the segmenter finds no valid
    block), and one whose second block header does not parse (the sequential
    loop fails there, the segmenter stops its scan and yields the first
    block). *)
Lemma C1_counterexample :
  (produced (sequential_data empty_task) = Some []
   /\ produced (segmented_data empty_task 4) = None)
  /\ (produced (sequential_data cut_task) = None
      /\ produced (segmented_data cut_task 4) = Some chunk0).
Proof. vm_compute. repeat split; reflexivity. Qed.

(** C2 as worded fails on the empty table (an error), on a 20-byte table at
    index 1 (offset 12: the table repeated twice holds 28 bytes from there;
    the accessor panics, or reads into the spare capacity of the slice), and
    on an index whose product with 32 overflows. *)
Lemma C2_counterexample :
  crypto.ExtractKeyFromKeyMap (GoSlice [] []) 0 = Err (Msg "keymap data is empty")
  /\ (length (spec.extract_key (take 20 keymap) 1) = 28%nat
      /\ crypto.ExtractKeyFromKeyMap (GoSlice (take 20 keymap) []) 1 = Panic
      /\ crypto.ExtractKeyFromKeyMap (GoSlice (take 20 keymap) (zeros 492)) 1
         = Ok (drop 12 (take 20 keymap) ++ take 20 keymap ++ zeros 4))
  /\ crypto.ExtractKeyFromKeyMap keymap_slice (2 ^ 58) = Panic.
Proof. vm_compute. repeat split; reflexivity. Qed.

(** C4 as worded fails on a region that reaches beyond the end of the
    archive: in the example archive cut off after 500 bytes the region of
    type 6 at offset 176 declares 720 bytes; its step fails with [region
    data out of bounds] and Stage 1 with it, and [region6block.bin] is not
    written (the key table, saved by the step before, is). *)
Lemma C4_counterexample :
  RegionType region6_header = 6
  /\ extractRegion truncated_archive region6_header 176 ".temp" DefaultAESDict
                   keymap_saved
     = (Err (Msg "region data out of bounds"), keymap_saved)
  /\ (let stage1 := ParseNTPIFile "fw.ntpi" ".temp" truncated_disk in
      stage1.1 = Err (MsgWrap "failed to extract region"
                        (Msg "region data out of bounds"))
      /\ files stage1.2 !! ".temp/KeyMap.bin" = Some keymap
      /\ files stage1.2 !! ".temp/region6block.bin" = None).
Proof.
  split; [reflexivity|]. split; [vm_compute; reflexivity|].
  assert (ParseNTPIFile "fw.ntpi" ".temp" truncated_disk
          = (Err (MsgWrap "failed to extract region"
                    (Msg "region data out of bounds")),
             {| files := <[ ".temp/KeyMap.bin" := keymap ]> (files truncated_disk);
                dirs := {[ ".temp" ]}; denied := ∅; warnings := [] |})) as ->
    by (vm_compute; reflexivity).
  cbn [fst snd files]. split; [reflexivity|].
  split; vm_compute; reflexivity.
Qed.


(** C8 as worded fails: the entry that declares a partition length of 0 goes
    through the block loop and the hash check, and its file is written. *)
Lemma C8_counterexample :
  PartitionLength zero_length_entry = 0
  /\ worker (makeTask region6 keymap_slice "out" zero_length_entry) empty_world
     = (Ok {| FileName := "images/abl.img"; Success := true; Message := Msg "OK" |},
        {| files := {[ "out/images/abl.img" := image ]};
           dirs := {[ "out/images" ]}; denied := ∅; warnings := [] |}).
Proof. vm_compute. repeat split; reflexivity. Qed.
